(** * A transactional key-value store: lock manager, server handlers, client session

    Shallow embedding of [kvs/server/main.go], [kvs/client/main.go],
    [kvs/client/set.go], the sharding helper [serverFromKey] and the
    request types of [kvs/proto.go].

    Conventions.
    - Go's [uint64] transaction ids are [N]; they are only compared.
    - [sync.Map] and Go maps are [gmap]s; [map[uint64]bool] in which the
      only value ever stored is [true] (the read holders) and the
      [Set[T]] of [set.go] are [gset]s.
    - A pointer that may be [nil] ([*uint64]) is an [option].
    - Go's [error] is [option string]: [None] is [nil], [Some msg] is an
      error whose [Error()] text is [msg].
    - The [uint64] statistics counters are [Z] with the wrap-around of
      [atomic.AddUint64] written out.
    - [Get], [Put] and [Commit] hold the service-wide mutex for their
      whole body, so each is a function from the state before to the
      state after. [Abort] does not take the mutex (the two lines are
      commented out in the source); it is modelled the same way, that
      is, for executions in which its body is not interleaved with
      another handler. *)

From Stdlib Require Import ZArith NArith String Ascii List Lia.
From stdpp Require Import base tactics option list gmap strings fin_maps fin_sets.
From Stdlib Require DecimalString DecimalZ DecimalPos.

#[local] Set Warnings "-clear-no-such-hyp".

Local Open Scope string_scope.
Local Open Scope list_scope.
Local Open Scope nat_scope.

(** ** Errors and string helpers *)

Definition error : Type := option string.

Module strings.

(** [strings.HasPrefix(s, prefix)] *)
Fixpoint HasPrefix (s prefix : string) : bool :=
  match prefix with
  | EmptyString => true
  | String c prefix' =>
      match s with
      | EmptyString => false
      | String d s' => if Ascii.eqb c d then HasPrefix s' prefix' else false
      end
  end.

(** [strings.Contains(s, substr)]: [substr] occurs somewhere in [s]. *)
Fixpoint Contains (s substr : string) : bool :=
  if HasPrefix s substr then true
  else match s with
       | EmptyString => false
       | String _ s' => Contains s' substr
       end.

End strings.

(** ** Wire types ([kvs/proto.go]) *)

Module kvs.

Module GetRequest.
Record t := mk { Key : string; Txid : N }.
End GetRequest.

Module GetResponse.
Record t := mk { Value : string }.
End GetResponse.

Module PutRequest.
Record t := mk { Key : string; Value : string; Txid : N }.
End PutRequest.

Module CommitRequest.
Record t := mk { Txid : N; Lead : bool }.
End CommitRequest.

Module AbortRequest.
Record t := mk { Txid : N }.
End AbortRequest.

End kvs.

(** ** The server ([kvs/server/main.go]) *)

Module Server.

Definition uint64_add (x d : Z) : Z := ((x + d) mod 2 ^ 64)%Z.

Record Stats := mkStats {
  puts : Z;
  gets : Z;
  commits : Z;
  aborts : Z
}.

Record Operation := mkOperation {
  OpType : string;   (* "GET" or "PUT" *)
  Key : string;
  Value : string     (* empty for GET operations *)
}.

(** Lock holders of one key. *)
Record LockInfo := mkLockInfo {
  readHolders : gset N;
  writeHolder : option N
}.

Definition NewLockInfo : LockInfo :=
  {| readHolders := ∅; writeHolder := None |}.

Record KVService := mkKVService {
  mp : gmap string string;
  locks : gmap string LockInfo;
  transactions : gmap N (list Operation);
  stats : Stats
}.

Definition NewKVService : KVService :=
  {| mp := ∅; locks := ∅; transactions := ∅;
     stats := mkStats 0 0 0 0 |}.

Definition set_locks (kv : KVService) (l : gmap string LockInfo) : KVService :=
  {| mp := mp kv; locks := l; transactions := transactions kv; stats := stats kv |}.

Definition set_transactions (kv : KVService) (t : gmap N (list Operation)) : KVService :=
  {| mp := mp kv; locks := locks kv; transactions := t; stats := stats kv |}.

Definition set_mp (kv : KVService) (m : gmap string string) : KVService :=
  {| mp := m; locks := locks kv; transactions := transactions kv; stats := stats kv |}.

Definition set_stats (kv : KVService) (s : Stats) : KVService :=
  {| mp := mp kv; locks := locks kv; transactions := transactions kv; stats := s |}.

Definition add_puts (kv : KVService) : KVService :=
  let s := stats kv in
  set_stats kv (mkStats (uint64_add (puts s) 1) (gets s) (commits s) (aborts s)).

Definition add_gets (kv : KVService) : KVService :=
  let s := stats kv in
  set_stats kv (mkStats (puts s) (uint64_add (gets s) 1) (commits s) (aborts s)).

Definition add_commits (kv : KVService) : KVService :=
  let s := stats kv in
  set_stats kv (mkStats (puts s) (gets s) (uint64_add (commits s) 1) (aborts s)).

Definition add_aborts (kv : KVService) : KVService :=
  let s := stats kv in
  set_stats kv (mkStats (puts s) (gets s) (commits s) (uint64_add (aborts s) 1)).

(** [kv.locks.LoadOrStore(key, NewLockInfo())]: the map after the call
    and the entry it returns. *)
Definition LoadOrStore (l : gmap string LockInfo) (key : string) (fresh : LockInfo)
  : gmap string LockInfo * LockInfo :=
  match l !! key with
  | Some lockInfo => (l, lockInfo)
  | None => (<[key := fresh]> l, fresh)
  end.

(** [writeHolder != nil && *writeHolder == txid] *)
Definition writer_is (lockInfo : LockInfo) (txid : N) : bool :=
  match writeHolder lockInfo with
  | Some w => N.eqb w txid
  | None => false
  end.

(** [writeHolder != nil && *writeHolder != txid] *)
Definition writer_is_other (lockInfo : LockInfo) (txid : N) : bool :=
  match writeHolder lockInfo with
  | Some w => negb (N.eqb w txid)
  | None => false
  end.

Definition acquireReadLock (kv : KVService) (key : string) (txid : N)
  : KVService * error :=
  let '(l, lockInfo) := LoadOrStore (locks kv) key NewLockInfo in
  if writer_is_other lockInfo txid then
    (set_locks kv l,
     Some "Cannot acquire Read Lock, key is currently write locked")
  else if writer_is lockInfo txid then
    (set_locks kv l, None)
  else
    (set_locks kv
       (<[key := {| readHolders := {[txid]} ∪ readHolders lockInfo;
                    writeHolder := writeHolder lockInfo |}]> l),
     None).

Definition acquireWriteLock (kv : KVService) (key : string) (txid : N)
  : KVService * error :=
  let '(l, lockInfo) := LoadOrStore (locks kv) key NewLockInfo in
  if writer_is lockInfo txid then
    (set_locks kv l, None)
  else if bool_decide (writeHolder lockInfo ≠ None) then
    (set_locks kv l,
     Some "Cannot acquire Write Lock, key is currently write locked")
  else if bool_decide (1 < size (readHolders lockInfo)) then
    (set_locks kv l,
     Some "Cannot acquire Write Lock, key has multiple read locks")
  else if bool_decide (size (readHolders lockInfo) = 1)
          && negb (bool_decide (txid ∈ readHolders lockInfo)) then
    (set_locks kv l,
     Some "Cannot acquire Write Lock, key is read locked by another transaction")
  else
    (set_locks kv
       (<[key := {| readHolders := readHolders lockInfo ∖ {[txid]};
                    writeHolder := Some txid |}]> l),
     None).

(** One iteration of the loop of [releaseLocks]. *)
Definition releaseKey (txid : N) (l : gmap string LockInfo) (op : Operation)
  : gmap string LockInfo :=
  match l !! Key op with
  | Some lockInfo =>
      <[Key op := {| readHolders := readHolders lockInfo ∖ {[txid]};
                     writeHolder := if writer_is lockInfo txid then None
                                    else writeHolder lockInfo |}]> l
  | None => l
  end.

Definition releaseLocks (kv : KVService) (txid : N) : KVService :=
  let l := match transactions kv !! txid with
           | Some operations => foldl (releaseKey txid) (locks kv) operations
           | None => locks kv
           end in
  {| mp := mp kv; locks := l;
     transactions := delete txid (transactions kv); stats := stats kv |}.

(** The first statement of [Get] and [Put]: create the log on first use. *)
Definition ensureTransaction (kv : KVService) (txid : N) : KVService :=
  match transactions kv !! txid with
  | Some _ => kv
  | None => set_transactions kv (<[txid := []]> (transactions kv))
  end.

(** Load the log, append, store it back. The log exists at this point
    ([ensureTransaction] ran and the lock functions leave the table
    alone), so the [nil] case of the load is the empty log here. *)
Definition appendOp (kv : KVService) (txid : N) (op : Operation) : KVService :=
  let operations := default [] (transactions kv !! txid) in
  set_transactions kv (<[txid := (operations ++ [op])%list]> (transactions kv)).

Definition Get (kv : KVService) (request : kvs.GetRequest.t)
    (response : kvs.GetResponse.t) : KVService * kvs.GetResponse.t * error :=
  let key := kvs.GetRequest.Key request in
  let txid := kvs.GetRequest.Txid request in
  let kv := ensureTransaction kv txid in
  let '(kv, err) := acquireReadLock kv key txid in
  match err with
  | Some e => (add_aborts (releaseLocks kv txid), response, Some e)
  | None =>
      let kv := appendOp kv txid (mkOperation "GET" key "") in
      let response :=
        match mp kv !! key with
        | Some value => kvs.GetResponse.mk value
        | None => kvs.GetResponse.mk ""
        end in
      (add_gets kv, response, None)
  end.

Definition Put (kv : KVService) (request : kvs.PutRequest.t) : KVService * error :=
  let key := kvs.PutRequest.Key request in
  let txid := kvs.PutRequest.Txid request in
  let kv := ensureTransaction kv txid in
  let '(kv, err) := acquireWriteLock kv key txid in
  match err with
  | Some e => (add_aborts (releaseLocks kv txid), Some e)
  | None =>
      let kv := appendOp kv txid (mkOperation "PUT" key (kvs.PutRequest.Value request)) in
      (add_puts kv, None)
  end.

(** Body of the loop of [Commit]. *)
Definition applyOp (m : gmap string string) (op : Operation) : gmap string string :=
  if String.eqb (OpType op) "PUT" then <[Key op := Value op]> m else m.

Definition Commit (kv : KVService) (request : kvs.CommitRequest.t) : KVService * error :=
  let txid := kvs.CommitRequest.Txid request in
  let kv :=
    match transactions kv !! txid with
    | Some ops =>
        let kv := set_mp kv (foldl applyOp (mp kv) ops) in
        if kvs.CommitRequest.Lead request then add_commits kv else kv
    | None => kv
    end in
  (releaseLocks kv txid, None).

Definition Abort (kv : KVService) (request : kvs.AbortRequest.t) : KVService * error :=
  (add_aborts (releaseLocks kv (kvs.AbortRequest.Txid request)), None).

(** *** Lock holders and the per-key lock invariant *)

Definition holdsRead (kv : KVService) (key : string) (t : N) : Prop :=
  ∃ lockInfo, locks kv !! key = Some lockInfo ∧ t ∈ readHolders lockInfo.

Definition holdsWrite (kv : KVService) (key : string) (t : N) : Prop :=
  ∃ lockInfo, locks kv !! key = Some lockInfo ∧ writeHolder lockInfo = Some t.

(** For one key: one writer at most; with a writer [w], no reader other
    than [w], and [w] itself is not a reader. *)
Definition key_lock_inv (kv : KVService) (key : string) : Prop :=
  ∀ w, holdsWrite kv key w →
    (∀ w', holdsWrite kv key w' → w' = w) ∧
    (∀ r, holdsRead kv key r → r = w) ∧
    ¬ holdsRead kv key w.

Definition lock_inv (kv : KVService) : Prop := ∀ key, key_lock_inv kv key.

(** The same invariant on a single [LockInfo]. *)
Definition LockInfo_ok (lockInfo : LockInfo) : Prop :=
  writeHolder lockInfo ≠ None → readHolders lockInfo = ∅.

Definition holds (kv : KVService) (key : string) (t : N) : Prop :=
  holdsRead kv key t ∨ holdsWrite kv key t.

(** The effect of [releaseLocks] on one entry: the body of its loop
    without the map around it. *)
Definition released (txid : N) (lockInfo : LockInfo) : LockInfo :=
  {| readHolders := readHolders lockInfo ∖ {[txid]};
     writeHolder := if writer_is lockInfo txid then None
                    else writeHolder lockInfo |}.

(** Every lock a transaction holds is on a key of its operation log. *)
Definition locks_logged (kv : KVService) : Prop :=
  ∀ key t, holds kv key t →
    ∃ ops, transactions kv !! t = Some ops ∧ key ∈ map Key ops.

Definition locks_ok (kv : KVService) : Prop :=
  ∀ key lockInfo, locks kv !! key = Some lockInfo → LockInfo_ok lockInfo.

(** The lock state of [key] as the lock manager sees it: the stored
    entry, or the fresh one [LoadOrStore] would create. *)
Definition lockOf (kv : KVService) (key : string) : LockInfo :=
  default NewLockInfo (locks kv !! key).

(** Shape of a result of [acquireReadLock]. *)
Inductive ReadLockOutcome (kv : KVService) (key : string) (txid : N)
  : KVService * error → Prop :=
| rl_conflict e :
    (∃ w, writeHolder (lockOf kv key) = Some w ∧ w ≠ txid) →
    strings.Contains e "Cannot acquire" = true →
    ReadLockOutcome kv key txid (kv, Some e)
| rl_held :
    writeHolder (lockOf kv key) = Some txid →
    ReadLockOutcome kv key txid (kv, None)
| rl_shared :
    writeHolder (lockOf kv key) = None →
    ReadLockOutcome kv key txid
      (set_locks kv
         (<[key := {| readHolders := {[txid]} ∪ readHolders (lockOf kv key);
                      writeHolder := None |}]> (locks kv)), None).

(** Shape of a result of [acquireWriteLock]. *)
Inductive WriteLockOutcome (kv : KVService) (key : string) (txid : N)
  : KVService * error → Prop :=
| wl_held :
    writeHolder (lockOf kv key) = Some txid →
    WriteLockOutcome kv key txid (kv, None)
| wl_upgrade :
    writeHolder (lockOf kv key) = None →
    readHolders (lockOf kv key) ⊆ {[txid]} →
    WriteLockOutcome kv key txid
      (set_locks kv
         (<[key := {| readHolders := readHolders (lockOf kv key) ∖ {[txid]};
                      writeHolder := Some txid |}]> (locks kv)), None)
| wl_conflict e :
    (∃ w, writeHolder (lockOf kv key) = Some w ∧ w ≠ txid) ∨
    (writeHolder (lockOf kv key) = None ∧
     (1 < size (readHolders (lockOf kv key)) ∨
      ∃ r, readHolders (lockOf kv key) = {[r]} ∧ r ≠ txid)) →
    strings.Contains e "Cannot acquire" = true →
    WriteLockOutcome kv key txid (kv, Some e).

Inductive Request :=
| ReqGet (request : kvs.GetRequest.t)
| ReqPut (request : kvs.PutRequest.t)
| ReqCommit (request : kvs.CommitRequest.t)
| ReqAbort (request : kvs.AbortRequest.t).

(** The server as a state machine over the requests it serves; a [Get]
    arrives with a zero response. *)
Definition serve (kv : KVService) (r : Request) : KVService * error :=
  match r with
  | ReqGet request =>
      let '(kv, _, err) := Get kv request (kvs.GetResponse.mk "") in (kv, err)
  | ReqPut request => Put kv request
  | ReqCommit request => Commit kv request
  | ReqAbort request => Abort kv request
  end.

Definition step (kv : KVService) (r : Request) : KVService := (serve kv r).1.

Definition txidOf (r : Request) : N :=
  match r with
  | ReqGet request => kvs.GetRequest.Txid request
  | ReqPut request => kvs.PutRequest.Txid request
  | ReqCommit request => kvs.CommitRequest.Txid request
  | ReqAbort request => kvs.AbortRequest.Txid request
  end.

(** The record a served [Get] or [Put] appends to the log. *)
Definition recordOf (r : Request) : option Operation :=
  match r with
  | ReqGet request => Some (mkOperation "GET" (kvs.GetRequest.Key request) "")
  | ReqPut request =>
      Some (mkOperation "PUT" (kvs.PutRequest.Key request)
              (kvs.PutRequest.Value request))
  | _ => None
  end.

(** [Commit] and [Abort] end the transaction they name. *)
Definition ends (t : N) (r : Request) : Prop :=
  recordOf r = None ∧ txidOf r = t.

(** The PUT records of a log, in log order, and the value of the last
    PUT on a key. *)
Definition isPut (op : Operation) : bool := String.eqb (OpType op) "PUT".

Definition putsOf (ops : list Operation) : list Operation :=
  List.filter isPut ops.

Definition lastPut (key : string) (ops : list Operation) : option string :=
  last (map Value (List.filter (λ op, String.eqb (Key op) key) (putsOf ops))).

Definition run (kv : KVService) (rs : list Request) : KVService :=
  foldl step kv rs.

(** Transaction 1 has written key k; transaction 2 asks to write it. *)
Definition rs_one_writer : list Request :=
  [ReqPut (kvs.PutRequest.mk "k" "a" 1)].

Definition put_by_other : Request := ReqPut (kvs.PutRequest.mk "k" "b" 2).

(** Transaction 1 has read and then written key k. *)
Definition kv_after_put : KVService :=
  run NewKVService
    [ReqGet (kvs.GetRequest.mk "k" 1); ReqPut (kvs.PutRequest.mk "k" "v" 1)].

End Server.

(** ** The client ([kvs/client/main.go], [set.go], [serverFromKey]) *)

Module KVClient.

(** A [*Client] is a connection handle; it is used only as an identity
    (member of a set, receiver of a call), so it is its address. *)
Definition Client : Type := nat.

(** [hash/fnv] 32-bit FNV-1a, as [h.Write([]byte(key)); h.Sum32()]. *)
Definition offset32 : Z := 2166136261.
Definition prime32 : Z := 16777619.

Fixpoint fnv32a (h : Z) (data : string) : Z :=
  match data with
  | EmptyString => h
  | String c rest =>
      fnv32a ((Z.lxor h (Z.of_N (N_of_ascii c)) * prime32) mod 2 ^ 32)%Z rest
  end.

Definition Sum32 (key : string) : Z := fnv32a offset32 key.

(** [serverFromKey]: [None] is the run-time panic of [% len(servers)] on
    an empty server list. *)
Definition serverFromKey (key : string) (servers : list Client) : option Client :=
  match servers with
  | [] => None
  | _ :: _ =>
      let idx := Z.rem (Sum32 key) (Z.of_nat (length servers)) in
      servers !! Z.to_nat idx
  end.

Record Txn := mkTxn {
  allServers : list Client;
  usedServers : gset Client;
  id : option N;
  writeSet : gmap string string
}.

(** [Txn{}] *)
Definition zeroTxn : Txn :=
  {| allServers := []; usedServers := ∅; id := None; writeSet := ∅ |}.

(** [Begin]; [draw] is the value [randGen.Uint64()] returns. *)
Definition Begin (txn : Txn) (availableServers : list Client) (draw : N) : Txn :=
  {| allServers := availableServers;
     id := Some draw;
     usedServers := ∅;
     writeSet := ∅ |}.

(** [getServer]: the chosen server, recorded as a participant. *)
Definition getServer (txn : Txn) (key : string) : option (Txn * Client) :=
  match serverFromKey key (allServers txn) with
  | None => None
  | Some server =>
      Some ({| allServers := allServers txn;
               usedServers := {[server]} ∪ usedServers txn;
               id := id txn;
               writeSet := writeSet txn |}, server)
  end.

Definition set_writeSet (txn : Txn) (ws : gmap string string) : Txn :=
  {| allServers := allServers txn; usedServers := usedServers txn;
     id := id txn; writeSet := ws |}.

(** [strings.Contains(err.Error(), "Cannot acquire") ||
     strings.Contains(err.Error(), "Abort:")] *)
Definition isLockConflict (msg : string) : bool :=
  strings.Contains msg "Cannot acquire" || strings.Contains msg "Abort:".

(** The [Abort] calls for a list of servers. *)
Definition abortCalls (txid : N) (servers : list Client)
  : list (Client * Server.Request) :=
  map (λ server, (server, Server.ReqAbort (kvs.AbortRequest.mk txid))) servers.

Section Session.

(** The RPC transport is outside the repository: [rpcClient.Call] is any
    function of the state of the world beyond the client. *)
Context {World : Type}.
Variable Call :
  Client → Server.Request → kvs.GetResponse.t → World →
  World * kvs.GetResponse.t * error.

(** The order in which [range] walks the participant set (unspecified
    in Go). *)
Variable rangeOrder : gset Client → list Client.

(** The world and the calls issued so far, oldest first. *)
Record Net := mkNet {
  world : World;
  sent : list (Client * Server.Request)
}.

Definition rpcCall (client : Client) (request : Server.Request)
    (response : kvs.GetResponse.t) (n : Net) : Net * kvs.GetResponse.t * error :=
  let '(w, response, err) := Call client request response (world n) in
  ({| world := w; sent := sent n ++ [(client, request)] |}, response, err).

(** [Client.Get] *)
Definition Client_Get (client : Client) (key : string) (txid : N) (n : Net)
  : Net * string * error :=
  let request := kvs.GetRequest.mk key txid in
  let response := kvs.GetResponse.mk "" in
  let '(n, response, err) := rpcCall client (Server.ReqGet request) response n in
  match err with
  | Some e => (n, "", Some e)
  | None => (n, kvs.GetResponse.Value response, None)
  end.

(** [Client.Put] *)
Definition Client_Put (client : Client) (key value : string) (txid : N) (n : Net)
  : Net * error :=
  let request := kvs.PutRequest.mk key value txid in
  let '(n, _, err) :=
    rpcCall client (Server.ReqPut request) (kvs.GetResponse.mk "") n in
  (n, err).

(** The loop of [Txn.Abort]: it returns at the first failed call. *)
Fixpoint abortLoop (servers : list Client) (txid : N) (n : Net) : Net * error :=
  match servers with
  | [] => (n, None)
  | server :: rest =>
      let request := kvs.AbortRequest.mk txid in
      let '(n, _, err) :=
        rpcCall server (Server.ReqAbort request) (kvs.GetResponse.mk "") n in
      match err with
      | Some e => (n, Some e)
      | None => abortLoop rest txid n
      end
  end.

Definition Abort (txn : Txn) (n : Net) : Net * error :=
  match id txn with
  | None => (n, Some "cannot abort a transaction that has not begun")
  | Some txid => abortLoop (rangeOrder (usedServers txn)) txid n
  end.

(** The loop of [Txn.Commit]: failures are logged and skipped. *)
Fixpoint commitLoop (servers : list Client) (txid : N) (lead : bool) (n : Net) : Net :=
  match servers with
  | [] => n
  | server :: rest =>
      let request := kvs.CommitRequest.mk txid lead in
      let '(n, _, _) :=
        rpcCall server (Server.ReqCommit request) (kvs.GetResponse.mk "") n in
      commitLoop rest txid false n
  end.

Definition Commit (txn : Txn) (n : Net) : Net * error :=
  match id txn with
  | None => (n, Some "cannot commit a transaction that has not begun")
  | Some txid => (commitLoop (rangeOrder (usedServers txn)) txid true n, None)
  end.

(** [Txn.Get]. The outer [option] is [None] when the call panics
    (empty server list). *)
Definition Get (txn : Txn) (key : string) (n : Net)
  : option (Txn * Net * string * error) :=
  match id txn with
  | None =>
      Some (txn, n, "", Some "cannot call Get on a transaction that has not begun")
  | Some txid =>
      match writeSet txn !! key with
      | Some cachedVal => Some (txn, n, cachedVal, None)
      | None =>
          match getServer txn key with
          | None => None
          | Some (txn, server) =>
              let '(n, resp, err) := Client_Get server key txid n in
              match err with
              | Some e =>
                  if isLockConflict e then
                    Some (txn, n, "", Some ("lock conflict: " ++ e)%string)
                  else
                    let '(n, _) := Abort txn n in
                    Some (txn, n, "", Some ("server-side error raised: " ++ e)%string)
              | None => Some (txn, n, resp, None)
              end
          end
      end
  end.

(** [Txn.Put] *)
Definition Put (txn : Txn) (key value : string) (n : Net)
  : option (Txn * Net * error) :=
  match id txn with
  | None =>
      Some (txn, n, Some "cannot call Put on a transaction that has not begun")
  | Some txid =>
      match getServer txn key with
      | None => None
      | Some (txn, server) =>
          let '(n, err) := Client_Put server key value txid n in
          match err with
          | Some e =>
              if isLockConflict e then
                Some (txn, n, Some ("lock conflict: " ++ e)%string)
              else
                let '(n, _) := Abort txn n in
                Some (txn, n, Some ("server-side error raised: " ++ e)%string)
          | None => Some (set_writeSet txn (<[key := value]> (writeSet txn)), n, None)
          end
      end
  end.

(** What [Get] and [Put] do once the call to the server has failed with
    text [e]: [n1] is the network after the failed call, [n2] and [err]
    are what the method leaves and returns. *)
Definition afterRpcError (txn : Txn) (txid : N) (e : string) (n1 n2 : Net)
    (err : error) : Prop :=
  if isLockConflict e then
    n2 = n1 ∧ err = Some ("lock conflict: " ++ e)%string
  else
    err = Some ("server-side error raised: " ++ e)%string ∧
    n2 = (Abort txn n1).1 ∧
    (∃ k, sent n2
          = sent n1 ++ abortCalls txid (take k (rangeOrder (usedServers txn)))) ∧
    ((Abort txn n1).2 = None →
     ∀ c, c ∈ usedServers txn →
          (c, Server.ReqAbort (kvs.AbortRequest.mk txid)) ∈ sent n2).

End Session.

(** A transport for concrete runs: every connection handle leads to one
    [KVService]; a handle without a server behind it fails every call
    with the text of [rpc.ErrShutdown]. *)
Definition serveCall (client : Client) (request : Server.Request)
    (response : kvs.GetResponse.t) (w : gmap Client Server.KVService)
  : gmap Client Server.KVService * kvs.GetResponse.t * error :=
  match w !! client with
  | None => (w, response, Some "connection is shut down")
  | Some kv =>
      match request with
      | Server.ReqGet r =>
          let '(kv, response, err) := Server.Get kv r response in
          (<[client := kv]> w, response, err)
      | Server.ReqPut r =>
          let '(kv, err) := Server.Put kv r in (<[client := kv]> w, response, err)
      | Server.ReqCommit r =>
          let '(kv, err) := Server.Commit kv r in (<[client := kv]> w, response, err)
      | Server.ReqAbort r =>
          let '(kv, err) := Server.Abort kv r in (<[client := kv]> w, response, err)
      end
  end.

(** A transport on which every call fails with the same text. *)
Definition brokenCall (msg : string) (client : Client) (request : Server.Request)
    (response : kvs.GetResponse.t) (w : unit) : unit * kvs.GetResponse.t * error :=
  (w, response, Some msg).

(** The classification of an RPC error as the specification words it:
    the text contains "Cannot acquire" or starts with "Abort:". *)
Definition specLockConflict (msg : string) : bool :=
  strings.Contains msg "Cannot acquire" || strings.HasPrefix msg "Abort:".

(** A transaction begun on two servers that has used both. *)
Definition txn_two_servers : Txn :=
  {| allServers := [0; 1]; usedServers := {[0; 1]}; id := Some 7%N;
     writeSet := ∅ |}.

(** A transaction begun on one server; on that server transaction 1 has
    written key k. *)
Definition txn_fresh : Txn := Begin zeroTxn [0] 2.

Definition world_one_writer : gmap Client Server.KVService :=
  {[ 0 := Server.run Server.NewKVService Server.rs_one_writer ]}.

Definition net_one_writer : Net :=
  {| world := world_one_writer; sent := [] |}.

(** [txn_fresh] once it has chosen its only server. *)
Definition txn_fresh_used : Txn :=
  {| allServers := [0]; usedServers := {[0]} ∪ ∅; id := Some 2%N;
     writeSet := ∅ |}.

Definition write_conflict_text : string :=
  "Cannot acquire Write Lock, key is currently write locked".

(** The scenarios of [test_test.go] on one server, with the participant
    set walked in the order of [elements]. *)
Definition net_empty_server : @Net (gmap Client Server.KVService) :=
  {| world := {[ 0 := Server.NewKVService ]}; sent := [] |}.

(** [TestPutGet], first part: the value read back inside the
    transaction and the value read by the next transaction. *)
Definition TestPutGet : option (string * error * string * error) :=
  let txn := Begin zeroTxn [0] 11 in
  '(txn, n, err) ← Put serveCall elements txn "test" "value" net_empty_server;
  '(txn, n, got, err) ← Get serveCall elements txn "test" n;
  let '(n, _) := Commit serveCall elements txn n in
  let txn := Begin zeroTxn [0] 12 in
  '(txn, n, got2, err2) ← Get serveCall elements txn "test" n;
  Some (got, err, got2, err2).

(** [TestWWConflict], second part: the errors of the two [Put]s and of
    the two [Commit]s, and the value stored in the end. *)
Definition TestWWConflict : option (error * error * error * error * option string) :=
  let txn1 := Begin zeroTxn [0] 21 in
  let txn2 := Begin zeroTxn [0] 22 in
  '(txn1, n, err1) ← Put serveCall elements txn1 "conflict_key" "c1" net_empty_server;
  '(txn2, n, err2) ← Put serveCall elements txn2 "conflict_key" "c2" n;
  let '(n, cerr1) := Commit serveCall elements txn1 n in
  let '(n, cerr2) := Commit serveCall elements txn2 n in
  kv ← world n !! 0;
  Some (err1, err2, cerr1, cerr2, Server.mp kv !! "conflict_key").

(** [TestRWConflict], the write after a read of another transaction and
    the read after a write of another transaction. *)
Definition TestRWConflict : option (error * error * error * error) :=
  let txn1 := Begin zeroTxn [0] 31 in
  let txn2 := Begin zeroTxn [0] 32 in
  '(txn1, n, _, rerr) ← Get serveCall elements txn1 "rw1" net_empty_server;
  '(txn2, n, werr) ← Put serveCall elements txn2 "rw1" "c2" n;
  let '(n, _) := Commit serveCall elements txn1 n in
  let '(n, _) := Commit serveCall elements txn2 n in
  let txn1 := Begin zeroTxn [0] 33 in
  let txn2 := Begin zeroTxn [0] 34 in
  '(txn1, n, werr2) ← Put serveCall elements txn1 "rw1" "c3" n;
  '(txn2, n, _, rerr2) ← Get serveCall elements txn2 "rw1" n;
  Some (rerr, werr, werr2, rerr2).

(** The empty string written and read back in the same transaction. *)
Definition put_empty_then_get : option (string * error * nat * nat) :=
  let txn := Begin zeroTxn [0] 41 in
  '(txn, n, _) ← Put serveCall elements txn "k" "" net_empty_server;
  '(txn, n2, got, err) ← Get serveCall elements txn "k" n;
  Some (got, err, length (sent n), length (sent n2)).

End KVClient.

(** ** Retry delays of the workloads ([performTransfer], [checkTotalBalance]) *)

Module Retry.

Local Open Scope Z_scope.

(** [time.Duration] is an [int64] count of nanoseconds; [int] is 64 bits. *)
Definition int64 (z : Z) : Z := (z + 2 ^ 63) mod 2 ^ 64 - 2 ^ 63.

Definition Millisecond : Z := 1000000.
Definition Second : Z := 1000 * Millisecond.

(** [1 << uint(retry)] on [int]. *)
Definition shl1 (retry : Z) : Z := int64 (Z.shiftl 1 retry).

(** [time.Duration(base*(1<<uint(retry))) * time.Millisecond] *)
Definition rawBackoff (base retry : Z) : Z :=
  int64 (int64 (base * shl1 retry) * Millisecond).

(** [randGen.Intn(n)]: panics ([None]) when [n <= 0]; otherwise the
    generator's [draw] reduced into [[0, n)]. *)
Definition Intn (n draw : Z) : option Z :=
  if n <=? 0 then None else Some (draw mod n).

(** [jitter := time.Duration(randGen.Intn(int(backoffTime / 2)));
     time.Sleep(backoffTime + jitter)]: the duration slept. *)
Definition sleepFor (backoffTime draw : Z) : option Z :=
  match Intn (Z.quot backoffTime 2) draw with
  | None => None
  | Some jitter => Some (int64 (backoffTime + jitter))
  end.

Module performTransfer.
Definition maxRetries : Z := 15.
Definition baseDelay : Z := 20.

(** The capped backoff of the three retry sites of [performTransfer]. *)
Definition backoffTime (retry : Z) : Z :=
  let backoffTime := rawBackoff baseDelay retry in
  if 2 * Second <? backoffTime then 2 * Second else backoffTime.

(** What attempt [retry] sleeps after a lock conflict: [Some None] is
    no sleep at all (last attempt), [None] a panic. *)
Definition conflictSleep (retry draw : Z) : option (option Z) :=
  if retry <? maxRetries - 1 then
    match sleepFor (backoffTime retry) draw with
    | Some d => Some (Some d)
    | None => None
    end
  else Some None.
End performTransfer.

Module checkTotalBalance.
Definition maxRetries : Z := 10.

Definition backoffTime (retry : Z) : Z := rawBackoff 50 retry.

Definition conflictSleep (retry draw : Z) : option (option Z) :=
  match sleepFor (backoffTime retry) draw with
  | Some d => Some (Some d)
  | None => None
  end.
End checkTotalBalance.

End Retry.

(** ** More of the server: statistics and the log/lock correspondence *)

Module ServerExtra.
Import Server.

(** [uint64] subtraction, as in [Stats.Sub]. *)
Definition uint64_sub (x y : Z) : Z := ((x - y) mod 2 ^ 64)%Z.

(** [Stats.Sub] *)
Definition Sub (s prev : Stats) : Stats :=
  {| puts := uint64_sub (puts s) (puts prev);
     gets := uint64_sub (gets s) (gets prev);
     commits := uint64_sub (commits s) (commits prev);
     aborts := uint64_sub (aborts s) (aborts prev) |}.

Definition uint64_range (x : Z) : Prop := (0 <= x < 2 ^ 64)%Z.

Definition stats_in_range (s : Stats) : Prop :=
  uint64_range (puts s) ∧ uint64_range (gets s) ∧
  uint64_range (commits s) ∧ uint64_range (aborts s).

(** What one request should add to the counters: a served [Get] or
    [Put] counts as a get or a put, a conflict and an [Abort] count as
    an abort, a [Commit] counts when it is the lead one of a transaction
    the server knows. *)
Definition event (kv : KVService) (r : Request) : Stats :=
  match r, (serve kv r).2 with
  | ReqGet _, None => mkStats 0 1 0 0
  | ReqPut _, None => mkStats 1 0 0 0
  | ReqCommit request, _ =>
      if kvs.CommitRequest.Lead request
         && bool_decide (is_Some (transactions kv !! kvs.CommitRequest.Txid request))
      then mkStats 0 0 1 0 else mkStats 0 0 0 0
  | _, _ => mkStats 0 0 0 1
  end.

Definition stats_plus (a b : Stats) : Stats :=
  mkStats (puts a + puts b) (gets a + gets b)
    (commits a + commits b) (aborts a + aborts b)%Z.

(** The events of a run, counted without any bound. *)
Fixpoint tally (kv : KVService) (rs : list Request) : Stats :=
  match rs with
  | [] => mkStats 0 0 0 0
  | r :: rs => stats_plus (event kv r) (tally (step kv r) rs)
  end.

Definition stats_wrap (a : Stats) : Stats :=
  mkStats (puts a mod 2 ^ 64) (gets a mod 2 ^ 64)
    (commits a mod 2 ^ 64) (aborts a mod 2 ^ 64)%Z.

(** Every record of a log is covered by a lock of its transaction on the
    key of the record, a write lock for a PUT record. *)
Definition logs_locked (kv : KVService) : Prop :=
  ∀ t ops op, transactions kv !! t = Some ops → op ∈ ops →
    holds kv (Key op) t ∧ (OpType op = "PUT" → holdsWrite kv (Key op) t).

(** Two lock entries agree on what transaction [t] holds. *)
Definition same_for (t : N) (a b : LockInfo) : Prop :=
  (t ∈ readHolders a ↔ t ∈ readHolders b) ∧
  (writeHolder a = Some t ↔ writeHolder b = Some t).

(** Transaction 5 has read key a and written key b; transaction 6 has
    read key a. *)
Definition rs_two_txns : list Request :=
  [ReqGet (kvs.GetRequest.mk "a" 5); ReqPut (kvs.PutRequest.mk "b" "x" 5);
   ReqGet (kvs.GetRequest.mk "a" 6)].

End ServerExtra.

(** ** More of the client: what a session sends *)

Module ClientExtra.
Import KVClient.

(** The [Commit] calls for a list of servers: the first one is the lead. *)
Definition commitCalls (txid : N) (servers : list Client)
  : list (Client * Server.Request) :=
  match servers with
  | [] => []
  | server :: rest =>
      (server, Server.ReqCommit (kvs.CommitRequest.mk txid true))
      :: map (λ c, (c, Server.ReqCommit (kvs.CommitRequest.mk txid false))) rest
  end.

(** One method call of a session, from [txn], [n] to [txn'], [n']: the
    servers and the identifier stay, participants are only added and
    are servers of the session, and every call sent names the
    transaction and goes to a participant. *)
Definition session_step {World : Type} (txn : Txn) (n : @Net World)
    (txn' : Txn) (n' : @Net World) : Prop :=
  allServers txn' = allServers txn ∧
  id txn' = id txn ∧
  usedServers txn ⊆ usedServers txn' ∧
  (∀ c, c ∈ usedServers txn' → c ∈ usedServers txn ∨ c ∈ allServers txn) ∧
  ∃ calls, sent n' = sent n ++ calls ∧
           ∀ c request, (c, request) ∈ calls →
                        c ∈ usedServers txn' ∧
                        id txn = Some (Server.txidOf request).

(** A transaction that has used servers 3, 1 and 2. *)
Definition txn_three_servers : Txn :=
  {| allServers := [1; 2; 3]; usedServers := {[3; 1; 2]}; id := Some 9%N;
     writeSet := ∅ |}.

End ClientExtra.

(** ** The bank workload of the client ([performTransfer],
       [checkTotalBalance], [initAccounts]) *)

Module Workload.
Import KVClient.

(** [fmt.Sprintf("%d", n)] for an [int]. *)
Definition Itoa (n : Z) : string :=
  DecimalString.NilZero.string_of_int (Z.to_int n).

(** [strconv.Atoi]: an optional sign, then one decimal digit at least
    and nothing else, the value within [int]; [None] is any error. *)
Definition Atoi (s : string) : option Z :=
  let parsed :=
    match s with
    | EmptyString => None
    | String a digits =>
        if Ascii.eqb a "+" then
          option_map Z.of_uint (DecimalString.NilZero.uint_of_string digits)
        else option_map Z.of_int (DecimalString.NilZero.int_of_string s)
    end in
  match parsed with
  | Some v => if (- 2 ^ 63 <=? v)%Z && (v <? 2 ^ 63)%Z then Some v else None
  | None => None
  end.

(** [sort.Ints] *)
Fixpoint insertInt (x : Z) (l : list Z) : list Z :=
  match l with
  | [] => [x]
  | y :: l' => if (x <=? y)%Z then x :: l else y :: insertInt x l'
  end.

Definition sortInts (l : list Z) : list Z := foldr insertInt [] l.

(** [fmt.Sprintf("account_%d", account)] *)
Definition accountKey (account : Z) : string := "account_" ++ Itoa account.

(** The errors [performTransfer] and [checkTotalBalance] return, by the
    [fmt.Errorf] that builds them. *)
Inductive WorkloadError :=
| ErrReading (account : Z) (err : string)
| ErrParsing (account : Z)
| ErrInsufficient (src balance : Z)
| ErrUpdating (account : Z) (err : string)
| ErrTransferRetries
| ErrReturned (err : string)
| ErrAtoi (balStr : string)
| ErrIntegrity (total : Z)
| ErrBalanceRetries.

(** How one attempt of a retry loop ends: it returns, or the loop goes
    on to its backoff and [continue]. *)
Inductive Attempt :=
| Returned (err : option WorkloadError)
| Again.

(** How the loop over the accounts ends. *)
Inductive Phase (A : Type) :=
| Completed (a : A)
| Conflict
| Failed (err : WorkloadError).
Arguments Completed {A}.
Arguments Conflict {A}.
Arguments Failed {A}.

Section Run.
Context {World : Type}.
Variable Call :
  Client → Server.Request → kvs.GetResponse.t → World →
  World * kvs.GetResponse.t * error.
Variable rangeOrder : gset Client → list Client.

(** [draws k] is what the [k]-th use of [randGen] draws. *)
Variable draws : nat → Z.

(** The network, the number of draws made and the durations slept. *)
Record Env := mkEnv {
  net : @Net World;
  drawn : nat;
  slept : list Z
}.

(** [txn := Txn{}; txn.Begin(servers)] *)
Definition beginTxn (servers : list Client) (e : Env) : Txn * Env :=
  (Begin zeroTxn servers (Z.to_N (draws (drawn e) mod 2 ^ 64)),
   {| net := net e; drawn := S (drawn e); slept := slept e |}).

(** A backoff site: [sleep] is the [conflictSleep] of the loop. [None]
    is a panic of [Intn]. *)
Definition backoff (sleep : Z → Z → option (option Z)) (retry : Z) (e : Env)
  : option Env :=
  match sleep retry (draws (drawn e)) with
  | None => None
  | Some None => Some e
  | Some (Some d) =>
      Some {| net := net e; drawn := S (drawn e); slept := slept e ++ [d] |}
  end.

(** The first loop of [performTransfer]: read the balances in order. *)
Fixpoint readBalances (accounts : list Z) (balances : gmap Z Z) (txn : Txn)
    (n : Net) : option (Txn * Net * Phase (gmap Z Z)) :=
  match accounts with
  | [] => Some (txn, n, Completed balances)
  | account :: rest =>
      match Get Call rangeOrder txn (accountKey account) n with
      | None => None
      | Some (txn, n, balStr, Some err) =>
          let '(n, _) := Abort Call rangeOrder txn n in
          if strings.Contains err "lock conflict" then Some (txn, n, Conflict)
          else Some (txn, n, Failed (ErrReading account err))
      | Some (txn, n, balStr, None) =>
          if String.eqb balStr "" then
            readBalances rest (<[account := 0%Z]> balances) txn n
          else
            match Atoi balStr with
            | None =>
                let '(n, _) := Abort Call rangeOrder txn n in
                Some (txn, n, Failed (ErrParsing account))
            | Some bal => readBalances rest (<[account := bal]> balances) txn n
            end
      end
  end.

(** [balances[account]] *)
Definition balanceAt (balances : gmap Z Z) (account : Z) : Z :=
  default 0%Z (balances !! account).

(** The second loop of [performTransfer]: write the new balances in the
    same order. *)
Fixpoint writeBalances (src : Z) (accounts : list Z) (balances : gmap Z Z)
    (txn : Txn) (n : Net) : option (Txn * Net * Phase unit) :=
  match accounts with
  | [] => Some (txn, n, Completed tt)
  | account :: rest =>
      let newBalance :=
        if (account =? src)%Z then Retry.int64 (balanceAt balances account - 100)
        else Retry.int64 (balanceAt balances account + 100) in
      match Put Call rangeOrder txn (accountKey account) (Itoa newBalance) n with
      | None => None
      | Some (txn, n, Some err) =>
          let '(n, _) := Abort Call rangeOrder txn n in
          if strings.Contains err "lock conflict" then Some (txn, n, Conflict)
          else Some (txn, n, Failed (ErrUpdating account err))
      | Some (txn, n, None) => writeBalances src rest balances txn n
      end
  end.

(** The body of the retry loop of [performTransfer]. *)
Definition transferAttempt (clientId : Z) (servers : list Client) (e : Env)
  : option (Attempt * Env) :=
  let src := clientId in
  let dst := Z.rem (Retry.int64 (clientId + 1)) 10 in
  let '(txn, e) := beginTxn servers e in
  let accounts := sortInts [src; dst] in
  let withNet (n : Net) := {| net := n; drawn := drawn e; slept := slept e |} in
  match readBalances accounts ∅ txn (net e) with
  | None => None
  | Some (txn, n, Failed err) => Some (Returned (Some err), withNet n)
  | Some (txn, n, Conflict) => Some (Again, withNet n)
  | Some (txn, n, Completed balances) =>
      if (balanceAt balances src <? 100)%Z then
        let '(n, _) := Abort Call rangeOrder txn n in
        Some (Returned (Some (ErrInsufficient src (balanceAt balances src))),
              withNet n)
      else
        match writeBalances src accounts balances txn n with
        | None => None
        | Some (txn, n, Failed err) => Some (Returned (Some err), withNet n)
        | Some (txn, n, Conflict) => Some (Again, withNet n)
        | Some (txn, n, Completed _) =>
            let '(n, err) := Commit Call rangeOrder txn n in
            match err with
            | Some _ => Some (Again, withNet n)
            | None => Some (Returned None, withNet n)
            end
        end
  end.

(** [for retry := ...; retry < maxRetries; retry++]: [fuel] is the
    number of iterations left. *)
Fixpoint transferLoop (fuel : nat) (retry : Z) (clientId : Z)
    (servers : list Client) (e : Env) : option (option WorkloadError * Env) :=
  match fuel with
  | O => Some (Some ErrTransferRetries, e)
  | S fuel =>
      match transferAttempt clientId servers e with
      | None => None
      | Some (Returned err, e) => Some (err, e)
      | Some (Again, e) =>
          match backoff Retry.performTransfer.conflictSleep retry e with
          | None => None
          | Some e => transferLoop fuel (retry + 1) clientId servers e
          end
      end
  end.

Definition performTransfer (clientId : Z) (servers : list Client) (e : Env)
  : option (option WorkloadError * Env) :=
  transferLoop (Z.to_nat Retry.performTransfer.maxRetries) 0 clientId servers e.

(** The loop [for i := 0; i < 10; i++] of [checkTotalBalance], from
    account [i] on, [count] accounts left. The slice [balances] is only
    printed and is left out. *)
Fixpoint readAll (count : nat) (i : Z) (total : Z) (txn : Txn) (n : Net)
  : option (Txn * Net * Phase Z) :=
  match count with
  | O => Some (txn, n, Completed total)
  | S count =>
      match Get Call rangeOrder txn (accountKey i) n with
      | None => None
      | Some (txn, n, balStr, Some err) =>
          let '(n, _) := Abort Call rangeOrder txn n in
          if strings.Contains err "lock conflict" then Some (txn, n, Conflict)
          else Some (txn, n, Failed (ErrReturned err))
      | Some (txn, n, balStr, None) =>
          if String.eqb balStr "" then
            readAll count (i + 1) (Retry.int64 (total + 0)) txn n
          else
            match Atoi balStr with
            | None =>
                let '(n, _) := Abort Call rangeOrder txn n in
                Some (txn, n, Failed (ErrAtoi balStr))
            | Some bal => readAll count (i + 1) (Retry.int64 (total + bal)) txn n
            end
      end
  end.

(** The body of the retry loop of [checkTotalBalance]. *)
Definition checkAttempt (servers : list Client) (e : Env)
  : option (Attempt * Env) :=
  let '(txn, e) := beginTxn servers e in
  let withNet (n : Net) := {| net := n; drawn := drawn e; slept := slept e |} in
  match readAll 10 0 0 txn (net e) with
  | None => None
  | Some (txn, n, Failed err) => Some (Returned (Some err), withNet n)
  | Some (txn, n, Conflict) => Some (Again, withNet n)
  | Some (txn, n, Completed total) =>
      let '(n, err) := Commit Call rangeOrder txn n in
      match err with
      | Some _ => Some (Again, withNet n)
      | None =>
          if (total =? 10000)%Z then Some (Returned None, withNet n)
          else Some (Returned (Some (ErrIntegrity total)), withNet n)
      end
  end.

Fixpoint checkLoop (fuel : nat) (retry : Z) (servers : list Client) (e : Env)
  : option (option WorkloadError * Env) :=
  match fuel with
  | O => Some (Some ErrBalanceRetries, e)
  | S fuel =>
      match checkAttempt servers e with
      | None => None
      | Some (Returned err, e) => Some (err, e)
      | Some (Again, e) =>
          match backoff Retry.checkTotalBalance.conflictSleep retry e with
          | None => None
          | Some e => checkLoop fuel (retry + 1) servers e
          end
      end
  end.

Definition checkTotalBalance (servers : list Client) (e : Env)
  : option (option WorkloadError * Env) :=
  checkLoop (Z.to_nat Retry.checkTotalBalance.maxRetries) 0 servers e.

(** The backoff of [initAccounts]: the delay of [checkTotalBalance],
    not after the last attempt. *)
Definition initSleep (retry draw : Z) : option (option Z) :=
  if (retry <? 10 - 1)%Z then
    Retry.checkTotalBalance.conflictSleep retry draw
  else Some None.

(** The body of the retry loop of [initAccounts]: [true] is [break]. *)
Definition initAttempt (i : Z) (servers : list Client) (e : Env)
  : option (bool * Env) :=
  let '(txn, e) := beginTxn servers e in
  let withNet (n : Net) := {| net := n; drawn := drawn e; slept := slept e |} in
  match Put Call rangeOrder txn (accountKey i) "1000" (net e) with
  | None => None
  | Some (txn, n, Some err) =>
      let '(n, _) := Abort Call rangeOrder txn n in Some (false, withNet n)
  | Some (txn, n, None) =>
      let '(n, err) := Commit Call rangeOrder txn n in
      match err with
      | Some _ => Some (false, withNet n)
      | None => Some (true, withNet n)
      end
  end.

Fixpoint initLoop (fuel : nat) (retry : Z) (i : Z) (servers : list Client)
    (e : Env) : option Env :=
  match fuel with
  | O => Some e
  | S fuel =>
      match initAttempt i servers e with
      | None => None
      | Some (true, e) => Some e
      | Some (false, e) =>
          match backoff initSleep retry e with
          | None => None
          | Some e => initLoop fuel (retry + 1) i servers e
          end
      end
  end.

(** The outer loop of [initAccounts], from account [i] on. *)
Fixpoint initFrom (count : nat) (i : Z) (servers : list Client) (e : Env)
  : option Env :=
  match count with
  | O => Some e
  | S count =>
      match initLoop 10 0 i servers e with
      | None => None
      | Some e => initFrom count (i + 1) servers e
      end
  end.

Definition initAccounts (servers : list Client) (e : Env) : option Env :=
  initFrom 10 0 servers e.

(** [time.Sleep(100 * time.Millisecond)] *)
Definition sleep100 (e : Env) : Env :=
  {| net := net e; drawn := drawn e;
     slept := slept e ++ [(100 * Retry.Millisecond)%Z] |}.

(** The loop of [runTransferClient] that sets the flag
    ["init_complete"]. *)
Fixpoint signalInit (fuel : nat) (servers : list Client) (e : Env)
  : option Env :=
  match fuel with
  | O => Some e
  | S fuel =>
      let '(txn, e) := beginTxn servers e in
      let withNet (n : Net) := {| net := n; drawn := drawn e; slept := slept e |} in
      match Put Call rangeOrder txn "init_complete" "true" (net e) with
      | None => None
      | Some (txn, n, Some err) =>
          let '(n, _) := Abort Call rangeOrder txn n in
          signalInit fuel servers (sleep100 (withNet n))
      | Some (txn, n, None) =>
          let '(n, err) := Commit Call rangeOrder txn n in
          match err with
          | None => Some (withNet n)
          | Some _ => signalInit fuel servers (sleep100 (withNet n))
          end
      end
  end.

(** The loop in which every client waits for the flag; it has no
    bound, [fuel] is the number of rounds looked at ([None] when they
    do not suffice, or at a panic). *)
Fixpoint waitInit (fuel : nat) (servers : list Client) (e : Env) : option Env :=
  match fuel with
  | O => None
  | S fuel =>
      let '(txn, e) := beginTxn servers e in
      let withNet (n : Net) := {| net := n; drawn := drawn e; slept := slept e |} in
      match Get Call rangeOrder txn "init_complete" (net e) with
      | None => None
      | Some (txn, n, initFlag, Some err) =>
          let '(n, _) := Abort Call rangeOrder txn n in
          waitInit fuel servers (sleep100 (withNet n))
      | Some (txn, n, initFlag, None) =>
          let '(n, err) := Commit Call rangeOrder txn n in
          match err with
          | None =>
              if String.eqb initFlag "true" then Some (withNet n)
              else waitInit fuel servers (sleep100 (withNet n))
          | Some _ => waitInit fuel servers (sleep100 (withNet n))
          end
      end
  end.

(** The loop [for !done.Load()] of [runTransferClient]: [iterations]
    is the number of times [done.Load()] returns false before it
    returns true. *)
Fixpoint transferRounds (iterations : nat) (clientId : Z)
    (servers : list Client) (transferCount opsCompleted : Z) (e : Env)
  : option (Z * Env) :=
  match iterations with
  | O => Some (opsCompleted, e)
  | S iterations =>
      let afterTransfer :=
        if (Z.rem transferCount 5 =? 0)%Z then
          match performTransfer clientId servers e with
          | None => None
          | Some (Some _, e) => Some (opsCompleted, e)
          | Some (None, e) => Some (Server.uint64_add opsCompleted 1, e)
          end
        else Some (opsCompleted, e) in
      match afterTransfer with
      | None => None
      | Some (opsCompleted, e) =>
          match checkTotalBalance servers e with
          | None => None
          | Some (err, e) =>
              let opsCompleted :=
                match err with
                | Some _ => opsCompleted
                | None => Server.uint64_add opsCompleted 1
                end in
              transferRounds iterations clientId servers
                (Retry.int64 (transferCount + 1)) opsCompleted (sleep100 e)
          end
      end
  end.

(** [runTransferClient]: the value it sends on [resultsCh]. *)
Definition runTransferClient (fuel iterations : nat) (clientId : Z)
    (servers : list Client) (e : Env) : option (Z * Env) :=
  let initialised :=
    if (clientId =? 0)%Z then
      match initAccounts servers e with
      | None => None
      | Some e => signalInit 10 servers e
      end
    else Some e in
  match initialised with
  | None => None
  | Some e =>
      match waitInit fuel servers e with
      | None => None
      | Some e => transferRounds iterations clientId servers 0 0 e
      end
  end.

End Run.

End Workload.

(** ** The benchmark client ([executeTxn], [runClient]) *)

Module Benchmark.
Import KVClient Workload.

(** A [kvs.WorkloadOp], as far as the client reads it. *)
Record WorkloadOp := mkWorkloadOp {
  OpKey : Z;
  IsRead : bool
}.

(** [strings.Repeat] *)
Fixpoint Repeat (s : string) (count : nat) : string :=
  match count with
  | O => ""
  | S count => s +:+ Repeat s count
  end.

Section Run.
Context {World : Type}.
Variable Call :
  Client → Server.Request → kvs.GetResponse.t → World →
  World * kvs.GetResponse.t * error.
Variable rangeOrder : gset Client → list Client.
Variable draws : nat → Z.

(** [next k] is what the [k]-th call of [workload.Next()] returns. *)
Variable next : nat → WorkloadOp.

(** The loop of [executeTxn] with [todo] iterations to go; [pos] counts
    the calls of [workload.Next()]. *)
Fixpoint executeLoop (todo : nat) (opsCompleted : Z) (txn : Txn) (pos : nat)
    (n : Net) : option (Txn * nat * Net * Z * error) :=
  match todo with
  | O => Some (txn, pos, n, opsCompleted, None)
  | S todo =>
      let value := Repeat "x" 128 in
      let op := next pos in
      let key := Itoa (OpKey op) in
      let result :=
        if IsRead op then
          match Get Call rangeOrder txn key n with
          | None => None
          | Some (txn, n, _, err) => Some (txn, n, err)
          end
        else Put Call rangeOrder txn key value n in
      match result with
      | None => None
      | Some (txn, n, Some e) => Some (txn, S pos, n, opsCompleted, Some e)
      | Some (txn, n, None) =>
          executeLoop todo (Server.uint64_add opsCompleted 1) txn (S pos) n
      end
  end.

Definition executeTxn (txn : Txn) (pos : nat) (n : Net)
  : option (Txn * nat * Net * Z * error) :=
  executeLoop 3 0 txn pos n.

(** The loop [for retry > 0] of [runClient]; the result is the value
    left in [opsCompleted]. *)
Fixpoint retryLoop (retry : nat) (servers : list Client) (opsCompleted : Z)
    (pos : nat) (e : Env) : option (Z * nat * Env) :=
  match retry with
  | O => Some (opsCompleted, pos, e)
  | S retry =>
      let '(txn, e) := beginTxn draws servers e in
      let withNet (n : Net) := {| net := n; drawn := drawn e; slept := slept e |} in
      match executeTxn txn pos (net e) with
      | None => None
      | Some (txn, pos, n, opsCompleted, Some err) =>
          retryLoop retry servers opsCompleted pos (withNet n)
      | Some (txn, pos, n, opsCompleted, None) =>
          let '(n, _) := Commit Call rangeOrder txn n in
          Some (opsCompleted, pos, withNet n)
      end
  end.

(** The loop [for !done.Load()]: [iterations] is the number of times
    [done.Load()] returns false before it returns true. *)
Fixpoint runLoop (iterations : nat) (servers : list Client) (opsCompleted : Z)
    (pos : nat) (e : Env) : option (Z * nat * Env) :=
  match iterations with
  | O => Some (opsCompleted, pos, e)
  | S iterations =>
      match retryLoop 3 servers opsCompleted pos e with
      | None => None
      | Some (opsCompleted, pos, e) => runLoop iterations servers opsCompleted pos e
      end
  end.

(** [runClient]: the value it sends on [resultsCh]. *)
Definition runClient (iterations : nat) (servers : list Client) (e : Env)
  : option (Z * nat * Env) :=
  runLoop iterations servers 0 0 e.

(** The store after the writes among [ops]. *)
Definition written (m : gmap string string) (ops : list WorkloadOp)
  : gmap string string :=
  foldl (λ m op, if IsRead op then m
                 else <[Itoa (OpKey op) := Repeat "x" 128]> m) m ops.

End Run.

End Benchmark.

(** ** The older server of [kvs/proto.go]: locks held by transaction
       records, no [Commit] and no [Abort] *)

Module LegacyServer.

Record GetRequest := mkGetRequest {
  GetKey : string;
  GetClientID : N;
  GetTxid : N
}.

Record GetResponse := mkGetResponse {
  Value : string;
  GetSuccess : bool
}.

Record PutRequest := mkPutRequest {
  PutKey : string;
  PutValue : string;
  PutClientID : N;
  PutTxid : N
}.

Record PutResponse := mkPutResponse {
  PutSuccess : bool
}.

Record Transaction := mkTransaction {
  ClientID : N;
  TxID : N;
  ReadSet : gset string;
  WriteSet : gmap string string
}.

(** The [*Transaction] pointers of a [KeyLock] point into
    [kv.transactions], whose entries are never replaced or deleted: a
    pointer is the id of its transaction. *)
Record KeyLock := mkKeyLock {
  Readers : gset N;
  Writer : option N
}.

Record KVService := mkKVService {
  mp : gmap string string;
  locks : gmap string KeyLock;
  transactions : gmap N Transaction;
  stats : Server.Stats
}.

Definition NewKVService : KVService :=
  {| mp := ∅; locks := ∅; transactions := ∅; stats := Server.mkStats 0 0 0 0 |}.

Definition set_locks (kv : KVService) (l : gmap string KeyLock) : KVService :=
  {| mp := mp kv; locks := l; transactions := transactions kv; stats := stats kv |}.

Definition set_transactions (kv : KVService) (t : gmap N Transaction)
  : KVService :=
  {| mp := mp kv; locks := locks kv; transactions := t; stats := stats kv |}.

Definition set_stats (kv : KVService) (st : Server.Stats) : KVService :=
  {| mp := mp kv; locks := locks kv; transactions := transactions kv; stats := st |}.

Definition getOrCreateTransaction (kv : KVService) (clientID txID : N)
  : KVService * Transaction :=
  match transactions kv !! txID with
  | Some tx => (kv, tx)
  | None =>
      let tx := {| ClientID := clientID; TxID := txID;
                   ReadSet := ∅; WriteSet := ∅ |} in
      (set_transactions kv (<[txID := tx]> (transactions kv)), tx)
  end.

(** The entry of [key] after the [else] branch has created it. *)
Definition entry (kv : KVService) (key : string) : KeyLock :=
  default {| Readers := ∅; Writer := None |} (locks kv !! key).

(** [keyLock.Writer != nil && keyLock.Writer.TxID != tx.TxID] *)
Definition writer_conflict (keyLock : KeyLock) (tx : Transaction) : bool :=
  match Writer keyLock with
  | Some w => negb (w =? TxID tx)%N
  | None => false
  end.

Definition tryAcquireReadLock (kv : KVService) (key : string) (tx : Transaction)
  : KVService * bool :=
  let refused :=
    match locks kv !! key with
    | Some keyLock => writer_conflict keyLock tx
    | None => false
    end in
  if refused then (kv, false)
  else
    let keyLock := entry kv key in
    (set_locks kv
       (<[key := {| Readers := {[TxID tx]} ∪ Readers keyLock;
                    Writer := Writer keyLock |}]> (locks kv)),
     true).

Definition tryAcquireWriteLock (kv : KVService) (key : string) (tx : Transaction)
  : KVService * bool :=
  let refused :=
    match locks kv !! key with
    | Some keyLock =>
        writer_conflict keyLock tx
        || bool_decide (∃ readerTxID, readerTxID ∈ Readers keyLock ∧
                                      readerTxID ≠ TxID tx)
    | None => false
    end in
  if refused then (kv, false)
  else
    let keyLock := entry kv key in
    (set_locks kv
       (<[key := {| Readers := Readers keyLock; Writer := Some (TxID tx) |}]>
          (locks kv)),
     true).

Definition add_gets (kv : KVService) : KVService :=
  set_stats kv
    (Server.mkStats (Server.puts (stats kv))
       (Server.uint64_add (Server.gets (stats kv)) 1)
       (Server.commits (stats kv)) (Server.aborts (stats kv))).

Definition add_puts (kv : KVService) : KVService :=
  set_stats kv
    (Server.mkStats (Server.uint64_add (Server.puts (stats kv)) 1)
       (Server.gets (stats kv))
       (Server.commits (stats kv)) (Server.aborts (stats kv))).

(** [Get]; the error returned is always [nil]. The record [tx] points
    to is the entry of [request.Txid]: writing through the pointer
    updates that entry. *)
Definition Get (kv : KVService) (request : GetRequest) (response : GetResponse)
  : KVService * GetResponse :=
  let kv := add_gets kv in
  let '(kv, tx) :=
    getOrCreateTransaction kv (GetClientID request) (GetTxid request) in
  let '(kv, ok) := tryAcquireReadLock kv (GetKey request) tx in
  if negb ok then (kv, {| Value := Value response; GetSuccess := false |})
  else
    let tx := {| ClientID := ClientID tx; TxID := TxID tx;
                 ReadSet := {[GetKey request]} ∪ ReadSet tx;
                 WriteSet := WriteSet tx |} in
    let kv :=
      set_transactions kv (<[GetTxid request := tx]> (transactions kv)) in
    let value :=
      match WriteSet tx !! GetKey request with
      | Some value => value
      | None =>
          match mp kv !! GetKey request with
          | Some value => value
          | None => Value response
          end
      end in
    (kv, {| Value := value; GetSuccess := true |}).

(** [Put]; the error returned is always [nil]. *)
Definition Put (kv : KVService) (request : PutRequest) : KVService * PutResponse :=
  let kv := add_puts kv in
  let '(kv, tx) :=
    getOrCreateTransaction kv (PutClientID request) (PutTxid request) in
  let '(kv, ok) := tryAcquireWriteLock kv (PutKey request) tx in
  if negb ok then (kv, {| PutSuccess := false |})
  else
    let tx := {| ClientID := ClientID tx; TxID := TxID tx;
                 ReadSet := ReadSet tx;
                 WriteSet := <[PutKey request := PutValue request]> (WriteSet tx) |} in
    let kv :=
      set_transactions kv (<[PutTxid request := tx]> (transactions kv)) in
    (kv, {| PutSuccess := true |}).

(** The server as a state machine over its two RPCs. *)
Inductive Request :=
| ReqGet (request : GetRequest)
| ReqPut (request : PutRequest).

Definition step (kv : KVService) (r : Request) : KVService :=
  match r with
  | ReqGet request => (Get kv request {| Value := ""; GetSuccess := false |}).1
  | ReqPut request => (Put kv request).1
  end.

Definition run (kv : KVService) (rs : list Request) : KVService :=
  foldl step kv rs.

(** The transaction records carry their own id. *)
Definition ids_ok (kv : KVService) : Prop :=
  ∀ t tx, transactions kv !! t = Some tx → TxID tx = t.

(** A writer of a key is its only reader, if it has any. *)
Definition exclusion (kv : KVService) : Prop :=
  ∀ key keyLock w,
    locks kv !! key = Some keyLock → Writer keyLock = Some w →
    Readers keyLock ⊆ {[w]}.

(** [r] is a [Put] of [key] by transaction [t]. *)
Definition writes (key : string) (t : N) (r : Request) : Prop :=
  match r with
  | ReqPut request => PutKey request = key ∧ PutTxid request = t
  | ReqGet _ => False
  end.

(** The writes transaction [t] has buffered. *)
Definition writeSetOf (kv : KVService) (t : N) : gmap string string :=
  default ∅ (WriteSet <$> transactions kv !! t).

(** Transaction 1 writes key k, transaction 2 reads another key. *)
Definition rs_put_k : list Request :=
  [ReqPut (mkPutRequest "k" "a" 10 1); ReqGet (mkGetRequest "j" 20 2)].

End LegacyServer.

(** ** The older client of [unnamed/part_001]: one server, the
       transaction kept in the [Client] *)

Module LegacyClient.

Record CommitRequest := mkCommitRequest {
  CommitClientID : N;
  CommitTxid : N
}.

Record AbortRequest := mkAbortRequest {
  AbortClientID : N;
  AbortTxid : N
}.

(** The four calls of the client. *)
Inductive Rpc :=
| RpcGet (request : LegacyServer.GetRequest)
| RpcPut (request : LegacyServer.PutRequest)
| RpcCommit (request : CommitRequest)
| RpcAbort (request : AbortRequest).

(** What a call leaves in the response: [Value] is read after a [Get]
    only, [Success] after all but an [Abort]. *)
Record Reply := mkReply {
  ReplyValue : string;
  Success : bool
}.

(** A [*rpc.Client] is used as an identity and as the receiver of a
    call: it is its address. *)
Record Client := mkClient {
  rpcClient : nat;
  clientID : N;
  currentTxid : N;
  writeSet : gmap string string;
  participants : list nat
}.

(** The client [Dial] returns; [id] is what [rand.Uint64()] draws. *)
Definition Dial (handle : nat) (id : N) : Client :=
  {| rpcClient := handle; clientID := id; currentTxid := 0;
     writeSet := ∅; participants := [] |}.

(** The reset at the end of [Abort] and [Commit]. *)
Definition reset (client : Client) : Client :=
  {| rpcClient := rpcClient client; clientID := clientID client;
     currentTxid := 0; writeSet := ∅; participants := [] |}.

(** [Begin]; [None] is [log.Fatal]; [draw] is what [rand.Uint64()]
    draws. *)
Definition Begin (client : Client) (draw : N) : option Client :=
  if negb (currentTxid client =? 0)%N then None
  else
    Some {| rpcClient := rpcClient client; clientID := clientID client;
            currentTxid := if (draw =? 0)%N then 1%N else draw;
            writeSet := ∅; participants := [] |}.

Definition addParticipant (client : Client) (handle : nat) : Client :=
  if bool_decide (handle ∈ participants client) then client
  else
    {| rpcClient := rpcClient client; clientID := clientID client;
       currentTxid := currentTxid client; writeSet := writeSet client;
       participants := participants client ++ [handle] |}.

Definition set_writeSet (client : Client) (ws : gmap string string) : Client :=
  {| rpcClient := rpcClient client; clientID := clientID client;
     currentTxid := currentTxid client; writeSet := ws;
     participants := participants client |}.

Section Session.
Context {World : Type}.

(** The transport: the state beyond the client, the reply and the
    error of [Call]. *)
Variable Call : nat → Rpc → World → World * Reply * error.

(** The loop of [Abort]: a failed call is logged and skipped. *)
Fixpoint abortLoop (handles : list nat) (request : AbortRequest) (w : World)
  : World :=
  match handles with
  | [] => w
  | participant :: rest =>
      let '(w, _, _) := Call participant (RpcAbort request) w in
      abortLoop rest request w
  end.

(** [Abort]; [None] is [log.Fatal]. *)
Definition Abort (client : Client) (w : World) : option (Client * World) :=
  if (currentTxid client =? 0)%N then None
  else
    let request := {| AbortClientID := clientID client;
                      AbortTxid := currentTxid client |} in
    Some (reset client, abortLoop (participants client) request w).

(** The loop of [Commit]: [false] when a call fails or is refused,
    after the [Abort] the client then runs. *)
Fixpoint commitLoop (handles : list nat) (client : Client) (w : World)
  : option (Client * World * bool) :=
  match handles with
  | [] => Some (reset client, w, true)
  | participant :: rest =>
      let request := {| CommitClientID := clientID client;
                        CommitTxid := currentTxid client |} in
      let '(w, response, err) := Call participant (RpcCommit request) w in
      match err with
      | Some _ =>
          match Abort client w with
          | None => None
          | Some (client, w) => Some (client, w, false)
          end
      | None =>
          if negb (Success response) then
            match Abort client w with
            | None => None
            | Some (client, w) => Some (client, w, false)
            end
          else commitLoop rest client w
      end
  end.

Definition Commit (client : Client) (w : World)
  : option (Client * World * bool) :=
  if (currentTxid client =? 0)%N then None
  else commitLoop (participants client) client w.

Definition Get (client : Client) (key : string) (w : World)
  : option (Client * World * string * bool) :=
  if (currentTxid client =? 0)%N then None
  else
    match writeSet client !! key with
    | Some value => Some (client, w, value, true)
    | None =>
        let request :=
          {| LegacyServer.GetKey := key;
             LegacyServer.GetClientID := clientID client;
             LegacyServer.GetTxid := currentTxid client |} in
        let '(w, response, err) := Call (rpcClient client) (RpcGet request) w in
        match err with
        | Some _ => None
        | None =>
            if negb (Success response) then
              match Abort client w with
              | None => None
              | Some (client, w) => Some (client, w, "", false)
              end
            else
              Some (addParticipant client (rpcClient client), w,
                    ReplyValue response, true)
        end
    end.

Definition Put (client : Client) (key value : string) (w : World)
  : option (Client * World * bool) :=
  if (currentTxid client =? 0)%N then None
  else
    let client := set_writeSet client (<[key := value]> (writeSet client)) in
    let request :=
      {| LegacyServer.PutKey := key; LegacyServer.PutValue := value;
         LegacyServer.PutClientID := clientID client;
         LegacyServer.PutTxid := currentTxid client |} in
    let '(w, response, err) := Call (rpcClient client) (RpcPut request) w in
    match err with
    | Some _ => None
    | None =>
        if negb (Success response) then
          match Abort client w with
          | None => None
          | Some (client, w) => Some (client, w, false)
          end
        else Some (addParticipant client (rpcClient client), w, true)
    end.

(** [next k] is what the [k]-th call of [workload.Next()] returns. *)
Variable next : nat → Benchmark.WorkloadOp.

(** The batch loop of [runClient], [todo] operations to go. *)
Fixpoint batch (todo : nat) (client : Client) (pos : nat) (opsCompleted : Z)
    (w : World) : option (Client * nat * Z * World) :=
  match todo with
  | O => Some (client, pos, opsCompleted, w)
  | S todo =>
      let op := next pos in
      let key := Workload.Itoa (Benchmark.OpKey op) in
      let result :=
        if Benchmark.IsRead op then
          match Get client key w with
          | None => None
          | Some (client, w, _, _) => Some (client, w)
          end
        else
          match Put client key (Benchmark.Repeat "x" 128) w with
          | None => None
          | Some (client, w, _) => Some (client, w)
          end in
      match result with
      | None => None
      | Some (client, w) =>
          batch todo client (S pos) (Server.uint64_add opsCompleted 1) w
      end
  end.

(** The loop [for !done.Load()] of [runClient]: [iterations] is the
    number of times [done.Load()] returns false before it returns
    true. *)
Fixpoint batches (iterations : nat) (client : Client) (pos : nat)
    (opsCompleted : Z) (w : World) : option (Z * World) :=
  match iterations with
  | O => Some (opsCompleted, w)
  | S iterations =>
      match batch 1024 client pos opsCompleted w with
      | None => None
      | Some (client, pos, opsCompleted, w) =>
          batches iterations client pos opsCompleted w
      end
  end.

(** [runClient]: the count it sends on [resultsCh]; [None] is
    [log.Fatal]. *)
Definition runClient (iterations : nat) (handle : nat) (id : N) (w : World)
  : option (Z * World) :=
  batches iterations (Dial handle id) 0 0 w.

End Session.

(** No transaction is active and nothing is left of the last one. *)
Definition idle (client : Client) : Prop :=
  currentTxid client = 0%N ∧ writeSet client = ∅ ∧ participants client = [].

(** A transport that refuses every call. *)
Definition refuseCall (handle : nat) (r : Rpc) (w : unit) : unit * Reply * error :=
  (w, {| ReplyValue := ""; Success := false |}, None).

End LegacyClient.

(** ** One client alone on one server *)

Module Serial.
Import Server KVClient.

(** No transaction is in progress on the server. *)
Definition Quiet (kv : KVService) : Prop :=
  transactions kv = ∅ ∧ ∀ k t, ¬ holds kv k t.

(** Only [txid] is in progress on the server. *)
Definition Owned (kv : KVService) (txid : N) : Prop :=
  locks_logged kv ∧
  (∀ k t, holds kv k t → t = txid) ∧
  (∀ t, t ≠ txid → transactions kv !! t = None).

(** The store as a [Commit] of [txid] would leave it. *)
Definition pending (kv : KVService) (txid : N) : gmap string string :=
  foldl applyOp (mp kv) (default [] (transactions kv !! txid)).

(** A transaction of the client on the single server [c], whose state
    in the world [w] is [kv]. *)
Definition Session (c : Client) (txn : Txn) (w : gmap Client KVService)
    (txid : N) (kv : KVService) : Prop :=
  id txn = Some txid ∧
  allServers txn = [c] ∧
  usedServers txn ⊆ {[c]} ∧
  w !! c = Some kv ∧
  Owned kv txid ∧
  (∀ k v, writeSet txn !! k = Some v → pending kv txid !! k = Some v) ∧
  (usedServers txn = ∅ → Quiet kv).

(** The balance the workload reads for an account from the store [m]:
    an absent or empty value counts as 0; [None] is a value that does
    not parse. *)
Definition balanceOf (m : gmap string string) (account : Z) : option Z :=
  match m !! Workload.accountKey account with
  | None => Some 0%Z
  | Some s => if String.eqb s "" then Some 0%Z else Workload.Atoi s
  end.

(** The store after a transfer of 100 from [src] (balance [bs]) to
    [dst] (balance [bd]). *)
Definition transferred (m : gmap string string) (src dst bs bd : Z)
  : gmap string string :=
  <[Workload.accountKey dst := Workload.Itoa (Retry.int64 (bd + 100))]>
    (<[Workload.accountKey src := Workload.Itoa (bs - 100)]> m).

(** The ten accounts hold the balances [bs], none negative, 10000 in
    all. *)
Definition Bank (m : gmap string string) (bs : list Z) : Prop :=
  length bs = 10 ∧
  Forall (λ b, 0 ≤ b)%Z bs ∧
  foldr Z.add 0%Z bs = 10000%Z ∧
  ∀ i b, bs !! i = Some b →
         m !! Workload.accountKey (Z.of_nat i) = Some (Workload.Itoa b).

(** The store once the accounts [i], [i + 1], ... ([count] of them)
    have been set to 1000. *)
Fixpoint initialised (count : nat) (i : Z) (m : gmap string string)
  : gmap string string :=
  match count with
  | O => m
  | S count => initialised count (i + 1) (<[Workload.accountKey i := "1000"]> m)
  end.

(** A server as [NewKVService] makes it, with the store [m]. *)
Definition server_with (m : gmap string string) : KVService :=
  set_mp NewKVService m.

(** A server whose store holds the bank as [initAccounts] opens it. *)
Definition bank_server : KVService := server_with (initialised 10 0 ∅).

(** A server on which transaction 1 has written account 0. *)
Definition locked_server : KVService :=
  run NewKVService [ReqPut (kvs.PutRequest.mk "account_0" "5" 1)].

(** A client that has one server (handle 0), has drawn nothing and has
    not slept. *)
Definition env_of (kv : KVService) : @Workload.Env (gmap Client KVService) :=
  Workload.mkEnv {| world := {[ 0 := kv ]}; sent := [] |} 0 [].

(** A generator that always draws 7. *)
Definition draws7 (k : nat) : Z := 7.

End Serial.

(** Name the read-holder sets before calling [set_solver], which
    otherwise takes the record apart. *)
Ltac name_readers :=
  repeat match goal with
         | |- context [Server.readHolders ?l] =>
             let s := fresh "readers" in
             set (s := Server.readHolders l) in *; clearbody s
         | H : context [Server.readHolders ?l] |- _ =>
             let s := fresh "readers" in
             set (s := Server.readHolders l) in *; clearbody s
         end.

(** * Properties of the server *)

Module ServerFacts.
Import Server.

Lemma lock_inv_locks_ok kv : lock_inv kv ↔ locks_ok kv.
Proof.
  split.
  - intros Hinv key lockInfo Hl Hw.
    destruct (writeHolder lockInfo) as [w|] eqn:Ew; [|done].
    destruct (Hinv key w) as (_ & Hr & Hn); [by exists lockInfo|].
    apply set_eq. intros r. split; [|set_solver].
    intros Hin. exfalso. apply Hn.
    exists lockInfo. split; [done|].
    rewrite <- (Hr r); [done|]. by exists lockInfo.
  - intros Hok key w (lockInfo & Hl & Hw).
    assert (readHolders lockInfo = ∅) as He.
    { apply (Hok _ _ Hl). by rewrite Hw. }
    split; [|split].
    + intros w' (lockInfo' & Hl' & Hw'). congruence.
    + intros r (lockInfo' & Hl' & Hr'). set_solver.
    + intros (lockInfo' & Hl' & Hr'). set_solver.
Qed.

Lemma NewLockInfo_ok : LockInfo_ok NewLockInfo.
Proof. by intros _. Qed.

Lemma LoadOrStore_ok l key :
  (∀ k li, l !! k = Some li → LockInfo_ok li) →
  (∀ k li, (LoadOrStore l key NewLockInfo).1 !! k = Some li → LockInfo_ok li) ∧
  LockInfo_ok (LoadOrStore l key NewLockInfo).2.
Proof.
  intros Hok. unfold LoadOrStore.
  destruct (l !! key) as [li0|] eqn:E; simpl.
  - split; [done|]. by eapply Hok.
  - split; [|apply NewLockInfo_ok].
    intros k li. rewrite lookup_insert. case_decide; [|by apply Hok].
    intros [= <-]. apply NewLockInfo_ok.
Qed.

Lemma writer_is_true lockInfo txid :
  writer_is lockInfo txid = true ↔ writeHolder lockInfo = Some txid.
Proof.
  unfold writer_is. destruct (writeHolder lockInfo) as [w|]; [|done].
  rewrite N.eqb_eq. split; congruence.
Qed.

Lemma writer_is_other_true lockInfo txid :
  writer_is_other lockInfo txid = true ↔
  ∃ w, writeHolder lockInfo = Some w ∧ w ≠ txid.
Proof.
  unfold writer_is_other. destruct (writeHolder lockInfo) as [w|].
  - rewrite negb_true_iff, N.eqb_neq. split; [by exists w|].
    by intros (w' & [= <-] & ?).
  - split; [done|]. by intros (? & ? & ?).
Qed.

Lemma acquireReadLock_locks_ok kv key txid :
  locks_ok kv → locks_ok (acquireReadLock kv key txid).1.
Proof.
  intros Hok. unfold acquireReadLock.
  destruct (LoadOrStore_ok (locks kv) key Hok) as [Hl Hli].
  destruct (LoadOrStore (locks kv) key NewLockInfo) as [l lockInfo]; simpl in *.
  destruct (writer_is_other lockInfo txid) eqn:Eo; [exact Hl|].
  destruct (writer_is lockInfo txid) eqn:Ew; [exact Hl|].
  intros k li. simpl. rewrite lookup_insert. case_decide; [|by apply Hl].
  intros [= <-] Hw. simpl in *. exfalso.
  destruct (writeHolder lockInfo) as [w|] eqn:E; [|done].
  unfold writer_is, writer_is_other in *. rewrite E in *.
  by destruct (w =? txid)%N.
Qed.

Lemma acquireWriteLock_locks_ok kv key txid :
  locks_ok kv → locks_ok (acquireWriteLock kv key txid).1.
Proof.
  intros Hok. unfold acquireWriteLock.
  destruct (LoadOrStore_ok (locks kv) key Hok) as [Hl Hli].
  destruct (LoadOrStore (locks kv) key NewLockInfo) as [l lockInfo]; simpl in *.
  destruct (writer_is lockInfo txid) eqn:Ew; [exact Hl|].
  case_bool_decide as Hw; [exact Hl|].
  case_bool_decide as Hs; [exact Hl|].
  destruct (bool_decide (size (readHolders lockInfo) = 1)
            && negb (bool_decide (txid ∈ readHolders lockInfo))) eqn:E1; [exact Hl|].
  intros k li. simpl. rewrite lookup_insert.
  destruct (decide (key = k)) as [_|_]; [|by apply Hl].
  intros [= <-] _. simpl.
  apply andb_false_iff in E1.
  assert (size (readHolders lockInfo) = 0 ∨ size (readHolders lockInfo) = 1) as [H0|H1]
    by lia.
  - apply size_empty_inv in H0. clear -H0. name_readers. set_solver.
  - destruct E1 as [E1|E1].
    + by apply bool_decide_eq_false in E1.
    + apply negb_false_iff, bool_decide_eq_true in E1.
      apply size_1_elem_of in H1 as [x Hx]. clear -E1 Hx. name_readers. set_solver.
Qed.

Lemma releaseKey_ok txid l op :
  (∀ k li, l !! k = Some li → LockInfo_ok li) →
  (∀ k li, releaseKey txid l op !! k = Some li → LockInfo_ok li).
Proof.
  intros Hok k li. unfold releaseKey.
  destruct (l !! Key op) as [lockInfo|] eqn:E; [|by apply Hok].
  rewrite lookup_insert. case_decide; [|by apply Hok].
  intros [= <-] Hw. simpl in *.
  destruct (writer_is lockInfo txid); [done|].
  rewrite (Hok _ _ E Hw). set_solver.
Qed.

Lemma releaseKeys_ok txid ops l :
  (∀ k li, l !! k = Some li → LockInfo_ok li) →
  (∀ k li, foldl (releaseKey txid) l ops !! k = Some li → LockInfo_ok li).
Proof.
  revert l. induction ops as [|op ops IH]; intros l Hok; [done|].
  simpl. apply IH. by apply releaseKey_ok.
Qed.

Lemma releaseLocks_locks_ok kv txid :
  locks_ok kv → locks_ok (releaseLocks kv txid).
Proof.
  intros Hok. unfold releaseLocks, locks_ok. simpl.
  destruct (transactions kv !! txid); [|done].
  by apply releaseKeys_ok.
Qed.

(** The handlers only touch the locks through the lock manager. *)
Lemma ensureTransaction_locks kv txid :
  locks (ensureTransaction kv txid) = locks kv.
Proof. unfold ensureTransaction. by destruct (transactions kv !! txid). Qed.

Lemma ensureTransaction_mp kv txid : mp (ensureTransaction kv txid) = mp kv.
Proof. unfold ensureTransaction. by destruct (transactions kv !! txid). Qed.

Lemma ensureTransaction_lookup kv txid :
  transactions (ensureTransaction kv txid) !! txid
  = Some (default [] (transactions kv !! txid)).
Proof.
  unfold ensureTransaction. destruct (transactions kv !! txid) eqn:E; simpl.
  - done.
  - by rewrite lookup_insert_eq.
Qed.

Lemma ensureTransaction_lookup_ne kv txid t :
  t ≠ txid →
  transactions (ensureTransaction kv txid) !! t = transactions kv !! t.
Proof.
  intros Hne. unfold ensureTransaction.
  destruct (transactions kv !! txid) eqn:E; simpl; [done|].
  by rewrite lookup_insert_ne.
Qed.

Lemma acquireReadLock_frame kv key txid :
  let kv' := (acquireReadLock kv key txid).1 in
  mp kv' = mp kv ∧ transactions kv' = transactions kv ∧ stats kv' = stats kv.
Proof.
  unfold acquireReadLock.
  destruct (LoadOrStore (locks kv) key NewLockInfo) as [l lockInfo].
  destruct (writer_is_other _ _); [done|]. by destruct (writer_is _ _).
Qed.

Lemma acquireWriteLock_frame kv key txid :
  let kv' := (acquireWriteLock kv key txid).1 in
  mp kv' = mp kv ∧ transactions kv' = transactions kv ∧ stats kv' = stats kv.
Proof.
  unfold acquireWriteLock.
  destruct (LoadOrStore (locks kv) key NewLockInfo) as [l lockInfo].
  destruct (writer_is _ _); [done|].
  do 2 (case_bool_decide; [done|]). by destruct (_ && _).
Qed.

Lemma Get_locks_ok kv request response :
  locks_ok kv → locks_ok (Get kv request response).1.1.
Proof.
  intros Hok. unfold Get.
  pose proof (acquireReadLock_locks_ok (ensureTransaction kv (kvs.GetRequest.Txid request))
                (kvs.GetRequest.Key request) (kvs.GetRequest.Txid request)) as Ha.
  destruct (acquireReadLock _ _ _) as [kv1 [e|]]; simpl in *.
  - apply releaseLocks_locks_ok, Ha. unfold locks_ok.
    by rewrite ensureTransaction_locks.
  - unfold locks_ok in *. simpl. rewrite ensureTransaction_locks in Ha. exact (Ha Hok).
Qed.

Lemma Put_locks_ok kv request :
  locks_ok kv → locks_ok (Put kv request).1.
Proof.
  intros Hok. unfold Put.
  pose proof (acquireWriteLock_locks_ok (ensureTransaction kv (kvs.PutRequest.Txid request))
                (kvs.PutRequest.Key request) (kvs.PutRequest.Txid request)) as Ha.
  destruct (acquireWriteLock _ _ _) as [kv1 [e|]]; simpl in *.
  - apply releaseLocks_locks_ok, Ha. unfold locks_ok.
    by rewrite ensureTransaction_locks.
  - apply Ha. unfold locks_ok. by rewrite ensureTransaction_locks.
Qed.

Lemma Commit_locks_ok kv request :
  locks_ok kv → locks_ok (Commit kv request).1.
Proof.
  intros Hok. unfold Commit. simpl. apply releaseLocks_locks_ok.
  destruct (transactions kv !! _); [|done].
  by destruct (kvs.CommitRequest.Lead request).
Qed.

Lemma Abort_locks_ok kv request :
  locks_ok kv → locks_ok (Abort kv request).1.
Proof. intros Hok. unfold Abort. simpl. by apply releaseLocks_locks_ok. Qed.

Lemma step_Get kv request :
  step kv (ReqGet request) = (Get kv request (kvs.GetResponse.mk "")).1.1.
Proof.
  unfold step, serve. by destruct (Get kv request _) as [[kv1 response] err].
Qed.

Lemma step_Put kv request : step kv (ReqPut request) = (Put kv request).1.
Proof. done. Qed.

Lemma step_Commit kv request :
  step kv (ReqCommit request) = (Commit kv request).1.
Proof. done. Qed.

Lemma step_Abort kv request :
  step kv (ReqAbort request) = (Abort kv request).1.
Proof. done. Qed.

Lemma serve_Get_err kv request :
  (serve kv (ReqGet request)).2 = (Get kv request (kvs.GetResponse.mk "")).2.
Proof.
  unfold serve. by destruct (Get kv request _) as [[kv1 response] err].
Qed.

Lemma step_locks_ok kv r : locks_ok kv → locks_ok (step kv r).
Proof.
  intros Hok. destruct r; [rewrite step_Get|..]; simpl.
  - by apply Get_locks_ok.
  - by apply Put_locks_ok.
  - by apply Commit_locks_ok.
  - by apply (Abort_locks_ok kv request).
Qed.

Lemma run_locks_ok rs kv : locks_ok kv → locks_ok (run kv rs).
Proof.
  revert kv. induction rs as [|r rs IH]; intros kv Hok; [done|].
  simpl. apply IH. by apply step_locks_ok.
Qed.

(** The invariant holds in every state the server can reach. *)
Lemma lock_inv_reachable rs : lock_inv (run NewKVService rs).
Proof.
  apply lock_inv_locks_ok, run_locks_ok.
  intros key lockInfo Hl. simpl in Hl. by rewrite lookup_empty in Hl.
Qed.

(** C1. Each of the three lock-manager operations keeps the per-key lock
    invariant: on every key there is at most one write holder, and while
    [w] holds the write lock no transaction other than [w] is among the
    read holders and [w] itself is not among them either. *)
Theorem lock_manager_preserves_lock_inv kv key txid :
  lock_inv kv →
  lock_inv (acquireReadLock kv key txid).1 ∧
  lock_inv (acquireWriteLock kv key txid).1 ∧
  lock_inv (releaseLocks kv txid).
Proof.
  rewrite !lock_inv_locks_ok. intros Hok.
  auto using acquireReadLock_locks_ok, acquireWriteLock_locks_ok,
    releaseLocks_locks_ok.
Qed.

Lemma lock_manager_preserves_lock_inv_witness :
  lock_inv kv_after_put ∧
  holdsWrite kv_after_put "k" 1 ∧
  lock_inv (acquireReadLock kv_after_put "k" 2).1 ∧
  lock_inv (acquireWriteLock kv_after_put "k" 2).1 ∧
  lock_inv (releaseLocks kv_after_put 2).
Proof.
  split; [apply lock_inv_reachable|].
  split; [eexists; split; [vm_compute; reflexivity|reflexivity]|].
  apply (lock_manager_preserves_lock_inv kv_after_put "k" 2), lock_inv_reachable.
Defined.

Lemma set_locks_same kv : set_locks kv (locks kv) = kv.
Proof. by destruct kv. Qed.

Lemma acquireWriteLock_outcome kv key txid :
  WriteLockOutcome kv key txid (acquireWriteLock kv key txid).
Proof.
  unfold acquireWriteLock, LoadOrStore, lockOf.
  destruct (locks kv !! key) as [lockInfo|] eqn:El; simpl.
  - destruct (writer_is lockInfo txid) eqn:Ew.
    { rewrite set_locks_same. apply wl_held. unfold lockOf. rewrite El.
      by apply writer_is_true. }
    case_bool_decide as Hw.
    { rewrite set_locks_same. apply wl_conflict; [|done].
      left. unfold lockOf. rewrite El. simpl.
      destruct (writeHolder lockInfo) as [w|] eqn:E; [|done].
      exists w. split; [done|]. intros ->.
      apply not_true_iff_false in Ew. apply Ew. by apply writer_is_true. }
    assert (writeHolder lockInfo = None) as Hn.
    { destruct (writeHolder lockInfo); [|done]. by destruct Hw. }
    case_bool_decide as Hs.
    { rewrite set_locks_same. apply wl_conflict; [|done].
      right. unfold lockOf. rewrite El. auto. }
    destruct (bool_decide (size (readHolders lockInfo) = 1)
              && negb (bool_decide (txid ∈ readHolders lockInfo))) eqn:E1.
    { rewrite set_locks_same. apply wl_conflict; [|done].
      right. unfold lockOf. rewrite El. simpl. split; [done|]. right.
      apply andb_true_iff in E1 as [E1 E2].
      apply bool_decide_eq_true in E1.
      apply negb_true_iff, bool_decide_eq_false in E2.
      apply size_1_elem_of in E1 as [r Hr]. apply leibniz_equiv in Hr.
      exists r. split; [done|]. intros ->. apply E2. rewrite Hr. set_solver. }
    pose proof (wl_upgrade kv key txid) as Hu. unfold lockOf in Hu.
    rewrite El in Hu. simpl in Hu. apply Hu; [done|].
    apply andb_false_iff in E1.
    assert (size (readHolders lockInfo) = 0 ∨ size (readHolders lockInfo) = 1)
      as [H0|H1] by lia.
    + apply size_empty_inv in H0. clear -H0. name_readers. set_solver.
    + destruct E1 as [E1|E1].
      * by apply bool_decide_eq_false in E1.
      * apply negb_false_iff, bool_decide_eq_true in E1.
        apply size_1_elem_of in H1 as [x Hx]. clear -E1 Hx.
        name_readers. set_solver.
  - rewrite insert_insert_eq.
    pose proof (wl_upgrade kv key txid) as Hu. unfold lockOf in Hu.
    rewrite El in Hu. simpl in Hu. apply Hu; [done|]. set_solver.
Qed.

(** C2. [acquireWriteLock] succeeds exactly when [txid] already holds the
    write lock, or nobody holds it and the read holders are a subset of
    [{txid}]. In the second case the writer becomes [txid] and [txid]
    leaves the read holders, nothing else changing. In every other case
    (another writer, several readers, one reader that is not [txid]) the
    result is a conflict error and the whole state is unchanged. *)
Theorem acquireWriteLock_spec kv key txid :
  let lockInfo := lockOf kv key in
  let kv' := (acquireWriteLock kv key txid).1 in
  let err := (acquireWriteLock kv key txid).2 in
  (err = None ↔
     writeHolder lockInfo = Some txid ∨
     (writeHolder lockInfo = None ∧ readHolders lockInfo ⊆ {[txid]})) ∧
  (writeHolder lockInfo = Some txid → kv' = kv) ∧
  (writeHolder lockInfo = None ∧ readHolders lockInfo ⊆ {[txid]} →
     locks kv' !! key =
       Some {| readHolders := readHolders lockInfo ∖ {[txid]};
               writeHolder := Some txid |} ∧
     holdsWrite kv' key txid ∧ ¬ holdsRead kv' key txid ∧
     (∀ k, k ≠ key → locks kv' !! k = locks kv !! k) ∧
     mp kv' = mp kv ∧ transactions kv' = transactions kv ∧
     stats kv' = stats kv) ∧
  (err ≠ None →
     kv' = kv ∧
     ((∃ w, writeHolder lockInfo = Some w ∧ w ≠ txid) ∨
      1 < size (readHolders lockInfo) ∨
      (∃ r, readHolders lockInfo = {[r]} ∧ r ≠ txid)) ∧
     ∃ e, err = Some e ∧ strings.Contains e "Cannot acquire" = true).
Proof.
  intros lockInfo kv' err. subst kv' err lockInfo.
  destruct (acquireWriteLock_outcome kv key txid) as [Hh|Hn Hr|e Hc He]; simpl.
  - split; [split; auto|]. split; [done|]. split; [|done].
    intros [Hn _]. congruence.
  - split; [split; auto|]. split; [congruence|]. split; [|done].
    intros _. unfold holdsWrite, holdsRead. simpl.
    rewrite lookup_insert_eq. split; [done|].
    split; [by eexists|].
    split.
    { intros (li & Hl & Hin).
      injection Hl as <-. simpl in Hin. clear -Hin. name_readers. set_solver. }
    split; [|done]. intros k Hk. by rewrite lookup_insert_ne.
  - split.
    { split; [done|]. intros [Hw|[Hw Hsub]]; exfalso.
      - destruct Hc as [(w & Hw' & Hne)|[Hw' _]]; congruence.
      - destruct Hc as [(w & Hw' & Hne)|[_ [Hs|(r & Hr & Hne)]]]; [congruence| |].
        + apply subseteq_size in Hsub. rewrite size_singleton in Hsub. lia.
        + rewrite Hr in Hsub. clear -Hsub Hne. set_solver. }
    split.
    { intros Hw. destruct Hc as [(w & Hw' & Hne)|[Hw' _]]; congruence. }
    split.
    { intros [Hw Hsub]. exfalso.
      destruct Hc as [(w & Hw' & Hne)|[_ [Hs|(r & Hr & Hne)]]]; [congruence| |].
      - apply subseteq_size in Hsub. rewrite size_singleton in Hsub. lia.
      - rewrite Hr in Hsub. clear -Hsub Hne. set_solver. }
    intros _. split; [done|]. split; [|by exists e].
    destruct Hc as [?|[_ [?|?]]]; auto.
Qed.

Lemma acquireReadLock_outcome kv key txid :
  ReadLockOutcome kv key txid (acquireReadLock kv key txid).
Proof.
  unfold acquireReadLock, LoadOrStore.
  destruct (locks kv !! key) as [lockInfo|] eqn:El; simpl.
  - destruct (writer_is_other lockInfo txid) eqn:Eo.
    { rewrite set_locks_same. apply rl_conflict; [|done].
      unfold lockOf. rewrite El. by apply writer_is_other_true. }
    destruct (writer_is lockInfo txid) eqn:Ew.
    { rewrite set_locks_same. apply rl_held. unfold lockOf. rewrite El.
      by apply writer_is_true. }
    assert (writeHolder lockInfo = None) as Hn.
    { unfold writer_is, writer_is_other in *.
      destruct (writeHolder lockInfo) as [w|]; [|done].
      by destruct (w =? txid)%N. }
    pose proof (rl_shared kv key txid) as Hs. unfold lockOf in Hs.
    rewrite El in Hs. simpl in Hs. rewrite Hn. by apply Hs.
  - rewrite insert_insert_eq.
    pose proof (rl_shared kv key txid) as Hs. unfold lockOf in Hs.
    rewrite El in Hs. simpl in Hs. by apply Hs.
Qed.

Lemma holds_lockOf kv key t :
  holds kv key t ↔
  t ∈ readHolders (lockOf kv key) ∨ writeHolder (lockOf kv key) = Some t.
Proof.
  unfold holds, holdsRead, holdsWrite, lockOf.
  destruct (locks kv !! key) as [lockInfo|]; simpl.
  - split.
    + intros [(li & [= <-] & ?)|(li & [= <-] & ?)]; auto.
    + intros [?|?]; [left|right]; by exists lockInfo.
  - split.
    + by intros [(li & ? & _)|(li & ? & _)].
    + intros [?|?]; [set_solver|done].
Qed.

Lemma lockOf_insert kv key lockInfo k :
  lockOf (set_locks kv (<[key := lockInfo]> (locks kv))) k
  = if decide (key = k) then lockInfo else lockOf kv k.
Proof.
  unfold lockOf. simpl. rewrite lookup_insert. by destruct (decide (key = k)).
Qed.

(** Acquiring a lock gives a lock to the caller on the key asked for,
    and nothing else. *)
Lemma acquireReadLock_holds kv key txid k t :
  holds (acquireReadLock kv key txid).1 k t →
  holds kv k t ∨ (k = key ∧ t = txid ∧ (acquireReadLock kv key txid).2 = None).
Proof.
  destruct (acquireReadLock_outcome kv key txid) as [e Hc He|Hh|Hn]; simpl; auto.
  rewrite !holds_lockOf, lockOf_insert.
  destruct (decide (key = k)) as [->|Hne]; simpl; [|auto].
  intros [Hin|?]; [|done].
  apply elem_of_union in Hin as [Hin|Hin]; [|auto].
  apply elem_of_singleton in Hin. auto.
Qed.

Lemma acquireWriteLock_holds kv key txid k t :
  holds (acquireWriteLock kv key txid).1 k t →
  holds kv k t ∨ (k = key ∧ t = txid ∧ (acquireWriteLock kv key txid).2 = None).
Proof.
  destruct (acquireWriteLock_outcome kv key txid) as [Hh|Hn Hr|e Hc He]; simpl; auto.
  rewrite !holds_lockOf, lockOf_insert.
  destruct (decide (key = k)) as [->|Hne]; simpl; [|auto].
  intros [Hin|[= <-]]; [|auto].
  apply elem_of_difference in Hin as [Hin _]. auto.
Qed.

(** What [releaseLocks] does to one lock entry. *)
Lemma released_idem txid lockInfo :
  released txid (released txid lockInfo) = released txid lockInfo.
Proof.
  unfold released. simpl. f_equal.
  - name_readers. set_solver.
  - destruct (writer_is lockInfo txid) eqn:E; [done|].
    unfold writer_is in *. simpl. by rewrite E.
Qed.

Lemma releaseKey_lookup txid l op k :
  releaseKey txid l op !! k
  = if decide (k = Key op) then released txid <$> l !! k else l !! k.
Proof.
  unfold releaseKey. destruct (decide (k = Key op)) as [->|Hne].
  - destruct (l !! Key op) as [lockInfo|] eqn:E; simpl.
    + by rewrite lookup_insert_eq.
    + by rewrite E.
  - destruct (l !! Key op) as [lockInfo|] eqn:E; [|done].
    by rewrite lookup_insert_ne.
Qed.

Lemma releaseKeys_lookup txid ops l k :
  foldl (releaseKey txid) l ops !! k
  = if decide (k ∈ map Key ops) then released txid <$> l !! k else l !! k.
Proof.
  revert l. induction ops as [|op ops IH]; intros l; simpl.
  - destruct (decide (k ∈ [])) as [Hin|_]; [|done]. by apply elem_of_nil in Hin.
  - rewrite IH, releaseKey_lookup.
    destruct (decide (k = Key op)) as [->|Hne].
    + destruct (decide (Key op ∈ Key op :: map Key ops)) as [_|Hn];
        [|exfalso; apply Hn; left].
      destruct (decide (Key op ∈ map Key ops)); [|done].
      destruct (l !! Key op); simpl; [|done]. by rewrite released_idem.
    + destruct (decide (k ∈ map Key ops)) as [Hin|Hn];
        destruct (decide (k ∈ Key op :: map Key ops)) as [Hin'|Hn']; try done.
      * exfalso. apply Hn'. by right.
      * exfalso. apply elem_of_cons in Hin' as [?|?]; done.
Qed.

Lemma holds_released txid lockInfo t :
  t ∈ readHolders (released txid lockInfo) ∨
  writeHolder (released txid lockInfo) = Some t ↔
  t ≠ txid ∧ (t ∈ readHolders lockInfo ∨ writeHolder lockInfo = Some t).
Proof.
  unfold released. simpl.
  destruct (writer_is lockInfo txid) eqn:E.
  - apply writer_is_true in E. rewrite E. split.
    + intros [Hin|?]; [|done]. name_readers. set_solver.
    + intros [Hne [Hin|[= ->]]]; [|done]. left. name_readers. set_solver.
  - assert (writeHolder lockInfo ≠ Some txid) as Hw.
    { intros Hw. apply writer_is_true in Hw. congruence. }
    split.
    + intros [Hin|Hw']; [|split; [congruence|auto]].
      name_readers. set_solver.
    + intros [Hne [Hin|?]]; [|auto]. left. name_readers. set_solver.
Qed.

(** After [releaseLocks], a lock is held exactly when it was held before
    and it is not a lock of [txid] on a key of its log. *)
Lemma releaseLocks_holds kv txid k t :
  holds (releaseLocks kv txid) k t ↔
  holds kv k t ∧
  ¬ (t = txid ∧ ∃ ops, transactions kv !! txid = Some ops ∧ k ∈ map Key ops).
Proof.
  rewrite !holds_lockOf. unfold releaseLocks, lockOf. simpl.
  destruct (transactions kv !! txid) as [ops|] eqn:Et.
  - rewrite releaseKeys_lookup.
    destruct (decide (k ∈ map Key ops)) as [Hin|Hn].
    + destruct (locks kv !! k) as [lockInfo|]; simpl.
      * change (t ∈ readHolders (released txid lockInfo) ∨
                writeHolder (released txid lockInfo) = Some t ↔
                (t ∈ readHolders lockInfo ∨ writeHolder lockInfo = Some t) ∧
                ¬ (t = txid ∧ ∃ ops0, Some ops = Some ops0 ∧ k ∈ map Key ops0)).
        rewrite holds_released. split.
        -- intros [Hne H]. split; [done|]. by intros [-> _].
        -- intros [H Hn]. split; [|done]. intros ->. apply Hn. eauto.
      * split; [intros [?|?]; [set_solver|done]|]. by intros [[?|?] _]; [set_solver|].
    + split; [|by intros [? _]]. intros H. split; [done|].
      intros [_ (ops' & [= <-] & ?)]. done.
  - split; [|by intros [? _]]. intros H. split; [done|].
    by intros [_ (ops' & ? & _)].
Qed.

Lemma holds_locks_eq kv1 kv2 k t :
  locks kv1 = locks kv2 → holds kv1 k t ↔ holds kv2 k t.
Proof. unfold holds, holdsRead, holdsWrite. by intros ->. Qed.

Lemma ensureTransaction_logged kv txid :
  locks_logged kv → locks_logged (ensureTransaction kv txid).
Proof.
  intros Hl k t Hh.
  rewrite (holds_locks_eq _ kv) in Hh by apply ensureTransaction_locks.
  destruct (Hl k t Hh) as (ops & Ht & Hin). exists ops. split; [|done].
  destruct (decide (t = txid)) as [->|Hne].
  - by rewrite ensureTransaction_lookup, Ht.
  - by rewrite ensureTransaction_lookup_ne.
Qed.

Lemma appendOp_lookup kv txid op t :
  transactions (appendOp kv txid op) !! t
  = if decide (txid = t)
    then Some (default [] (transactions kv !! txid) ++ [op])%list
    else transactions kv !! t.
Proof. unfold appendOp. simpl. by rewrite lookup_insert. Qed.

(** A lock taken together with the log record of the operation keeps
    locks covered by logs. *)
Lemma appendOp_logged kv kv1 txid op :
  locks_logged kv →
  (∀ k t, holds kv1 k t → holds kv k t ∨ (k = Key op ∧ t = txid)) →
  transactions kv1 = transactions kv →
  locks_logged (appendOp kv1 txid op).
Proof.
  intros Hl Hh Ht k t Hk.
  rewrite (holds_locks_eq _ kv1) in Hk by done.
  rewrite appendOp_lookup, Ht.
  destruct (Hh k t Hk) as [Hold|[-> ->]].
  - destruct (Hl k t Hold) as (ops & Hops & Hin).
    destruct (decide (txid = t)) as [->|Hne]; [|eauto].
    rewrite Hops. simpl. eexists. split; [done|].
    rewrite map_app. apply elem_of_app. auto.
  - destruct (decide (txid = txid)); [|done].
    eexists. split; [done|].
    rewrite map_app. apply elem_of_app. right. simpl. by left.
Qed.

(** Releasing forgets the transaction altogether, provided its locks
    were covered by its log. *)
Lemma releaseLocks_logged kv txid :
  locks_logged kv →
  locks_logged (releaseLocks kv txid) ∧
  (∀ k, ¬ holds (releaseLocks kv txid) k txid) ∧
  transactions (releaseLocks kv txid) !! txid = None.
Proof.
  intros Hl. split; [|split].
  - intros k t Hk. apply releaseLocks_holds in Hk as [Hk Hn].
    destruct (Hl k t Hk) as (ops & Hops & Hin).
    exists ops. split; [|done]. unfold releaseLocks. simpl.
    rewrite lookup_delete_ne; [done|]. intros ->. apply Hn. eauto.
  - intros k Hk. apply releaseLocks_holds in Hk as [Hk Hn].
    destruct (Hl k txid Hk) as (ops & Hops & Hin). apply Hn. eauto.
  - unfold releaseLocks. simpl. by rewrite lookup_delete_eq.
Qed.

Lemma logged_locks_transactions kv1 kv2 :
  locks kv1 = locks kv2 → transactions kv1 = transactions kv2 →
  locks_logged kv2 → locks_logged kv1.
Proof.
  intros Hl Ht H k t Hk. rewrite Ht. apply H.
  by rewrite <- (holds_locks_eq kv1 kv2).
Qed.

(** [Get] and [Put] written by the outcome of the lock request. *)
Lemma Get_unfold kv request response :
  let key := kvs.GetRequest.Key request in
  let txid := kvs.GetRequest.Txid request in
  let kv0 := ensureTransaction kv txid in
  Get kv request response =
  match (acquireReadLock kv0 key txid).2 with
  | Some e =>
      (add_aborts (releaseLocks (acquireReadLock kv0 key txid).1 txid),
       response, Some e)
  | None =>
      (add_gets (appendOp (acquireReadLock kv0 key txid).1 txid
                   (mkOperation "GET" key "")),
       kvs.GetResponse.mk (default "" (mp kv !! key)), None)
  end.
Proof.
  intros key txid kv0. unfold Get. fold key txid kv0.
  destruct (acquireReadLock_frame kv0 key txid) as (Hm & _ & _).
  destruct (acquireReadLock kv0 key txid) as [kv1 [e|]]; simpl in *; [done|].
  rewrite Hm. unfold kv0. rewrite ensureTransaction_mp.
  by destruct (mp kv !! key).
Qed.

Lemma Put_unfold kv request :
  let key := kvs.PutRequest.Key request in
  let txid := kvs.PutRequest.Txid request in
  let kv0 := ensureTransaction kv txid in
  Put kv request =
  match (acquireWriteLock kv0 key txid).2 with
  | Some e =>
      (add_aborts (releaseLocks (acquireWriteLock kv0 key txid).1 txid), Some e)
  | None =>
      (add_puts (appendOp (acquireWriteLock kv0 key txid).1 txid
                   (mkOperation "PUT" key (kvs.PutRequest.Value request))),
       None)
  end.
Proof.
  intros key txid kv0. unfold Put. fold key txid kv0.
  by destruct (acquireWriteLock kv0 key txid) as [kv1 [e|]].
Qed.

Lemma Get_logged kv request response :
  locks_logged kv → locks_logged (Get kv request response).1.1.
Proof.
  intros Hl. rewrite Get_unfold.
  set (txid := kvs.GetRequest.Txid request).
  set (key := kvs.GetRequest.Key request).
  pose proof (ensureTransaction_logged kv txid Hl) as H0.
  pose proof (acquireReadLock_holds (ensureTransaction kv txid) key txid) as Hh.
  destruct (acquireReadLock_frame (ensureTransaction kv txid) key txid)
    as (_ & Ht & _).
  destruct (acquireReadLock _ _ _) as [kv1 [e|]]; simpl in *.
  - apply (logged_locks_transactions _ (releaseLocks kv1 txid)); [done..|].
    apply releaseLocks_logged. intros k t Hk. rewrite Ht.
    destruct (Hh k t Hk) as [?|(_ & _ & ?)]; [by apply H0|done].
  - apply (logged_locks_transactions _
             (appendOp kv1 txid (mkOperation "GET" key ""))); [done..|].
    apply (appendOp_logged (ensureTransaction kv txid)); [done| |done].
    intros k t Hk. destruct (Hh k t Hk) as [?|(? & ? & _)]; auto.
Qed.

Lemma Put_logged kv request :
  locks_logged kv → locks_logged (Put kv request).1.
Proof.
  intros Hl. rewrite Put_unfold.
  set (txid := kvs.PutRequest.Txid request).
  set (key := kvs.PutRequest.Key request).
  pose proof (ensureTransaction_logged kv txid Hl) as H0.
  pose proof (acquireWriteLock_holds (ensureTransaction kv txid) key txid) as Hh.
  destruct (acquireWriteLock_frame (ensureTransaction kv txid) key txid)
    as (_ & Ht & _).
  destruct (acquireWriteLock _ _ _) as [kv1 [e|]]; simpl in *.
  - apply (logged_locks_transactions _ (releaseLocks kv1 txid)); [done..|].
    apply releaseLocks_logged. intros k t Hk. rewrite Ht.
    destruct (Hh k t Hk) as [?|(_ & _ & ?)]; [by apply H0|done].
  - apply (logged_locks_transactions _
             (appendOp kv1 txid
                (mkOperation "PUT" key (kvs.PutRequest.Value request))));
      [done..|].
    apply (appendOp_logged (ensureTransaction kv txid)); [done| |done].
    intros k t Hk. destruct (Hh k t Hk) as [?|(? & ? & _)]; auto.
Qed.

(** The state [Commit] hands to [releaseLocks]. *)
Lemma Commit_unfold kv request :
  ∃ kv1, Commit kv request = (releaseLocks kv1 (kvs.CommitRequest.Txid request), None)
         ∧ locks kv1 = locks kv ∧ transactions kv1 = transactions kv
         ∧ mp kv1 = foldl applyOp (mp kv)
                      (default [] (transactions kv !! kvs.CommitRequest.Txid request)).
Proof.
  unfold Commit.
  destruct (transactions kv !! kvs.CommitRequest.Txid request) as [ops|] eqn:E.
  - destruct (kvs.CommitRequest.Lead request); eexists; (split; [done|]); done.
  - by exists kv.
Qed.

Lemma Commit_logged kv request :
  locks_logged kv → locks_logged (Commit kv request).1.
Proof.
  intros Hl. destruct (Commit_unfold kv request) as (kv1 & -> & Hk & Ht & _).
  simpl. apply releaseLocks_logged.
  by apply (logged_locks_transactions _ kv).
Qed.

Lemma Abort_logged kv request :
  locks_logged kv → locks_logged (Abort kv request).1.
Proof.
  intros Hl. unfold Abort. simpl.
  apply (logged_locks_transactions _
           (releaseLocks kv (kvs.AbortRequest.Txid request))); [done..|].
  by apply releaseLocks_logged.
Qed.

Lemma step_logged kv r : locks_logged kv → locks_logged (step kv r).
Proof.
  intros Hl. destruct r; [rewrite step_Get|..]; simpl.
  - by apply Get_logged.
  - by apply Put_logged.
  - by apply Commit_logged.
  - by apply (Abort_logged kv request).
Qed.

Lemma run_logged rs kv : locks_logged kv → locks_logged (run kv rs).
Proof.
  revert kv. induction rs as [|r rs IH]; intros kv Hl; [done|].
  simpl. apply IH. by apply step_logged.
Qed.

(** In every reachable state the locks of a transaction are on keys of
    its log. *)
Lemma locks_logged_reachable rs : locks_logged (run NewKVService rs).
Proof.
  apply run_logged. intros k t [(li & Hl & _)|(li & Hl & _)];
    simpl in Hl; by rewrite lookup_empty in Hl.
Qed.

(** *** Commit *)

Lemma applyOp_lookup m op k :
  applyOp m op !! k
  = if isPut op && String.eqb (Key op) k then Some (Value op) else m !! k.
Proof.
  unfold applyOp, isPut. destruct (String.eqb (OpType op) "PUT"); simpl; [|done].
  destruct (String.eqb_spec (Key op) k) as [->|Hne].
  - by rewrite lookup_insert_eq.
  - by rewrite lookup_insert_ne.
Qed.

Lemma foldl_applyOp_puts ops m :
  foldl applyOp m ops
  = foldl (λ m op, <[Key op := Value op]> m) m (putsOf ops).
Proof.
  revert m. induction ops as [|op ops IH]; intros m; [done|].
  simpl. rewrite IH. unfold applyOp, isPut.
  by destruct (String.eqb (OpType op) "PUT").
Qed.

Lemma lastPut_snoc key ops op :
  lastPut key (ops ++ [op])
  = if isPut op && String.eqb (Key op) key then Some (Value op)
    else lastPut key ops.
Proof.
  unfold lastPut, putsOf. rewrite List.filter_app. simpl.
  destruct (isPut op); simpl; [|by rewrite app_nil_r].
  rewrite List.filter_app. simpl.
  destruct (String.eqb (Key op) key); simpl; [|by rewrite app_nil_r].
  rewrite map_app. simpl. apply last_snoc.
Qed.

Lemma foldl_applyOp_lookup ops m k :
  foldl applyOp m ops !! k
  = match lastPut k ops with Some v => Some v | None => m !! k end.
Proof.
  induction ops as [|op ops IH] using rev_ind; [done|].
  rewrite foldl_app. simpl. rewrite applyOp_lookup, lastPut_snoc, IH.
  by destruct (isPut op && String.eqb (Key op) k).
Qed.

(** C3. [Commit] of a transaction with a log applies the PUT records of
    the log, and only those, to the store in log order, so that a key
    written several times ends with the value of its last PUT; the
    transaction then holds no lock and has no table entry, and the call
    returns [nil]. For a transaction the server does not know the store
    is unchanged and the call returns [nil] as well. *)
Theorem Commit_spec rs request :
  let kv := run NewKVService rs in
  let txid := kvs.CommitRequest.Txid request in
  let kv' := (Commit kv request).1 in
  (Commit kv request).2 = None ∧
  transactions kv' !! txid = None ∧
  (∀ k, ¬ holdsRead kv' k txid ∧ ¬ holdsWrite kv' k txid) ∧
  (∀ ops, transactions kv !! txid = Some ops →
     mp kv' = foldl (λ m op, <[Key op := Value op]> m) (mp kv) (putsOf ops) ∧
     ∀ k, mp kv' !! k
          = match lastPut k ops with Some v => Some v | None => mp kv !! k end) ∧
  (transactions kv !! txid = None → mp kv' = mp kv).
Proof.
  intros kv txid kv'. subst kv'.
  destruct (Commit_unfold kv request) as (kv1 & -> & Hk & Ht & Hm).
  fold txid in Hm |- *. simpl.
  assert (locks_logged kv1) as Hl.
  { apply (logged_locks_transactions _ kv); [done..|].
    apply locks_logged_reachable. }
  destruct (releaseLocks_logged kv1 txid Hl) as (_ & Hno & Hnone).
  split; [done|]. split; [done|]. split.
  { intros k. unfold holds in Hno. split; intros H; apply (Hno k); auto. }
  change (mp (releaseLocks kv1 txid)) with (mp kv1). rewrite Hm.
  split.
  - intros ops ->. simpl. split; [apply foldl_applyOp_puts|].
    intros k. apply foldl_applyOp_lookup.
  - by intros ->.
Qed.

(** *** What one request does to the store and to the logs *)

Lemma Get_mp kv request response : mp (Get kv request response).1.1 = mp kv.
Proof.
  rewrite Get_unfold.
  destruct (acquireReadLock_frame
              (ensureTransaction kv (kvs.GetRequest.Txid request))
              (kvs.GetRequest.Key request) (kvs.GetRequest.Txid request))
    as (Hm & _ & _).
  destruct (acquireReadLock _ _ _) as [kv1 [e|]]; simpl in *;
    by rewrite Hm, ensureTransaction_mp.
Qed.

Lemma Put_mp kv request : mp (Put kv request).1 = mp kv.
Proof.
  rewrite Put_unfold.
  destruct (acquireWriteLock_frame
              (ensureTransaction kv (kvs.PutRequest.Txid request))
              (kvs.PutRequest.Key request) (kvs.PutRequest.Txid request))
    as (Hm & _ & _).
  destruct (acquireWriteLock _ _ _) as [kv1 [e|]]; simpl in *;
    by rewrite Hm, ensureTransaction_mp.
Qed.

Lemma step_mp kv r :
  mp (step kv r)
  = match r with
    | ReqCommit request =>
        foldl applyOp (mp kv)
          (default [] (transactions kv !! kvs.CommitRequest.Txid request))
    | _ => mp kv
    end.
Proof.
  destruct r; [rewrite step_Get; apply Get_mp|apply Put_mp| |done].
  rewrite step_Commit.
  destruct (Commit_unfold kv request) as (kv1 & -> & _ & _ & Hm).
  by rewrite <- Hm.
Qed.

(** A request that fails leaves no log for its transaction. *)
Lemma serve_err_log kv r :
  (serve kv r).2 ≠ None → transactions (step kv r) !! txidOf r = None.
Proof.
  destruct r as [request|request|request|request];
    [| |by intros []..].
  - rewrite serve_Get_err, step_Get, Get_unfold.
    destruct (acquireReadLock _ _ _) as [kv1 [e|]]; simpl; [|done].
    intros _. by rewrite lookup_delete_eq.
  - rewrite ?step_Put. change (serve kv (ReqPut request)) with (Put kv request).
    rewrite Put_unfold.
    destruct (acquireWriteLock _ _ _) as [kv1 [e|]]; simpl; [|done].
    intros _. by rewrite lookup_delete_eq.
Qed.

(** A request that succeeds appends its record to the log of its
    transaction, creating the log when there was none. *)
Lemma serve_ok_log kv r op :
  (serve kv r).2 = None → recordOf r = Some op →
  transactions (step kv r) !! txidOf r
  = Some (default [] (transactions kv !! txidOf r) ++ [op])%list.
Proof.
  destruct r as [request|request|request|request]; [| |done..].
  - rewrite serve_Get_err, step_Get, Get_unfold.
    destruct (acquireReadLock_frame
                (ensureTransaction kv (kvs.GetRequest.Txid request))
                (kvs.GetRequest.Key request) (kvs.GetRequest.Txid request))
      as (_ & Ht & _).
    destruct (acquireReadLock _ _ _) as [kv1 [e|]]; simpl in *; [done|].
    intros _ [= <-]. rewrite lookup_insert_eq, Ht, ensureTransaction_lookup.
    done.
  - rewrite ?step_Put. change (serve kv (ReqPut request)) with (Put kv request).
    rewrite Put_unfold.
    destruct (acquireWriteLock_frame
                (ensureTransaction kv (kvs.PutRequest.Txid request))
                (kvs.PutRequest.Key request) (kvs.PutRequest.Txid request))
      as (_ & Ht & _).
    destruct (acquireWriteLock _ _ _) as [kv1 [e|]]; simpl in *; [done|].
    intros _ [= <-]. rewrite lookup_insert_eq, Ht, ensureTransaction_lookup.
    done.
Qed.

(** A request leaves the logs of the other transactions alone. *)
Lemma step_other_log kv r t :
  txidOf r ≠ t → transactions (step kv r) !! t = transactions kv !! t.
Proof.
  intros Hne.
  destruct r as [request|request|request|request]; simpl in Hne.
  - rewrite step_Get, Get_unfold.
    destruct (acquireReadLock_frame
                (ensureTransaction kv (kvs.GetRequest.Txid request))
                (kvs.GetRequest.Key request) (kvs.GetRequest.Txid request))
      as (_ & Ht & _).
    destruct (acquireReadLock _ _ _) as [kv1 [e|]]; simpl in *.
    + by rewrite lookup_delete_ne, Ht, ensureTransaction_lookup_ne.
    + by rewrite lookup_insert_ne, Ht, ensureTransaction_lookup_ne.
  - rewrite ?step_Put. change (serve kv (ReqPut request)) with (Put kv request).
    rewrite Put_unfold.
    destruct (acquireWriteLock_frame
                (ensureTransaction kv (kvs.PutRequest.Txid request))
                (kvs.PutRequest.Key request) (kvs.PutRequest.Txid request))
      as (_ & Ht & _).
    destruct (acquireWriteLock _ _ _) as [kv1 [e|]]; simpl in *.
    + by rewrite lookup_delete_ne, Ht, ensureTransaction_lookup_ne.
    + by rewrite lookup_insert_ne, Ht, ensureTransaction_lookup_ne.
  - rewrite step_Commit.
    destruct (Commit_unfold kv request) as (kv1 & -> & _ & Ht & _). simpl.
    by rewrite lookup_delete_ne, Ht.
  - rewrite step_Abort. simpl. by rewrite lookup_delete_ne.
Qed.

Lemma serve_Commit_Abort_ok kv r : recordOf r = None → (serve kv r).2 = None.
Proof. by destruct r. Qed.

(** The log of a transaction after a request: the log before, or the log
    before with the record of the request at its end. *)
Lemma step_log kv r t ops' :
  transactions (step kv r) !! t = Some ops' →
  transactions kv !! t = Some ops' ∨
  (txidOf r = t ∧
   ∃ op, recordOf r = Some op ∧
         ops' = (default [] (transactions kv !! t) ++ [op])%list).
Proof.
  destruct (decide (txidOf r = t)) as [<-|Hne].
  - destruct (serve kv r).2 as [e|] eqn:Ee.
    + rewrite serve_err_log by congruence. done.
    + destruct (recordOf r) as [op|] eqn:Er.
      * rewrite (serve_ok_log _ _ op) by done. intros [= <-]. eauto.
      * destruct r; try done.
        -- rewrite step_Commit.
           destruct (Commit_unfold kv request) as (kv1 & -> & _ & Ht & _).
           simpl. by rewrite lookup_delete_eq.
        -- rewrite step_Abort. simpl. by rewrite lookup_delete_eq.
  - rewrite step_other_log by done. auto.
Qed.

Lemma no_log_no_locks kv t :
  locks_logged kv → transactions kv !! t = None →
  ∀ k, ¬ holdsRead kv k t ∧ ¬ holdsWrite kv k t.
Proof.
  intros Hl Hn k. split; intros H;
    (destruct (Hl k t) as (ops & Hops & _); [unfold holds; auto|congruence]).
Qed.

Lemma run_app kv rs1 rs2 : run kv (rs1 ++ rs2) = run (run kv rs1) rs2.
Proof. apply foldl_app. Qed.

Lemma run_others_log rs kv t :
  Forall (λ r, txidOf r ≠ t) rs →
  transactions (run kv rs) !! t = transactions kv !! t.
Proof.
  revert kv. induction rs as [|r rs IH]; intros kv Hall; [done|].
  apply Forall_cons in Hall as [Hr Hall]. simpl.
  by rewrite IH, step_other_log.
Qed.

(** *** Where a stored value comes from *)

Lemma isPut_key_eq op k :
  isPut op && String.eqb (Key op) k = true →
  op = mkOperation "PUT" k (Value op).
Proof.
  intros H. apply andb_true_iff in H as [Hp Hk].
  apply String.eqb_eq in Hp, Hk. destruct op. simpl in *. by subst.
Qed.

Lemma lastPut_elem k ops v :
  lastPut k ops = Some v → mkOperation "PUT" k v ∈ ops.
Proof.
  induction ops as [|op ops IH] using rev_ind; [done|].
  rewrite lastPut_snoc.
  destruct (isPut op && String.eqb (Key op) k) eqn:E.
  - intros [= <-]. apply elem_of_app. right.
    rewrite <- (isPut_key_eq _ _ E). by left.
  - intros H. apply elem_of_app. left. auto.
Qed.

Lemma step_ends_log kv r t : ends t r → transactions (step kv r) !! t = None.
Proof.
  intros [Hr <-]. destruct r as [rq|rq|rq|rq]; try done.
  - rewrite step_Commit.
    destruct (Commit_unfold kv rq) as (kv1 & -> & _ & _ & _).
    simpl. by rewrite lookup_delete_eq.
  - rewrite step_Abort. simpl. by rewrite lookup_delete_eq.
Qed.

Lemma run_provenance rs kv k v :
  mp (run kv rs) !! k = Some v →
  mp kv !! k = Some v ∨
  (∃ t ops lead rs2 rs3,
     transactions kv !! t = Some ops ∧ mkOperation "PUT" k v ∈ ops ∧
     Forall (λ q, ¬ ends t q) rs2 ∧
     rs = (rs2 ++ ReqCommit (kvs.CommitRequest.mk t lead) :: rs3)%list) ∨
  (∃ t lead rs1 rs2 rs3,
     Forall (λ q, ¬ ends t q) rs2 ∧
     rs = (rs1 ++ ReqPut (kvs.PutRequest.mk k v t) :: rs2 ++
           ReqCommit (kvs.CommitRequest.mk t lead) :: rs3)%list).
Proof.
  revert kv. induction rs as [|r rs IH]; intros kv; [by left|].
  simpl. intros H. apply IH in H as [H|[H|H]].
  - rewrite step_mp in H. destruct r as [rq|rq|rq|rq]; auto.
    rewrite foldl_applyOp_lookup in H.
    destruct (lastPut k _) as [v'|] eqn:El; [|auto].
    injection H as ->. apply lastPut_elem in El.
    destruct (transactions kv !! kvs.CommitRequest.Txid rq) as [ops|] eqn:Et;
      [|by apply elem_of_nil in El].
    right. left. exists (kvs.CommitRequest.Txid rq), ops,
      (kvs.CommitRequest.Lead rq), [], rs.
    split; [done|]. split; [done|]. split; [done|]. by destruct rq.
  - destruct H as (t & ops & lead & rs2 & rs3 & Ht & Hin & Hall & ->).
    assert (¬ ends t r) as Hne.
    { intros He. by rewrite (step_ends_log kv r t He) in Ht. }
    apply step_log in Ht as [Ht|(Hr & op & Hrec & ->)].
    + right. left. exists t, ops, lead, (r :: rs2), rs3. auto.
    + apply elem_of_app in Hin as [Hin|Hin].
      * destruct (transactions kv !! t) as [ops|] eqn:Et;
          [|by apply elem_of_nil in Hin].
        right. left. exists t, ops, lead, (r :: rs2), rs3. auto.
      * apply list_elem_of_singleton in Hin. subst op.
        destruct r as [rq|rq|rq|rq]; simpl in *; try done.
        injection Hrec as Hk Hv. subst t.
        right. right.
        exists (kvs.PutRequest.Txid rq), lead, [], rs2, rs3.
        split; [done|]. destruct rq. simpl in *. by subst.
  - destruct H as (t & lead & rs1 & rs2 & rs3 & Hall & ->).
    right. right. by exists t, lead, (r :: rs1), rs2, rs3.
Qed.

(** C4. Only [Commit] changes the committed store. [Put] never changes
    it and, when it succeeds, appends the write to the log of the
    transaction; [Get] never changes it and answers from it; [Abort]
    never changes it, drops the log and leaves the transaction without
    a lock. Hence a value found in the store was the value of a [Put]
    of a transaction for which a [Commit] was served afterwards, with
    no [Abort] or [Commit] of that transaction in between. *)
Theorem store_changed_only_by_Commit :
  (∀ kv request,
     let txid := kvs.PutRequest.Txid request in
     mp (Put kv request).1 = mp kv ∧
     ((Put kv request).2 = None →
      transactions (Put kv request).1 !! txid
      = Some (default [] (transactions kv !! txid) ++
              [mkOperation "PUT" (kvs.PutRequest.Key request)
                 (kvs.PutRequest.Value request)])%list)) ∧
  (∀ kv request response,
     mp (Get kv request response).1.1 = mp kv ∧
     ((Get kv request response).2 = None →
      kvs.GetResponse.Value (Get kv request response).1.2
      = default "" (mp kv !! kvs.GetRequest.Key request))) ∧
  (∀ kv request,
     mp (Abort kv request).1 = mp kv ∧
     transactions (Abort kv request).1 !! kvs.AbortRequest.Txid request = None ∧
     (Abort kv request).2 = None) ∧
  (∀ rs request k,
     let kv' := (Abort (run NewKVService rs) request).1 in
     ¬ holdsRead kv' k (kvs.AbortRequest.Txid request) ∧
     ¬ holdsWrite kv' k (kvs.AbortRequest.Txid request)) ∧
  (∀ kv r, recordOf r ≠ None ∨ (∃ request, r = ReqAbort request) →
     mp (step kv r) = mp kv) ∧
  (∀ rs k v,
     mp (run NewKVService rs) !! k = Some v →
     ∃ t lead rs1 rs2 rs3,
       Forall (λ q, ¬ ends t q) rs2 ∧
       rs = (rs1 ++ ReqPut (kvs.PutRequest.mk k v t) :: rs2 ++
             ReqCommit (kvs.CommitRequest.mk t lead) :: rs3)%list).
Proof.
  split; [|split; [|split; [|split; [|split]]]].
  - intros kv request txid. split; [apply Put_mp|].
    intros Hok.
    by apply (serve_ok_log kv (ReqPut request)).
  - intros kv request response. split; [apply Get_mp|].
    rewrite Get_unfold. by destruct (acquireReadLock _ _ _) as [kv1 [e|]].
  - intros kv request. split; [done|]. split; [|done].
    simpl. by rewrite lookup_delete_eq.
  - intros rs request k kv'. apply no_log_no_locks.
    + apply (step_logged _ (ReqAbort request)), locks_logged_reachable.
    + subst kv'. simpl. by rewrite lookup_delete_eq.
  - intros kv r Hr. rewrite step_mp.
    destruct r; try done. by destruct Hr as [?|[? ?]].
  - intros rs k v H. apply run_provenance in H as [H|[H|H]].
    + simpl in H. by rewrite lookup_empty in H.
    + destruct H as (t & ops & _ & _ & _ & Ht & _). simpl in Ht.
      by rewrite lookup_empty in Ht.
    + done.
Qed.

(** *** Get *)

Lemma holdsWrite_lockOf kv key w :
  holdsWrite kv key w ↔ writeHolder (lockOf kv key) = Some w.
Proof.
  unfold holdsWrite, lockOf. destruct (locks kv !! key) as [lockInfo|]; simpl.
  - split; [by intros (li & [= <-] & ?)|]. intros ?. by exists lockInfo.
  - split; [by intros (li & ? & _)|done].
Qed.

Lemma lockOf_locks_eq kv1 kv2 key :
  locks kv1 = locks kv2 → lockOf kv1 key = lockOf kv2 key.
Proof. unfold lockOf. by intros ->. Qed.

(** C5. [Get] in a state the server can reach. On a lock conflict
    (another transaction holds the write lock of the key) it returns an
    error whose text contains "Cannot acquire", and then [txid] holds no
    lock on any key, has no entry in the transaction table, and the
    [aborts] counter has been incremented. Otherwise it returns [nil],
    the log of [txid] has one more record, the GET of the key, and the
    response carries the stored value of the key, or the empty string
    when the key is not stored. *)
Theorem Get_spec rs request response :
  let kv := run NewKVService rs in
  let key := kvs.GetRequest.Key request in
  let txid := kvs.GetRequest.Txid request in
  let kv' := (Get kv request response).1.1 in
  let response' := (Get kv request response).1.2 in
  match (Get kv request response).2 with
  | Some e =>
      strings.Contains e "Cannot acquire" = true ∧
      (∃ w, holdsWrite kv key w ∧ w ≠ txid) ∧
      (∀ k, ¬ holdsRead kv' k txid ∧ ¬ holdsWrite kv' k txid) ∧
      transactions kv' !! txid = None ∧
      aborts (stats kv') = uint64_add (aborts (stats kv)) 1 ∧
      gets (stats kv') = gets (stats kv) ∧
      response' = response ∧
      mp kv' = mp kv
  | None =>
      (∀ w, holdsWrite kv key w → w = txid) ∧
      transactions kv' !! txid
      = Some (default [] (transactions kv !! txid) ++
              [mkOperation "GET" key ""])%list ∧
      kvs.GetResponse.Value response' = default "" (mp kv !! key) ∧
      (holdsRead kv' key txid ∨ holdsWrite kv' key txid) ∧
      gets (stats kv') = uint64_add (gets (stats kv)) 1 ∧
      aborts (stats kv') = aborts (stats kv) ∧
      mp kv' = mp kv
  end.
Proof.
  intros kv key txid kv' response'. subst kv' response'.
  pose proof (Get_mp kv request response) as Hmp.
  assert (locks_logged kv) as Hl by apply locks_logged_reachable.
  revert Hmp. rewrite Get_unfold. fold key txid.
  set (kv0 := ensureTransaction kv txid).
  assert (locks_logged kv0) as Hl0 by by apply ensureTransaction_logged.
  assert (locks kv0 = locks kv) as Hk0 by apply ensureTransaction_locks.
  assert (stats kv0 = stats kv) as Hs0.
  { unfold kv0, ensureTransaction. by destruct (transactions kv !! txid). }
  destruct (acquireReadLock_outcome kv0 key txid) as [e Hc He|Hh|Hn]; simpl.
  - intros Hmp. split; [done|]. split.
    { destruct Hc as (w & Hw & Hne). exists w. split; [|done].
      apply holdsWrite_lockOf. by rewrite <- (lockOf_locks_eq kv0 kv). }
    destruct (releaseLocks_logged kv0 txid Hl0) as (_ & Hno & Hnone).
    split.
    { intros k. split; intros H; apply (Hno k); [by left|by right]. }
    split; [exact Hnone|]. by rewrite Hs0.
  - intros Hmp. split.
    { intros w Hw. apply holdsWrite_lockOf in Hw.
      rewrite <- (lockOf_locks_eq kv0 kv) in Hw by done. congruence. }
    split.
    { rewrite lookup_insert_eq. unfold kv0.
      by rewrite ensureTransaction_lookup. }
    split; [done|]. split.
    { right. apply holdsWrite_lockOf. by rewrite (lockOf_locks_eq _ kv0). }
    by rewrite Hs0.
  - intros Hmp. split.
    { intros w Hw. apply holdsWrite_lockOf in Hw.
      rewrite <- (lockOf_locks_eq kv0 kv) in Hw by done. congruence. }
    split.
    { rewrite lookup_insert_eq. unfold kv0.
      by rewrite ensureTransaction_lookup. }
    split; [done|]. split.
    { left. eexists. split; [simpl; by rewrite lookup_insert_eq|].
      simpl. set_solver. }
    by rewrite Hs0.
Qed.

(** *** After a conflict *)

(** C10. When a [Get] or [Put] of [txid] fails (the only failure is a
    lock conflict) in a state the server can reach, the server keeps
    nothing of the transaction: no table entry and no lock on any key.
    This stays so while only other transactions are served, and the
    next [Get] or [Put] of [txid] that succeeds starts from an empty
    log: afterwards the log is that one record. *)
Theorem conflict_forgets_transaction rs r :
  let kv := run NewKVService rs in
  let txid := txidOf r in
  (serve kv r).2 ≠ None →
  let kv' := step kv r in
  recordOf r ≠ None ∧
  transactions kv' !! txid = None ∧
  (∀ k, ¬ holdsRead kv' k txid ∧ ¬ holdsWrite kv' k txid) ∧
  ∀ rs' r' op,
    Forall (λ q, txidOf q ≠ txid) rs' →
    txidOf r' = txid → recordOf r' = Some op →
    let kv2 := run kv' rs' in
    transactions kv2 !! txid = None ∧
    (∀ k, ¬ holdsRead kv2 k txid ∧ ¬ holdsWrite kv2 k txid) ∧
    ((serve kv2 r').2 = None →
     transactions (step kv2 r') !! txid = Some [op]).
Proof.
  intros kv txid Herr kv'.
  assert (transactions kv' !! txid = None) as Hnone by by apply serve_err_log.
  assert (∀ rs', locks_logged (run kv' rs')) as Hl.
  { intros rs'. unfold kv', kv.
    change (step (run NewKVService rs) r) with (run (run NewKVService rs) [r]).
    rewrite <- !run_app. apply locks_logged_reachable. }
  split.
  { intros Hr. apply Herr. by apply serve_Commit_Abort_ok. }
  split; [done|]. split; [by apply (no_log_no_locks _ _ (Hl []))|].
  intros rs' r' op Hall Hr' Hop kv2.
  assert (transactions kv2 !! txid = None) as Hnone2.
  { unfold kv2. by rewrite run_others_log. }
  split; [done|]. split; [apply no_log_no_locks; [apply Hl|done]|].
  intros Hok. rewrite <- Hr'.
  rewrite (serve_ok_log _ _ op) by done. by rewrite Hr', Hnone2.
Qed.

Lemma conflict_forgets_transaction_witness :
  (serve (run NewKVService rs_one_writer) put_by_other).2 ≠ None ∧
  transactions (step (run NewKVService rs_one_writer) put_by_other) !! 2%N = None.
Proof.
  assert ((serve (run NewKVService rs_one_writer) put_by_other).2 ≠ None) as H
    by (vm_compute; discriminate).
  split; [exact H|].
  exact (proj1 (proj2 (conflict_forgets_transaction rs_one_writer put_by_other H))).
Defined.

End ServerFacts.

(** * Properties of the client *)

Module ClientFacts.
Import KVClient.

Lemma HasPrefix_Contains s prefix :
  strings.HasPrefix s prefix = true → strings.Contains s prefix = true.
Proof. intros H. destruct s; simpl in *; by rewrite H. Qed.

(** Whatever the specification's wording classifies as a lock conflict,
    the code does too. *)
Lemma specLockConflict_isLockConflict msg :
  specLockConflict msg = true → isLockConflict msg = true.
Proof.
  unfold specLockConflict, isLockConflict.
  intros H. apply orb_true_iff in H as [H|H]; apply orb_true_iff; [by left|].
  right. by apply HasPrefix_Contains.
Qed.

(** C8, as the code has it. [Begin] gives the transaction the identifier
    the random generator returned, whatever it is (zero is not excluded:
    a transaction that has not begun has no identifier at all), an empty
    write set, an empty participant set, and the servers it was given. *)
Theorem Begin_spec txn availableServers draw :
  let txn' := Begin txn availableServers draw in
  id txn' = Some draw ∧
  writeSet txn' = ∅ ∧
  usedServers txn' = ∅ ∧
  allServers txn' = availableServers ∧
  (draw ≠ 0%N ↔ id txn' ≠ Some 0%N).
Proof.
  simpl. repeat split; try done; intros H; congruence.
Qed.

(** [Begin] with the draw 0 gives the transaction the identifier 0. *)
Lemma Begin_zero_counterexample :
  id (Begin zeroTxn [0] 0) = Some 0%N ∧
  ¬ (∀ txn availableServers draw,
       ∃ txid, id (Begin txn availableServers draw) = Some txid ∧ txid ≠ 0%N).
Proof.
  split; [reflexivity|].
  intros H. destruct (H zeroTxn [0] 0%N) as (txid & Hid & Hne).
  simpl in Hid. congruence.
Qed.

Section Session.
Context {World : Type}.
Variable Call :
  Client → Server.Request → kvs.GetResponse.t → World →
  World * kvs.GetResponse.t * error.
Variable rangeOrder : gset Client → list Client.

Abbreviation rpcCall := (rpcCall Call).
Abbreviation abortLoop := (abortLoop Call).
Abbreviation Abort := (Abort Call rangeOrder).
Abbreviation Get := (Get Call rangeOrder).
Abbreviation Put := (Put Call rangeOrder).

Lemma rpcCall_sent client request response (n : Net) :
  sent (rpcCall client request response n).1.1 = sent n ++ [(client, request)].
Proof.
  unfold KVClient.rpcCall.
  by destruct (Call client request response (world n)) as [[w r] e].
Qed.

(** [Abort] calls the servers in order and stops after the first call
    that fails. *)
Lemma abortLoop_sent servers txid (n : Net) :
  ∃ k, k ≤ length servers ∧
       sent (abortLoop servers txid n).1
       = sent n ++ abortCalls txid (take k servers) ∧
       ((abortLoop servers txid n).2 = None → k = length servers).
Proof.
  revert n. induction servers as [|server rest IH]; intros n; simpl.
  - exists 0. by rewrite app_nil_r.
  - pose proof (rpcCall_sent server
                  (Server.ReqAbort (kvs.AbortRequest.mk txid))
                  (kvs.GetResponse.mk "") n) as Hs.
    destruct (rpcCall _ _ _ n) as [[n1 r] [e|]]; simpl in *.
    + exists 1. split; [lia|]. split; [|done]. rewrite Hs. reflexivity.
    + destruct (IH n1) as (k & Hk & Hsent & Hall).
      exists (S k). split; [lia|]. split; [|auto].
      rewrite Hsent, Hs. simpl. by rewrite <- app_assoc.
Qed.

Lemma getServer_spec txn key txn' server :
  getServer txn key = Some (txn', server) →
  serverFromKey key (allServers txn) = Some server ∧
  usedServers txn' = {[server]} ∪ usedServers txn ∧
  id txn' = id txn ∧ writeSet txn' = writeSet txn ∧
  allServers txn' = allServers txn.
Proof.
  unfold getServer. destruct (serverFromKey key (allServers txn)); [|done].
  by intros [= <- <-].
Qed.

(** [Get] never touches the write set. *)
Lemma Get_writeSet txn key (n : Net) txn' n' v err :
  Get txn key n = Some (txn', n', v, err) → writeSet txn' = writeSet txn.
Proof.
  unfold KVClient.Get. destruct (id txn) as [txid|]; [|by intros [= <- _ _ _]].
  destruct (writeSet txn !! key); [by intros [= <- _ _ _]|].
  destruct (getServer txn key) as [[txn1 server]|] eqn:Hgs; [|done].
  apply getServer_spec in Hgs as (_ & _ & _ & Hws & _).
  destruct (Client_Get Call server key txid n) as [[n1 r] [e|]].
  - destruct (isLockConflict e); [by intros [= <- _ _ _]|].
    destruct (Abort txn1 n1). by intros [= <- _ _ _].
  - by intros [= <- _ _ _].
Qed.

(** A value in the write set is returned as it is, without any call. *)
Lemma Get_cached txn key (n : Net) v :
  id txn ≠ None → writeSet txn !! key = Some v →
  Get txn key n = Some (txn, n, v, None).
Proof.
  intros Hid Hws. unfold KVClient.Get.
  destruct (id txn); [|done]. by rewrite Hws.
Qed.

(** A [Put] that fails leaves the write set alone; one that succeeds
    adds the pair it wrote. *)
Lemma Put_failed_writeSet txn key value (n : Net) txn' n' e :
  Put txn key value n = Some (txn', n', Some e) → writeSet txn' = writeSet txn.
Proof.
  unfold KVClient.Put.
  destruct (id txn) as [txid|]; [|by intros [= <- _ _]].
  destruct (getServer txn key) as [[txn1 server]|] eqn:Hgs; [|done].
  apply getServer_spec in Hgs as (_ & _ & _ & Hws & _).
  destruct (Client_Put Call server key value txid n) as [n1 [e1|]].
  - destruct (isLockConflict e1); [by intros [= <- _ _]|].
    destruct (Abort txn1 n1). by intros [= <- _ _].
  - done.
Qed.

Lemma Put_ok_writeSet txn key value (n : Net) txn' n' :
  Put txn key value n = Some (txn', n', None) →
  writeSet txn' = <[key := value]> (writeSet txn) ∧
  id txn' = id txn ∧ id txn ≠ None.
Proof.
  unfold KVClient.Put.
  destruct (id txn) as [txid|] eqn:Hid; [|done].
  destruct (getServer txn key) as [[txn1 server]|] eqn:Hgs; [|done].
  apply getServer_spec in Hgs as (_ & _ & Hid1 & Hws & _).
  destruct (Client_Put Call server key value txid n) as [n1 [e1|]].
  { destruct (isLockConflict e1); [done|]. by destruct (Abort txn1 n1). }
  intros [= <- <-]. simpl. rewrite Hws. split; [done|]. split; congruence.
Qed.

(** C7. After a [Put] of [key] and [value] that the server accepted,
    the write set maps [key] to [value], whatever [value] is, and a
    [Get] of [key] returns [value] from the write set: the test is the
    presence of the key, and neither the world nor the list of calls
    sent changes. This is still so after further [Get]s, further [Put]s
    that fail and further [Put]s on other keys. A [Put] that fails
    leaves the write set as it was. *)
Theorem read_your_own_writes txn key value (n : Net) :
  match Put txn key value n with
  | Some (txn', n', None) =>
      writeSet txn' = <[key := value]> (writeSet txn) ∧
      (∀ n2 : Net, Get txn' key n2 = Some (txn', n2, value, None)) ∧
      (∀ key2 (n2 : Net) txn2 n3 v2 err2,
         Get txn' key2 n2 = Some (txn2, n3, v2, err2) →
         writeSet txn2 !! key = Some value) ∧
      (∀ key2 value2 (n2 : Net) txn2 n3 err2,
         Put txn' key2 value2 n2 = Some (txn2, n3, err2) →
         err2 ≠ None ∨ key2 ≠ key →
         writeSet txn2 !! key = Some value)
  | Some (txn', n', Some e) => writeSet txn' = writeSet txn
  | None => serverFromKey key (allServers txn) = None
  end.
Proof.
  destruct (Put txn key value n) as [[[txn' n'] [e|]]|] eqn:HP.
  - by apply Put_failed_writeSet in HP.
  - apply Put_ok_writeSet in HP as (Hws & Hid & Hsome).
    assert (writeSet txn' !! key = Some value) as Hl
      by (rewrite Hws; apply lookup_insert_eq).
    split; [done|]. split; [|split].
    + intros n2. apply Get_cached; [congruence|done].
    + intros key2 n2 txn2 n3 v2 err2 HG. apply Get_writeSet in HG.
      by rewrite HG.
    + intros key2 value2 n2 txn2 n3 [e|] HP2 Hor.
      * apply Put_failed_writeSet in HP2. by rewrite HP2.
      * destruct Hor as [?|Hne]; [done|].
        apply Put_ok_writeSet in HP2 as (-> & _ & _).
        by rewrite lookup_insert_ne.
  - revert HP. unfold KVClient.Put.
    destruct (id txn) as [txid|]; [|done].
    unfold getServer.
    destruct (serverFromKey key (allServers txn)) as [server|]; [|done].
    destruct (Client_Put Call server key value txid n) as [n1 [e1|]]; [|done].
    destruct (isLockConflict e1); [done|].
    by destruct (KVClient.Abort _ _ _ n1).
Qed.

Hypothesis rangeOrder_perm : ∀ s, rangeOrder s ≡ₚ elements s.

Lemma Abort_sent txn txid (n : Net) :
  id txn = Some txid →
  (∃ k, sent (Abort txn n).1
        = sent n ++ abortCalls txid (take k (rangeOrder (usedServers txn)))) ∧
  ((Abort txn n).2 = None →
   ∀ c, c ∈ usedServers txn →
        (c, Server.ReqAbort (kvs.AbortRequest.mk txid)) ∈ sent (Abort txn n).1).
Proof.
  intros Hid. unfold KVClient.Abort. rewrite Hid.
  destruct (abortLoop_sent (rangeOrder (usedServers txn)) txid n)
    as (k & Hk & Hsent & Hall).
  split; [by exists k|].
  intros Hok c Hc. rewrite Hsent, (Hall Hok), firstn_all.
  apply elem_of_app. right. unfold abortCalls.
  apply (list_elem_of_fmap_2 (λ server,
           (server, Server.ReqAbort (kvs.AbortRequest.mk txid)))).
  rewrite rangeOrder_perm. by apply elem_of_elements.
Qed.

(** C6, as the code has it. An RPC error whose text contains
    "Cannot acquire" or contains "Abort:" anywhere (so also one that
    starts with "Abort:") makes [Get] and [Put] return the error
    "lock conflict: ..." without any further call: no Abort is sent. Any
    other RPC error makes them call [Abort], whose calls are Abort calls
    to participants in the order of the walk, and every participant has
    been sent Abort when [Abort] reports no failure; they then return
    the error "server-side error raised: ...". *)
Theorem rpc_error_classification txn txn' key value txid server e (n : Net) :
  id txn = Some txid →
  getServer txn key = Some (txn', server) →
  let getCall := Server.ReqGet (kvs.GetRequest.mk key txid) in
  let putCall := Server.ReqPut (kvs.PutRequest.mk key value txid) in
  let zero := kvs.GetResponse.mk "" in
  (specLockConflict e = true → isLockConflict e = true) ∧
  (writeSet txn !! key = None →
   (rpcCall server getCall zero n).2 = Some e →
   let n1 := (rpcCall server getCall zero n).1.1 in
   sent n1 = sent n ++ [(server, getCall)] ∧
   ∃ n2 err, Get txn key n = Some (txn', n2, "", err) ∧
             afterRpcError Call rangeOrder txn' txid e n1 n2 err) ∧
  ((rpcCall server putCall zero n).2 = Some e →
   let n1 := (rpcCall server putCall zero n).1.1 in
   sent n1 = sent n ++ [(server, putCall)] ∧
   ∃ n2 err, Put txn key value n = Some (txn', n2, err) ∧
             afterRpcError Call rangeOrder txn' txid e n1 n2 err).
Proof.
  intros Hid Hgs getCall putCall zero.
  destruct (getServer_spec _ _ _ _ Hgs) as (_ & _ & Hid' & _ & _).
  rewrite Hid in Hid'.
  split; [apply specLockConflict_isLockConflict|]. split.
  - intros Hws Herr n1. split; [apply rpcCall_sent|].
    unfold KVClient.Get, Client_Get. rewrite Hid, Hws, Hgs.
    subst n1. fold getCall zero.
    destruct (rpcCall server getCall zero n) as [[n1 r] err]. simpl in *.
    subst err. unfold afterRpcError.
    destruct (isLockConflict e); [by eexists _, _|].
    destruct (Abort_sent txn' txid n1 Hid') as [Hk Hall].
    destruct (Abort txn' n1) as [n2 aerr]. simpl in *.
    by eexists _, _.
  - intros Herr n1. split; [apply rpcCall_sent|].
    unfold KVClient.Put, Client_Put. rewrite Hid, Hgs.
    subst n1. fold putCall zero.
    destruct (rpcCall server putCall zero n) as [[n1 r] err]. simpl in *.
    subst err. unfold afterRpcError.
    destruct (isLockConflict e); [by eexists _, _|].
    destruct (Abort_sent txn' txid n1 Hid') as [Hk Hall].
    destruct (Abort txn' n1) as [n2 aerr]. simpl in *.
    by eexists _, _.
Qed.

End Session.

(** The tests of the repository pass on the model. *)
Example TestPutGet_passes :
  TestPutGet = Some ("value", None, "value", None).
Proof. vm_compute. reflexivity. Qed.

Example TestWWConflict_passes :
  TestWWConflict
  = Some (None,
          Some ("lock conflict: " ++ write_conflict_text)%string,
          None, None, Some "c1").
Proof. vm_compute. reflexivity. Qed.

Example TestRWConflict_passes :
  TestRWConflict
  = Some (None,
          Some "lock conflict: Cannot acquire Write Lock, key is read locked by another transaction",
          None,
          Some "lock conflict: Cannot acquire Read Lock, key is currently write locked").
Proof. vm_compute. reflexivity. Qed.

Example put_empty_then_get_cached :
  put_empty_then_get = Some ("", None, 1, 1).
Proof. vm_compute. reflexivity. Qed.

Lemma rpc_error_classification_witness :
  let putCall := Server.ReqPut (kvs.PutRequest.mk "k" "b" 2) in
  let n1 := (rpcCall serveCall 0 putCall (kvs.GetResponse.mk "") net_one_writer).1.1 in
  sent n1 = sent net_one_writer ++ [(0, putCall)] ∧
  ∃ n2 err,
    Put serveCall elements txn_fresh "k" "b" net_one_writer
    = Some (txn_fresh_used, n2, err) ∧
    afterRpcError serveCall elements txn_fresh_used 2 write_conflict_text n1 n2 err.
Proof.
  assert (∀ s : gset Client, elements s ≡ₚ elements s) as Hperm by done.
  assert (id txn_fresh = Some 2%N) as Hid by done.
  assert (getServer txn_fresh "k" = Some (txn_fresh_used, 0)) as Hgs
    by (vm_compute; reflexivity).
  destruct (rpc_error_classification serveCall elements Hperm
              txn_fresh txn_fresh_used "k" "b" 2 0 write_conflict_text
              net_one_writer Hid Hgs) as (_ & _ & HPut).
  apply HPut. vm_compute. reflexivity.
Defined.

(** The claim as worded fails twice. An error text with "Abort:" in the
    middle is not a lock conflict by the wording, yet [Get] answers
    "lock conflict" and sends no Abort. And after another error, with
    two participants, the Abort walk ends at the first failed call: the
    second participant is never sent Abort. *)
Lemma rpc_error_classification_counterexample :
  specLockConflict "rpc: Abort: x" = false ∧
  (∃ txn' n',
     Get (brokenCall "rpc: Abort: x") elements txn_two_servers "k" (mkNet tt [])
     = Some (txn', n', "", Some "lock conflict: rpc: Abort: x") ∧
     sent n' = [(0, Server.ReqGet (kvs.GetRequest.mk "k" 7))]) ∧
  specLockConflict "connection is shut down" = false ∧
  (∃ txn' n',
     Get (brokenCall "connection is shut down") elements txn_two_servers "k"
       (mkNet tt [])
     = Some (txn', n', "",
             Some "server-side error raised: connection is shut down") ∧
     elements (usedServers txn') = [1; 0] ∧
     sent n' = [(0, Server.ReqGet (kvs.GetRequest.mk "k" 7));
                (1, Server.ReqAbort (kvs.AbortRequest.mk 7))]).
Proof.
  split; [reflexivity|]. split.
  { eexists _, _. split; [vm_compute; reflexivity|]. reflexivity. }
  split; [reflexivity|].
  eexists _, _. split; [vm_compute; reflexivity|].
  split; vm_compute; reflexivity.
Qed.

End ClientFacts.

(** * Properties of the retry delays *)

Module RetryFacts.
Import Retry.
Local Open Scope Z_scope.

Lemma int64_small z : - 2 ^ 63 <= z < 2 ^ 63 → int64 z = z.
Proof. intros H. unfold int64. rewrite Z.mod_small; lia. Qed.

Lemma pow2_bounds retry n : 0 <= retry <= n → 1 <= 2 ^ retry <= 2 ^ n.
Proof.
  intros H. split.
  - apply (Z.pow_le_mono_r 2 0 retry); lia.
  - apply Z.pow_le_mono_r; lia.
Qed.

(** Up to attempt 14 nothing wraps: the raw backoff is
    [base * 2^retry] milliseconds. *)
Lemma rawBackoff_exact base retry :
  0 <= retry <= 14 → 0 <= base <= 50 →
  rawBackoff base retry = base * 2 ^ retry * Millisecond.
Proof.
  intros Hr Hb. unfold rawBackoff, shl1.
  rewrite Z.shiftl_1_l.
  pose proof (pow2_bounds retry 14 Hr) as Hp.
  change (2 ^ 14) with 16384 in Hp.
  rewrite (int64_small (2 ^ retry)) by lia.
  assert (0 <= base * 2 ^ retry <= 50 * 16384) by nia.
  rewrite (int64_small (base * 2 ^ retry)) by lia.
  unfold Millisecond. rewrite int64_small; lia.
Qed.

Lemma sleepFor_exact backoffTime draw :
  2 <= backoffTime <= 2 ^ 40 →
  sleepFor backoffTime draw
  = Some (backoffTime + draw mod (backoffTime / 2)) ∧
  0 <= draw mod (backoffTime / 2) < backoffTime / 2.
Proof.
  intros H. unfold sleepFor, Intn.
  rewrite Z.quot_div_nonneg by lia.
  assert (0 < backoffTime / 2) as Hpos.
  { apply Z.div_str_pos. lia. }
  destruct (Z.leb_spec (backoffTime / 2) 0) as [Hle|_]; [lia|].
  pose proof (Z.mod_pos_bound draw (backoffTime / 2) Hpos) as Hm.
  split; [|done]. f_equal. apply int64_small.
  assert (backoffTime / 2 <= backoffTime) by (apply Z.div_le_upper_bound; lia).
  assert (2 ^ 40 < 2 ^ 62) by (apply Z.pow_lt_mono_r; lia).
  assert (2 ^ 63 = 2 * 2 ^ 62) by (change 63 with (Z.succ 62); apply Z.pow_succ_r; lia).
  lia.
Qed.

Lemma transfer_backoffTime retry :
  0 <= retry <= 14 →
  performTransfer.backoffTime retry
  = Z.min (20 * 2 ^ retry * Millisecond) (2 * Second).
Proof.
  intros Hr. unfold performTransfer.backoffTime, performTransfer.baseDelay.
  rewrite rawBackoff_exact by lia.
  destruct (Z.ltb_spec (2 * Second) (20 * 2 ^ retry * Millisecond)); lia.
Qed.

Lemma transfer_backoffTime_bounds retry :
  0 <= retry <= 14 →
  2 <= performTransfer.backoffTime retry <= 2 ^ 40.
Proof.
  intros Hr. rewrite transfer_backoffTime by done.
  pose proof (pow2_bounds retry 14 Hr) as Hp.
  change (2 ^ 14) with 16384 in Hp.
  unfold Second, Millisecond. change (2 ^ 40) with 1099511627776. lia.
Qed.

Lemma balance_backoffTime_bounds retry :
  0 <= retry <= 14 →
  checkTotalBalance.backoffTime retry = 50 * 2 ^ retry * Millisecond ∧
  2 <= checkTotalBalance.backoffTime retry <= 2 ^ 40.
Proof.
  intros Hr. unfold checkTotalBalance.backoffTime.
  rewrite rawBackoff_exact by lia. split; [done|].
  pose proof (pow2_bounds retry 14 Hr) as Hp.
  change (2 ^ 14) with 16384 in Hp.
  unfold Millisecond. change (2 ^ 40) with 1099511627776. lia.
Qed.

(** C9, as the code has it. In the transfer loop an attempt [retry]
    that is not the last one sleeps [d + j] with
    [d = min(20 ms * 2^retry, 2 s)] and a jitter [j] taken by [Intn] from
    [[0, d/2)]; the last attempt does not sleep. In the balance-check
    loop every attempt sleeps [d + j] with [d = 50 ms * 2^retry], without
    a cap, and [j] taken from [[0, d/2)]. Every jitter of the range can
    occur. *)
Theorem backoff_delays retry draw :
  0 <= retry →
  (retry < performTransfer.maxRetries - 1 →
   let d := Z.min (20 * 2 ^ retry * Millisecond) (2 * Second) in
   let j := draw mod (d / 2) in
   performTransfer.conflictSleep retry draw = Some (Some (d + j)) ∧
   0 <= j < d / 2 ∧
   (0 <= draw < d / 2 → j = draw)) ∧
  (retry = performTransfer.maxRetries - 1 →
   performTransfer.conflictSleep retry draw = Some None) ∧
  (retry < checkTotalBalance.maxRetries →
   let d := 50 * 2 ^ retry * Millisecond in
   let j := draw mod (d / 2) in
   checkTotalBalance.conflictSleep retry draw = Some (Some (d + j)) ∧
   0 <= j < d / 2 ∧
   (0 <= draw < d / 2 → j = draw)).
Proof.
  intros Hr. split; [|split].
  - intros Hlt d j. unfold performTransfer.maxRetries in Hlt.
    unfold performTransfer.conflictSleep.
    unfold performTransfer.maxRetries.
    destruct (Z.ltb_spec retry (15 - 1)) as [_|?]; [|lia].
    pose proof (transfer_backoffTime retry ltac:(lia)) as Hd. fold d in Hd.
    pose proof (transfer_backoffTime_bounds retry ltac:(lia)) as Hb.
    destruct (sleepFor_exact _ draw Hb) as [-> Hj]. rewrite Hd in *.
    split; [done|]. split; [done|]. intros Hdraw. by apply Z.mod_small.
  - intros ->. reflexivity.
  - intros Hlt d j. unfold checkTotalBalance.maxRetries in Hlt.
    unfold checkTotalBalance.conflictSleep.
    destruct (balance_backoffTime_bounds retry ltac:(lia)) as [Hd Hb].
    fold d in Hd.
    destruct (sleepFor_exact _ draw Hb) as [-> Hj]. rewrite Hd in *.
    split; [done|]. split; [done|]. intros Hdraw. by apply Z.mod_small.
Qed.

Lemma backoff_delays_witness :
  performTransfer.conflictSleep 3 12345 = Some (Some (160 * Millisecond + 12345)) ∧
  checkTotalBalance.conflictSleep 3 12345 = Some (Some (400 * Millisecond + 12345)).
Proof.
  assert (0 <= 3) as H by lia.
  destruct (backoff_delays 3 12345 H) as (Ht & _ & Hb).
  split.
  - exact (proj1 (Ht ltac:(unfold performTransfer.maxRetries; lia))).
  - exact (proj1 (Hb ltac:(unfold checkTotalBalance.maxRetries; lia))).
Defined.

(** In the balance-check loop attempt 6 sleeps at least 3.2 s, more than
    the capped 2 s plus any jitter below 1 s. *)
Lemma backoff_delays_counterexample :
  checkTotalBalance.conflictSleep 6 0 = Some (Some (3200 * Millisecond)) ∧
  Z.min (50 * 2 ^ 6 * Millisecond) (2 * Second) = 2 * Second ∧
  ¬ (∃ j, 0 <= j < 2 * Second / 2 ∧ 3200 * Millisecond = 2 * Second + j).
Proof.
  split; [reflexivity|]. split; [reflexivity|].
  intros (j & Hj & He). change (2 * Second / 2) with 1000000000 in Hj.
  unfold Second, Millisecond in He. lia.
Qed.

End RetryFacts.

(** * More properties of the server *)

Module ServerMore.
Import Server ServerFacts ServerExtra.

Lemma holdsRead_lockOf kv key t :
  holdsRead kv key t ↔ t ∈ readHolders (lockOf kv key).
Proof.
  unfold holdsRead, lockOf. destruct (locks kv !! key) as [lockInfo|]; simpl.
  - split; [by intros (li & [= <-] & ?)|]. intros ?. by exists lockInfo.
  - split; [by intros (li & ? & _)|]. intros H. by apply not_elem_of_empty in H.
Qed.

(** X1. [acquireReadLock] succeeds exactly when no transaction other
    than [txid] holds the write lock of the key. A conflict changes
    nothing and its text contains "Cannot acquire"; when [txid] is the
    writer nothing changes either (it is not added to the readers);
    otherwise [txid] joins the readers of the key, the readers that
    were there stay, and nothing else changes. *)
Theorem acquireReadLock_spec kv key txid :
  let lockInfo := lockOf kv key in
  let kv' := (acquireReadLock kv key txid).1 in
  let err := (acquireReadLock kv key txid).2 in
  (err = None ↔ ∀ w, writeHolder lockInfo = Some w → w = txid) ∧
  (err ≠ None →
     kv' = kv ∧ ∃ e, err = Some e ∧ strings.Contains e "Cannot acquire" = true) ∧
  (writeHolder lockInfo = Some txid → kv' = kv) ∧
  (writeHolder lockInfo = None →
     locks kv' !! key =
       Some {| readHolders := {[txid]} ∪ readHolders lockInfo;
               writeHolder := None |} ∧
     holdsRead kv' key txid ∧
     (∀ r, holdsRead kv key r → holdsRead kv' key r) ∧
     (∀ k, k ≠ key → locks kv' !! k = locks kv !! k) ∧
     mp kv' = mp kv ∧ transactions kv' = transactions kv ∧
     stats kv' = stats kv).
Proof.
  intros lockInfo kv' err. subst kv' err lockInfo.
  destruct (acquireReadLock_outcome kv key txid) as [e Hc He|Hh|Hn]; simpl.
  - destruct Hc as (w & Hw & Hne). split.
    { split; [done|]. intros H. destruct Hne. by apply H. }
    split; [intros _; split; [done|by exists e]|].
    split; [done|]. intros ?. congruence.
  - split; [split; [|done]; intros _ w; congruence|].
    split; [done|]. split; [done|]. intros ?. congruence.
  - split; [split; [|done]; intros _ w; congruence|].
    split; [done|]. split; [intros ?; congruence|].
    intros _. rewrite !holdsRead_lockOf, lookup_insert_eq.
    split; [done|]. split.
    { rewrite lockOf_insert. destruct (decide (key = key)); [|done].
      simpl. apply elem_of_union_l. by apply elem_of_singleton. }
    split.
    { intros r. rewrite !holdsRead_lockOf, lockOf_insert.
      destruct (decide (key = key)); [|done]. simpl. intros ?.
      by apply elem_of_union_r. }
    split; [|done]. intros k Hk. by rewrite lookup_insert_ne.
Qed.

(** *** What a request does to the locks *)

Lemma same_for_refl t a : same_for t a a.
Proof. by split. Qed.

Lemma same_for_trans t a b c : same_for t a b → same_for t b c → same_for t a c.
Proof. intros [H1 H2] [H3 H4]. split; [by rewrite H1|by rewrite H2]. Qed.

Lemma released_same_for txid t lockInfo :
  t ≠ txid → same_for t (released txid lockInfo) lockInfo.
Proof.
  intros Hne. unfold same_for, released. simpl. split.
  - name_readers. set_solver.
  - destruct (writer_is lockInfo txid) eqn:E; [|done].
    apply writer_is_true in E. rewrite E. split; [done|]. congruence.
Qed.

Lemma released_NewLockInfo txid : released txid NewLockInfo = NewLockInfo.
Proof. unfold released, NewLockInfo. simpl. f_equal. set_solver. Qed.

Lemma lockOf_releaseLocks kv txid k :
  lockOf (releaseLocks kv txid) k
  = match transactions kv !! txid with
    | Some ops =>
        if decide (k ∈ map Key ops) then released txid (lockOf kv k)
        else lockOf kv k
    | None => lockOf kv k
    end.
Proof.
  unfold releaseLocks, lockOf. simpl.
  destruct (transactions kv !! txid) as [ops|]; [|done].
  rewrite releaseKeys_lookup.
  destruct (decide (k ∈ map Key ops)); [|done].
  destruct (locks kv !! k); simpl; [done|].
  by rewrite released_NewLockInfo.
Qed.

Lemma releaseLocks_same_for kv txid t k :
  t ≠ txid → same_for t (lockOf (releaseLocks kv txid) k) (lockOf kv k).
Proof.
  intros Hne. rewrite lockOf_releaseLocks.
  destruct (transactions kv !! txid) as [ops|]; [|apply same_for_refl].
  destruct (decide (k ∈ map Key ops)); [|apply same_for_refl].
  by apply released_same_for.
Qed.

Lemma acquireReadLock_same_for kv key txid t k :
  t ≠ txid →
  same_for t (lockOf (acquireReadLock kv key txid).1 k) (lockOf kv k).
Proof.
  intros Hne.
  destruct (acquireReadLock_outcome kv key txid) as [e Hc He|Hh|Hn]; simpl;
    try apply same_for_refl.
  rewrite lockOf_insert. destruct (decide (key = k)) as [<-|]; [|apply same_for_refl].
  split; simpl.
  - name_readers. set_solver.
  - by rewrite Hn.
Qed.

Lemma acquireWriteLock_same_for kv key txid t k :
  t ≠ txid →
  same_for t (lockOf (acquireWriteLock kv key txid).1 k) (lockOf kv k).
Proof.
  intros Hne.
  destruct (acquireWriteLock_outcome kv key txid) as [Hh|Hn Hr|e Hc He]; simpl;
    try apply same_for_refl.
  rewrite lockOf_insert. destruct (decide (key = k)) as [<-|]; [|apply same_for_refl].
  split; simpl.
  - name_readers. set_solver.
  - rewrite Hn. split; [|done]. congruence.
Qed.

Lemma step_same_for kv r t k :
  txidOf r ≠ t → same_for t (lockOf (step kv r) k) (lockOf kv k).
Proof.
  intros Hne.
  destruct r as [request|request|request|request]; simpl in Hne.
  - rewrite step_Get, Get_unfold.
    pose proof (acquireReadLock_same_for
                  (ensureTransaction kv (kvs.GetRequest.Txid request))
                  (kvs.GetRequest.Key request) (kvs.GetRequest.Txid request)
                  t k ltac:(done)) as Ha.
    rewrite (lockOf_locks_eq (ensureTransaction _ _) kv) in Ha
      by apply ensureTransaction_locks.
    destruct (acquireReadLock _ _ _) as [kv1 [e|]]; simpl in *; [|done].
    apply (same_for_trans _ _ (lockOf kv1 k)); [|done].
    rewrite (lockOf_locks_eq _ (releaseLocks kv1 (kvs.GetRequest.Txid request)))
      by done.
    by apply releaseLocks_same_for.
  - rewrite step_Put, Put_unfold.
    pose proof (acquireWriteLock_same_for
                  (ensureTransaction kv (kvs.PutRequest.Txid request))
                  (kvs.PutRequest.Key request) (kvs.PutRequest.Txid request)
                  t k ltac:(done)) as Ha.
    rewrite (lockOf_locks_eq (ensureTransaction _ _) kv) in Ha
      by apply ensureTransaction_locks.
    destruct (acquireWriteLock _ _ _) as [kv1 [e|]]; simpl in *; [|done].
    apply (same_for_trans _ _ (lockOf kv1 k)); [|done].
    rewrite (lockOf_locks_eq _ (releaseLocks kv1 (kvs.PutRequest.Txid request)))
      by done.
    by apply releaseLocks_same_for.
  - rewrite step_Commit.
    destruct (Commit_unfold kv request) as (kv1 & -> & Hk & _ & _). simpl.
    rewrite <- (lockOf_locks_eq kv1 kv) by done.
    by apply releaseLocks_same_for.
  - rewrite step_Abort. simpl.
    rewrite (lockOf_locks_eq _ (releaseLocks kv (kvs.AbortRequest.Txid request)))
      by done.
    by apply releaseLocks_same_for.
Qed.

(** X2. No request of one transaction changes what another transaction
    holds or has logged: for a transaction [t] other than the one the
    request names, the read locks and the write locks of [t] and the log
    of [t] are the same before and after, whether the request succeeds,
    conflicts, commits or aborts. *)
Theorem request_leaves_other_transactions kv r t k :
  txidOf r ≠ t →
  (holdsRead (step kv r) k t ↔ holdsRead kv k t) ∧
  (holdsWrite (step kv r) k t ↔ holdsWrite kv k t) ∧
  transactions (step kv r) !! t = transactions kv !! t.
Proof.
  intros Hne. destruct (step_same_for kv r t k Hne) as [Hr Hw].
  rewrite !holdsRead_lockOf, !holdsWrite_lockOf.
  split; [done|]. split; [done|]. by apply step_other_log.
Qed.

Lemma request_leaves_other_transactions_witness :
  let kv := run NewKVService rs_two_txns in
  let r := ReqAbort (kvs.AbortRequest.mk 5) in
  (holdsRead (step kv r) "a" 6 ↔ holdsRead kv "a" 6) ∧
  (holdsWrite (step kv r) "a" 6 ↔ holdsWrite kv "a" 6) ∧
  transactions (step kv r) !! 6%N = transactions kv !! 6%N.
Proof.
  apply (request_leaves_other_transactions
           (run NewKVService rs_two_txns)
           (ReqAbort (kvs.AbortRequest.mk 5)) 6 "a").
  vm_compute. discriminate.
Defined.

(** Acquiring never takes a lock away from anybody when it succeeds, and
    never takes a write lock away at all. *)
Lemma acquireReadLock_keeps kv key txid k t :
  (t ∈ readHolders (lockOf kv k) →
   t ∈ readHolders (lockOf (acquireReadLock kv key txid).1 k)) ∧
  (writeHolder (lockOf kv k) = Some t →
   writeHolder (lockOf (acquireReadLock kv key txid).1 k) = Some t).
Proof.
  destruct (acquireReadLock_outcome kv key txid) as [e Hc He|Hh|Hn]; simpl;
    try done.
  rewrite lockOf_insert. destruct (decide (key = k)) as [<-|]; [|done].
  simpl. split; [|congruence]. intros ?. by apply elem_of_union_r.
Qed.

Lemma acquireWriteLock_keeps kv key txid k t :
  (t ∈ readHolders (lockOf kv k) ∨ writeHolder (lockOf kv k) = Some t →
   t ∈ readHolders (lockOf (acquireWriteLock kv key txid).1 k) ∨
   writeHolder (lockOf (acquireWriteLock kv key txid).1 k) = Some t) ∧
  (writeHolder (lockOf kv k) = Some t →
   writeHolder (lockOf (acquireWriteLock kv key txid).1 k) = Some t).
Proof.
  destruct (acquireWriteLock_outcome kv key txid) as [Hh|Hn Hr|e Hc He]; simpl;
    try done.
  rewrite lockOf_insert. destruct (decide (key = k)) as [<-|]; [|done].
  simpl. split; [|congruence].
  intros [Hin|?]; [|congruence]. right. f_equal.
  apply Hr in Hin. by apply elem_of_singleton in Hin.
Qed.

Lemma holds_lockOf' kv k t :
  holdsRead kv k t ∨ holdsWrite kv k t ↔
  t ∈ readHolders (lockOf kv k) ∨ writeHolder (lockOf kv k) = Some t.
Proof. by rewrite holdsRead_lockOf, holdsWrite_lockOf. Qed.

Lemma Get_ok_locks kv request response :
  (Get kv request response).2 = None →
  locks (Get kv request response).1.1
  = locks (acquireReadLock (ensureTransaction kv (kvs.GetRequest.Txid request))
             (kvs.GetRequest.Key request) (kvs.GetRequest.Txid request)).1 ∧
  (acquireReadLock (ensureTransaction kv (kvs.GetRequest.Txid request))
     (kvs.GetRequest.Key request) (kvs.GetRequest.Txid request)).2 = None.
Proof.
  rewrite Get_unfold. by destruct (acquireReadLock _ _ _) as [kv1 [e|]].
Qed.

Lemma Put_ok_locks kv request :
  (Put kv request).2 = None →
  locks (Put kv request).1
  = locks (acquireWriteLock (ensureTransaction kv (kvs.PutRequest.Txid request))
             (kvs.PutRequest.Key request) (kvs.PutRequest.Txid request)).1 ∧
  (acquireWriteLock (ensureTransaction kv (kvs.PutRequest.Txid request))
     (kvs.PutRequest.Key request) (kvs.PutRequest.Txid request)).2 = None.
Proof.
  rewrite Put_unfold. by destruct (acquireWriteLock _ _ _) as [kv1 [e|]].
Qed.

Lemma acquireReadLock_ok_holds kv key txid :
  (acquireReadLock kv key txid).2 = None →
  txid ∈ readHolders (lockOf (acquireReadLock kv key txid).1 key) ∨
  writeHolder (lockOf (acquireReadLock kv key txid).1 key) = Some txid.
Proof.
  destruct (acquireReadLock_outcome kv key txid) as [e Hc He|Hh|Hn]; simpl;
    [done|auto|].
  intros _. left. rewrite lockOf_insert.
  destruct (decide (key = key)); [|done]. simpl.
  apply elem_of_union_l. by apply elem_of_singleton.
Qed.

Lemma acquireWriteLock_ok_holds kv key txid :
  (acquireWriteLock kv key txid).2 = None →
  writeHolder (lockOf (acquireWriteLock kv key txid).1 key) = Some txid.
Proof.
  destruct (acquireWriteLock_outcome kv key txid) as [Hh|Hn Hr|e Hc He]; simpl;
    [auto| |done].
  intros _. rewrite lockOf_insert. by destruct (decide (key = key)).
Qed.

(** The locks after a successful [Get] or [Put], entry by entry. *)
Lemma step_ok_lockOf kv r op :
  recordOf r = Some op → (serve kv r).2 = None →
  (∀ k t, t ∈ readHolders (lockOf kv k) ∨ writeHolder (lockOf kv k) = Some t →
          t ∈ readHolders (lockOf (step kv r) k) ∨
          writeHolder (lockOf (step kv r) k) = Some t) ∧
  (∀ k t, writeHolder (lockOf kv k) = Some t →
          writeHolder (lockOf (step kv r) k) = Some t) ∧
  (txidOf r ∈ readHolders (lockOf (step kv r) (Key op)) ∨
   writeHolder (lockOf (step kv r) (Key op)) = Some (txidOf r)) ∧
  (OpType op = "PUT" →
   writeHolder (lockOf (step kv r) (Key op)) = Some (txidOf r)).
Proof.
  intros Hop Hok.
  destruct r as [request|request|request|request]; try done;
    injection Hop as <-.
  - rewrite serve_Get_err in Hok. rewrite step_Get.
    destruct (Get_ok_locks kv request _ Hok) as [Hl Ha].
    set (kv0 := ensureTransaction kv (kvs.GetRequest.Txid request)) in *.
    set (kv1 := (acquireReadLock kv0 _ _).1) in *.
    assert (∀ k, lockOf kv0 k = lockOf kv k) as H0.
    { intros k. apply lockOf_locks_eq, ensureTransaction_locks. }
    assert (∀ k, lockOf (Get kv request (kvs.GetResponse.mk "")).1.1 k
                 = lockOf kv1 k) as H1.
    { intros k. by apply lockOf_locks_eq. }
    split; [|split; [|split]].
    + intros k t. rewrite H1, <- H0.
      destruct (acquireReadLock_keeps kv0 (kvs.GetRequest.Key request)
                  (kvs.GetRequest.Txid request) k t) as [Hr Hw].
      intros [?|?]; auto.
    + intros k t. rewrite H1, <- H0. apply acquireReadLock_keeps.
    + rewrite H1. simpl. by apply acquireReadLock_ok_holds.
    + done.
  - change (serve kv (ReqPut request)) with (Put kv request) in Hok.
    rewrite step_Put.
    destruct (Put_ok_locks kv request Hok) as [Hl Ha].
    set (kv0 := ensureTransaction kv (kvs.PutRequest.Txid request)) in *.
    set (kv1 := (acquireWriteLock kv0 _ _).1) in *.
    assert (∀ k, lockOf kv0 k = lockOf kv k) as H0.
    { intros k. apply lockOf_locks_eq, ensureTransaction_locks. }
    assert (∀ k, lockOf (Put kv request).1 k = lockOf kv1 k) as H1.
    { intros k. by apply lockOf_locks_eq. }
    assert (writeHolder (lockOf kv1 (kvs.PutRequest.Key request))
            = Some (kvs.PutRequest.Txid request)) as Hw
      by by apply acquireWriteLock_ok_holds.
    split; [|split; [|split]].
    + intros k t. rewrite H1, <- H0. apply acquireWriteLock_keeps.
    + intros k t. rewrite H1, <- H0. apply acquireWriteLock_keeps.
    + rewrite H1. simpl. by right.
    + intros _. by rewrite H1.
Qed.

(** X3. A [Get] or [Put] that succeeds releases nothing: every lock held
    before, by any transaction, is still held afterwards, a write lock
    still as a write lock; and afterwards the caller holds a lock on the
    key of the request, the write lock when the request is a [Put]. *)
Theorem successful_request_keeps_locks kv r op :
  recordOf r = Some op → (serve kv r).2 = None →
  (∀ k t, holdsRead kv k t ∨ holdsWrite kv k t →
          holdsRead (step kv r) k t ∨ holdsWrite (step kv r) k t) ∧
  (∀ k t, holdsWrite kv k t → holdsWrite (step kv r) k t) ∧
  (holdsRead (step kv r) (Key op) (txidOf r) ∨
   holdsWrite (step kv r) (Key op) (txidOf r)) ∧
  (OpType op = "PUT" → holdsWrite (step kv r) (Key op) (txidOf r)).
Proof.
  intros Hop Hok.
  destruct (step_ok_lockOf kv r op Hop Hok) as (Hall & Hw & Hown & Hput).
  split; [|split; [|split]].
  - intros k t. rewrite !holds_lockOf'. apply Hall.
  - intros k t. rewrite !holdsWrite_lockOf. apply Hw.
  - by rewrite holds_lockOf'.
  - intros HP. rewrite holdsWrite_lockOf. by apply Hput.
Qed.

Lemma successful_request_keeps_locks_witness :
  let kv := run NewKVService rs_two_txns in
  let r := ReqPut (kvs.PutRequest.mk "c" "y" 6) in
  (∀ k t, holdsWrite kv k t → holdsWrite (step kv r) k t) ∧
  holdsWrite (step kv r) "c" 6.
Proof.
  intros kv r.
  destruct (successful_request_keeps_locks kv r
              (mkOperation "PUT" "c" "y") eq_refl)
    as (_ & Hw & _ & Hp).
  - vm_compute. reflexivity.
  - split; [exact Hw|]. by apply Hp.
Defined.

(** *** Put *)

Lemma other_element (X : gset N) txid :
  1 < size X → ∃ r, r ∈ X ∧ r ≠ txid.
Proof.
  intros Hs. destruct (decide (X ∖ {[txid]} = ∅)) as [He|Hne].
  - assert (X ⊆ {[txid]}) as Hsub.
    { intros r Hr. destruct (decide (r = txid)) as [->|Hne]; [set_solver|].
      exfalso. clear Hs. set_solver. }
    apply subseteq_size in Hsub. rewrite size_singleton in Hsub. lia.
  - apply set_choose_L in Hne as [r Hr]. exists r. clear Hs. set_solver.
Qed.

Lemma lockOf_ok kv key :
  locks_ok kv → writeHolder (lockOf kv key) ≠ None →
  readHolders (lockOf kv key) = ∅.
Proof.
  intros Hok. unfold lockOf.
  destruct (locks kv !! key) as [lockInfo|] eqn:E; simpl; [|done].
  by apply (Hok key).
Qed.

(** X4. [Put] in a state the server can reach. It fails exactly when
    another transaction holds the write lock or a read lock of the key;
    the error text contains "Cannot acquire", and afterwards [txid]
    holds no lock at all and has no table entry, [aborts] has been
    incremented and the store is unchanged. Otherwise it returns [nil],
    the log of [txid] has one more record, the PUT of the key and value,
    [txid] holds the write lock of the key and is not among its readers,
    [puts] has been incremented and the store is unchanged. *)
Theorem Put_spec rs request :
  let kv := run NewKVService rs in
  let key := kvs.PutRequest.Key request in
  let txid := kvs.PutRequest.Txid request in
  let kv' := (Put kv request).1 in
  match (Put kv request).2 with
  | Some e =>
      strings.Contains e "Cannot acquire" = true ∧
      (∃ t, (holdsRead kv key t ∨ holdsWrite kv key t) ∧ t ≠ txid) ∧
      (∀ k, ¬ holdsRead kv' k txid ∧ ¬ holdsWrite kv' k txid) ∧
      transactions kv' !! txid = None ∧
      aborts (stats kv') = uint64_add (aborts (stats kv)) 1 ∧
      puts (stats kv') = puts (stats kv) ∧
      mp kv' = mp kv
  | None =>
      (∀ t, holdsRead kv key t ∨ holdsWrite kv key t → t = txid) ∧
      transactions kv' !! txid
      = Some (default [] (transactions kv !! txid) ++
              [mkOperation "PUT" key (kvs.PutRequest.Value request)]) ∧
      holdsWrite kv' key txid ∧ ¬ holdsRead kv' key txid ∧
      puts (stats kv') = uint64_add (puts (stats kv)) 1 ∧
      aborts (stats kv') = aborts (stats kv) ∧
      mp kv' = mp kv
  end.
Proof.
  intros kv key txid kv'. subst kv'.
  pose proof (Put_mp kv request) as Hmp.
  assert (locks_logged kv) as Hl by apply locks_logged_reachable.
  assert (locks_ok kv) as Hok by apply lock_inv_locks_ok, lock_inv_reachable.
  revert Hmp. rewrite Put_unfold. fold key txid.
  set (kv0 := ensureTransaction kv txid).
  assert (locks_logged kv0) as Hl0 by by apply ensureTransaction_logged.
  assert (∀ k, lockOf kv0 k = lockOf kv k) as H0.
  { intros k. apply lockOf_locks_eq, ensureTransaction_locks. }
  assert (stats kv0 = stats kv) as Hs0.
  { unfold kv0, ensureTransaction. by destruct (transactions kv !! txid). }
  destruct (acquireWriteLock_outcome kv0 key txid) as [Hh|Hn Hr|e Hc He]; simpl.
  - intros Hmp. rewrite H0 in Hh. split.
    { intros t. rewrite holds_lockOf', lockOf_ok by (done || congruence).
      intros [Hin|?]; [|congruence]. by apply not_elem_of_empty in Hin. }
    split.
    { rewrite lookup_insert_eq. unfold kv0. by rewrite ensureTransaction_lookup. }
    split.
    { apply holdsWrite_lockOf. by rewrite (lockOf_locks_eq _ kv0), H0. }
    split.
    { rewrite holdsRead_lockOf, (lockOf_locks_eq _ kv0), H0 by done.
      rewrite lockOf_ok by (done || congruence). apply not_elem_of_empty. }
    by rewrite Hs0.
  - intros Hmp. rewrite H0 in Hn, Hr. split.
    { intros t. rewrite holds_lockOf'. intros [Hin|?]; [|congruence].
      apply Hr in Hin. by apply elem_of_singleton in Hin. }
    split.
    { rewrite lookup_insert_eq. unfold kv0. by rewrite ensureTransaction_lookup. }
    split.
    { apply holdsWrite_lockOf. unfold lockOf at 1. simpl.
      by rewrite lookup_insert_eq. }
    split.
    { rewrite holdsRead_lockOf. unfold lockOf at 1. simpl.
      rewrite lookup_insert_eq. simpl. clear. name_readers. set_solver. }
    by rewrite Hs0.
  - intros Hmp. split; [done|]. rewrite H0 in Hc. split.
    { destruct Hc as [(w & Hw & Hne)|[_ [Hs|(r & Hr & Hne)]]].
      - exists w. rewrite holds_lockOf'. auto.
      - destruct (other_element _ txid Hs) as (r & Hin & Hne).
        exists r. rewrite holds_lockOf'. auto.
      - exists r. rewrite holds_lockOf', Hr. split; [|done].
        left. by apply elem_of_singleton. }
    destruct (releaseLocks_logged kv0 txid Hl0) as (_ & Hno & Hnone).
    split.
    { intros k. split; intros H; apply (Hno k); [by left|by right]. }
    split; [exact Hnone|]. by rewrite Hs0.
Qed.

(** *** Every logged operation is covered by a lock *)

Lemma step_logs_locked kv r : logs_locked kv → logs_locked (step kv r).
Proof.
  intros Hinv t ops' op Hlog Hin.
  unfold holds. rewrite holds_lockOf', holdsWrite_lockOf.
  assert (∀ ops, transactions kv !! t = Some ops → op ∈ ops →
            (t ∈ readHolders (lockOf kv (Key op)) ∨
             writeHolder (lockOf kv (Key op)) = Some t) ∧
            (OpType op = "PUT" → writeHolder (lockOf kv (Key op)) = Some t))
    as Hold.
  { intros ops Hops Hop. destruct (Hinv t ops op Hops Hop) as [Hh Hw].
    unfold holds in Hh. rewrite holds_lockOf' in Hh.
    by rewrite holdsWrite_lockOf in Hw. }
  destruct (decide (txidOf r = t)) as [<-|Hne].
  - destruct (recordOf r) as [op0|] eqn:Hrec.
    + destruct (serve kv r).2 as [e|] eqn:Herr.
      * rewrite serve_err_log in Hlog by congruence. done.
      * rewrite (serve_ok_log _ _ op0) in Hlog by done.
        injection Hlog as <-.
        destruct (step_ok_lockOf kv r op0 Hrec Herr) as (Hall & Hw & Hown & Hput).
        apply elem_of_app in Hin as [Hin|Hin].
        -- destruct (transactions kv !! txidOf r) as [ops|] eqn:Hops;
             [|by apply elem_of_nil in Hin].
           destruct (Hold ops eq_refl Hin) as [Hh Hp]. auto.
        -- apply list_elem_of_singleton in Hin. by subst op.
    + rewrite step_ends_log in Hlog by done. done.
  - rewrite step_other_log in Hlog by done.
    destruct (step_same_for kv r t (Key op) Hne) as [Hr Hw].
    destruct (Hold ops' Hlog Hin) as [Hh Hp].
    rewrite Hr, Hw. auto.
Qed.

Lemma run_logs_locked rs kv : logs_locked kv → logs_locked (run kv rs).
Proof.
  revert kv. induction rs as [|r rs IH]; intros kv H; [done|].
  simpl. apply IH. by apply step_logs_locked.
Qed.

Lemma logs_locked_reachable rs : logs_locked (run NewKVService rs).
Proof.
  apply run_logs_locked. intros t ops op Ht. simpl in Ht.
  by rewrite lookup_empty in Ht.
Qed.

(** X5. In every state the server can reach, a transaction holds a lock
    on the key of every record of its log, and for a PUT record it holds
    the write lock and no other transaction holds any lock on that key:
    what [Commit] will write is locked exclusively by the committer. *)
Theorem logged_operations_are_locked rs t ops op :
  let kv := run NewKVService rs in
  transactions kv !! t = Some ops → op ∈ ops →
  (holdsRead kv (Key op) t ∨ holdsWrite kv (Key op) t) ∧
  (OpType op = "PUT" →
   holdsWrite kv (Key op) t ∧ ¬ holdsRead kv (Key op) t ∧
   ∀ t', holdsRead kv (Key op) t' ∨ holdsWrite kv (Key op) t' → t' = t).
Proof.
  intros kv Hlog Hin.
  destruct (logs_locked_reachable rs t ops op Hlog Hin) as [Hh Hw].
  split; [done|]. intros HP. specialize (Hw HP).
  destruct (lock_inv_reachable rs (Key op) t Hw) as (Hone & Hothers & Hself).
  split; [done|]. split; [done|].
  intros t' [Hr|Hw']; auto.
Qed.

Lemma logged_operations_are_locked_witness :
  let kv := run NewKVService rs_two_txns in
  holdsWrite kv "b" 5 ∧ ¬ holdsRead kv "b" 5 ∧
  ∀ t', holdsRead kv "b" t' ∨ holdsWrite kv "b" t' → t' = 5%N.
Proof.
  intros kv.
  destruct (logged_operations_are_locked rs_two_txns 5
              [mkOperation "GET" "a" ""; mkOperation "PUT" "b" "x"]
              (mkOperation "PUT" "b" "x")) as [_ H].
  - vm_compute. reflexivity.
  - apply elem_of_cons. right. apply elem_of_cons. by left.
  - by apply H.
Defined.

(** *** A committed write becomes readable, an uncommitted one is not *)

Lemma Get_conflict_iff kv request response :
  (Get kv request response).2 ≠ None ↔
  ∃ w, writeHolder (lockOf kv (kvs.GetRequest.Key request)) = Some w ∧
       w ≠ kvs.GetRequest.Txid request.
Proof.
  rewrite Get_unfold.
  set (kv0 := ensureTransaction kv (kvs.GetRequest.Txid request)).
  assert (lockOf kv0 (kvs.GetRequest.Key request)
          = lockOf kv (kvs.GetRequest.Key request)) as H0.
  { apply lockOf_locks_eq, ensureTransaction_locks. }
  destruct (acquireReadLock_outcome kv0 (kvs.GetRequest.Key request)
              (kvs.GetRequest.Txid request)) as [e Hc He|Hh|Hn];
    simpl; rewrite H0 in *.
  - split; [by intros _|done].
  - split; [done|]. intros (w & Hw & Hne). congruence.
  - split; [done|]. intros (w & Hw & Hne). congruence.
Qed.

Lemma Get_ok_value kv request response :
  (Get kv request response).2 = None →
  kvs.GetResponse.Value (Get kv request response).1.2
  = default "" (mp kv !! kvs.GetRequest.Key request).
Proof.
  rewrite Get_unfold. by destruct (acquireReadLock _ _ _) as [kv1 [e|]].
Qed.

(** X6. Let the log of [txid], in a state the server can reach, contain
    a PUT on [key], the last one with value [v]. Before [txid] commits,
    a [Get] of [key] by any other transaction fails. After the [Commit]
    of [txid], a [Get] of [key] by any transaction succeeds and returns
    [v]. *)
Theorem committed_write_is_read rs request key v ops t response :
  let kv := run NewKVService rs in
  let txid := kvs.CommitRequest.Txid request in
  transactions kv !! txid = Some ops → lastPut key ops = Some v →
  (t ≠ txid → (Get kv (kvs.GetRequest.mk key t) response).2 ≠ None) ∧
  let kv1 := (Commit kv request).1 in
  (Get kv1 (kvs.GetRequest.mk key t) response).2 = None ∧
  kvs.GetResponse.Value (Get kv1 (kvs.GetRequest.mk key t) response).1.2 = v.
Proof.
  intros kv txid Hlog Hlast.
  pose proof (lastPut_elem _ _ _ Hlast) as Hin.
  destruct (logs_locked_reachable rs txid ops _ Hlog Hin) as [_ Hw].
  specialize (Hw eq_refl). simpl in Hw. apply holdsWrite_lockOf in Hw.
  fold kv in Hw.
  split.
  { intros Hne. apply Get_conflict_iff. simpl. exists txid. auto. }
  intros kv1.
  assert (writeHolder (lockOf kv1 key) = None) as Hfree.
  { unfold kv1. destruct (Commit_unfold kv request) as (kv' & -> & Hk & Ht & _).
    simpl. rewrite lockOf_releaseLocks. fold txid. rewrite Ht, Hlog.
    destruct (decide (key ∈ map Key ops)) as [_|Hn].
    - rewrite (lockOf_locks_eq kv' kv) by done. unfold released. simpl.
      destruct (writer_is (lockOf kv key) txid) eqn:E; [done|].
      apply writer_is_true in Hw. congruence.
    - destruct Hn. apply (list_elem_of_fmap_2 Key) in Hin. done. }
  assert ((Get kv1 (kvs.GetRequest.mk key t) response).2 = None) as Hok.
  { destruct (Get kv1 _ response).2 as [e|] eqn:E; [|done].
    assert ((Get kv1 (kvs.GetRequest.mk key t) response).2 ≠ None) as Hc
      by congruence.
    apply Get_conflict_iff in Hc as (w & Hc & _). simpl in Hc. congruence. }
  assert (mp kv1 !! key = Some v) as Hv.
  { unfold kv1. destruct (Commit_unfold kv request) as (kv' & -> & _ & _ & Hm).
    change (mp (releaseLocks kv' (kvs.CommitRequest.Txid request), None).1)
      with (mp kv').
    fold txid in Hm. rewrite Hm, Hlog. simpl.
    by rewrite foldl_applyOp_lookup, Hlast. }
  split; [done|]. rewrite Get_ok_value by done.
  change (kvs.GetRequest.Key (kvs.GetRequest.mk key t)) with key.
  by rewrite Hv.
Qed.

Lemma committed_write_is_read_witness :
  let kv := run NewKVService rs_two_txns in
  let request := kvs.CommitRequest.mk 5 true in
  let zero := kvs.GetResponse.mk "" in
  (Get kv (kvs.GetRequest.mk "b" 6) zero).2 ≠ None ∧
  (Get (Commit kv request).1 (kvs.GetRequest.mk "b" 6) zero).2 = None ∧
  kvs.GetResponse.Value
    (Get (Commit kv request).1 (kvs.GetRequest.mk "b" 6) zero).1.2 = "x".
Proof.
  intros kv request zero.
  destruct (committed_write_is_read rs_two_txns request "b" "x"
              [mkOperation "GET" "a" ""; mkOperation "PUT" "b" "x"] 6 zero)
    as [Hbefore Hafter].
  - vm_compute. reflexivity.
  - reflexivity.
  - split; [|exact Hafter]. apply Hbefore. discriminate.
Defined.

(** *** Terminal calls on a transaction the server does not know *)

Lemma releaseLocks_unknown kv txid :
  transactions kv !! txid = None → releaseLocks kv txid = kv.
Proof.
  intros Hn. unfold releaseLocks. rewrite Hn, delete_id by done.
  by destruct kv.
Qed.

Lemma releaseLocks_forgets kv txid :
  transactions (releaseLocks kv txid) !! txid = None.
Proof. unfold releaseLocks. simpl. apply lookup_delete_eq. Qed.

(** X7. [Commit] of a transaction the server has no log for changes
    nothing at all, not even the [commits] counter when [Lead] is set;
    [Abort] of such a transaction changes only the [aborts] counter,
    which it still increments. So after a [Commit] or an [Abort] of
    [txid], a second [Commit] of [txid] is void and a second [Abort] of
    [txid] only counts once more. *)
Theorem terminal_calls_on_unknown_transaction kv txid lead :
  let commit := kvs.CommitRequest.mk txid lead in
  let abort := kvs.AbortRequest.mk txid in
  (transactions kv !! txid = None →
   Commit kv commit = (kv, None) ∧ Abort kv abort = (add_aborts kv, None)) ∧
  (∀ lead0,
     let kv1 := (Commit kv (kvs.CommitRequest.mk txid lead0)).1 in
     Commit kv1 commit = (kv1, None) ∧ Abort kv1 abort = (add_aborts kv1, None)) ∧
  (let kv1 := (Abort kv abort).1 in
   Commit kv1 commit = (kv1, None) ∧ Abort kv1 abort = (add_aborts kv1, None)).
Proof.
  intros commit abort.
  assert (∀ kv0, transactions kv0 !! txid = None →
            Commit kv0 commit = (kv0, None) ∧
            Abort kv0 abort = (add_aborts kv0, None)) as Hvoid.
  { intros kv0 Hn. unfold Commit, Abort. simpl. rewrite Hn.
    by rewrite releaseLocks_unknown. }
  split; [apply Hvoid|]. split.
  - intros lead0 kv1. apply Hvoid. unfold kv1.
    destruct (Commit_unfold kv (kvs.CommitRequest.mk txid lead0))
      as (kv' & -> & _). apply releaseLocks_forgets.
  - intros kv1. apply Hvoid. unfold kv1, Abort. simpl. apply lookup_delete_eq.
Qed.

(** *** Statistics *)

Lemma uint64_add_range x d : uint64_range (uint64_add x d).
Proof. unfold uint64_range, uint64_add. apply Z.mod_pos_bound. lia. Qed.

Lemma stats_eq (a b : Stats) :
  puts a = puts b → gets a = gets b → commits a = commits b →
  aborts a = aborts b → a = b.
Proof. destruct a, b. simpl. by intros -> -> -> ->. Qed.

Lemma ensureTransaction_stats kv txid :
  stats (ensureTransaction kv txid) = stats kv.
Proof. unfold ensureTransaction. by destruct (transactions kv !! txid). Qed.

(** The counters after a request: the counters before with the event of
    the request added, modulo 2^64 in the counter it touches. *)
Lemma step_stats kv r :
  let e := event kv r in
  let bumped x d := if Z.eqb d 0 then x else uint64_add x d in
  stats (step kv r)
  = mkStats (bumped (puts (stats kv)) (puts e))
      (bumped (gets (stats kv)) (gets e))
      (bumped (commits (stats kv)) (commits e))
      (bumped (aborts (stats kv)) (aborts e)).
Proof.
  unfold event.
  destruct r as [request|request|request|request].
  - rewrite serve_Get_err, step_Get, Get_unfold.
    destruct (acquireReadLock_frame
                (ensureTransaction kv (kvs.GetRequest.Txid request))
                (kvs.GetRequest.Key request) (kvs.GetRequest.Txid request))
      as (_ & _ & Hs).
    rewrite ensureTransaction_stats in Hs.
    destruct (acquireReadLock _ _ _) as [kv1 [e|]]; simpl in *;
      rewrite Hs; by destruct (stats kv).
  - change (serve kv (ReqPut request)) with (Put kv request).
    rewrite step_Put, Put_unfold.
    destruct (acquireWriteLock_frame
                (ensureTransaction kv (kvs.PutRequest.Txid request))
                (kvs.PutRequest.Key request) (kvs.PutRequest.Txid request))
      as (_ & _ & Hs).
    rewrite ensureTransaction_stats in Hs.
    destruct (acquireWriteLock _ _ _) as [kv1 [e|]]; simpl in *;
      rewrite Hs; by destruct (stats kv).
  - rewrite step_Commit. unfold Commit. simpl.
    destruct (transactions kv !! kvs.CommitRequest.Txid request) as [ops|];
      destruct (kvs.CommitRequest.Lead request); simpl;
      try rewrite bool_decide_eq_true_2 by eauto;
      try rewrite bool_decide_eq_false_2 by (by intros [? ?]);
      by destruct (stats kv).
  - rewrite step_Abort. simpl. by destruct (stats kv).
Qed.

Lemma step_stats_in_range kv r :
  stats_in_range (stats kv) → stats_in_range (stats (step kv r)).
Proof.
  intros (Hp & Hg & Hc & Ha). rewrite step_stats. simpl.
  unfold stats_in_range. simpl.
  split; [|split; [|split]];
    (destruct (_ =? 0)%Z; [done|apply uint64_add_range]).
Qed.

Lemma run_stats_in_range rs kv :
  stats_in_range (stats kv) → stats_in_range (stats (run kv rs)).
Proof.
  revert kv. induction rs as [|r rs IH]; intros kv H; [done|].
  simpl. apply IH. by apply step_stats_in_range.
Qed.

Lemma diff_step (a c e T : Z) :
  uint64_sub a (if Z.eqb e 0 then c else uint64_add c e) = (T mod 2 ^ 64)%Z →
  uint64_sub a c = ((e + T) mod 2 ^ 64)%Z.
Proof.
  unfold uint64_sub, uint64_add in *.
  destruct (Z.eqb_spec e 0) as [->|_]; [done|].
  intros H.
  replace (a - c)%Z with ((a - (c + e)) + e)%Z by lia.
  rewrite Zplus_mod, <- (Zminus_mod_idemp_r a (c + e)), H.
  rewrite <- Zplus_mod. f_equal. lia.
Qed.

(** X8. The counters of the server follow the events of the requests it
    serves: a successful [Get] or [Put] adds one to [gets] or [puts], a
    conflict or an [Abort] adds one to [aborts], a lead [Commit] of a
    known transaction adds one to [commits], and nothing else changes.
    Hence, for counters within [uint64] at the start, [Sub] of the
    counters after a run and before it is the number of events of the
    run modulo 2^64, also when a counter has wrapped around, and the
    counters stay within [uint64]. *)
Theorem Sub_counts_events kv rs :
  stats_in_range (stats kv) →
  Sub (stats (run kv rs)) (stats kv) = stats_wrap (tally kv rs) ∧
  stats_in_range (stats (run kv rs)).
Proof.
  intros Hr. split; [|by apply run_stats_in_range].
  revert kv Hr. induction rs as [|r rs IH]; intros kv Hr.
  - simpl. unfold Sub, stats_wrap, uint64_sub. simpl.
    by rewrite !Z.sub_diag.
  - simpl. specialize (IH (step kv r) (step_stats_in_range kv r Hr)).
    revert IH. rewrite step_stats. simpl.
    unfold Sub, stats_wrap. simpl. intros [= Hp Hg Hc Ha].
    apply stats_eq; simpl; by apply diff_step.
Qed.

Lemma Sub_counts_events_witness :
  Sub (stats (run NewKVService rs_two_txns)) (stats NewKVService)
  = mkStats 1 2 0 0.
Proof.
  assert (stats_in_range (stats NewKVService)) as H
    by (repeat split; simpl; lia).
  rewrite (proj1 (Sub_counts_events NewKVService rs_two_txns H)).
  vm_compute. reflexivity.
Defined.

End ServerMore.

(** * More properties of the client *)

Module ClientMore.
Import KVClient ClientFacts ClientExtra.

(** [fnv32a] stays within 32 bits. *)
Lemma fnv32a_range data h :
  (0 <= h < 2 ^ 32)%Z → (0 <= fnv32a h data < 2 ^ 32)%Z.
Proof.
  revert h. induction data as [|c rest IH]; intros h Hh; [done|].
  simpl. apply IH. apply Z.mod_pos_bound. lia.
Qed.

Lemma Sum32_range key : (0 <= Sum32 key < 2 ^ 32)%Z.
Proof. apply fnv32a_range. unfold offset32. lia. Qed.

(** X9. On a server list that is not empty [serverFromKey] never fails:
    it returns the server at index [Sum32 key mod len], which is below
    the length of the list, so the result is one of the servers given.
    On the empty list it fails (the division panics). *)
Theorem serverFromKey_in_servers key servers :
  servers ≠ [] →
  ∃ server,
    serverFromKey key servers = Some server ∧
    server ∈ servers ∧
    servers !! Z.to_nat (Sum32 key mod Z.of_nat (length servers)) = Some server ∧
    Z.to_nat (Sum32 key mod Z.of_nat (length servers)) < length servers.
Proof.
  intros Hne. unfold serverFromKey.
  destruct servers as [|s0 rest] eqn:E; [done|]. rewrite <- E in *.
  assert (0 < Z.of_nat (length servers))%Z as Hlen by (subst; simpl; lia).
  pose proof (Sum32_range key) as Hs.
  rewrite Z.rem_mod_nonneg by lia.
  pose proof (Z.mod_pos_bound (Sum32 key) _ Hlen) as Hm.
  assert (Z.to_nat (Sum32 key mod Z.of_nat (length servers)) < length servers)
    as Hi by lia.
  destruct (lookup_lt_is_Some_2 servers _ Hi) as [server Hl].
  exists server. split; [done|]. split; [|done].
  apply list_elem_of_lookup. eauto.
Qed.

Lemma serverFromKey_in_servers_witness :
  ∃ server, serverFromKey "account_3" [4; 5; 6] = Some server ∧
            server ∈ [4; 5; 6].
Proof.
  destruct (serverFromKey_in_servers "account_3" [4; 5; 6])
    as (server & H1 & H2 & _); [discriminate|].
  by exists server.
Defined.

Section Session.
Context {World : Type}.
Variable Call :
  Client → Server.Request → kvs.GetResponse.t → World →
  World * kvs.GetResponse.t * error.
Variable rangeOrder : gset Client → list Client.

Lemma commitLoop_sent servers txid lead (n : Net) :
  sent (commitLoop Call servers txid lead n)
  = sent n ++
    match servers with
    | [] => []
    | server :: rest =>
        (server, Server.ReqCommit (kvs.CommitRequest.mk txid lead))
        :: map (λ c, (c, Server.ReqCommit (kvs.CommitRequest.mk txid false))) rest
    end.
Proof.
  revert lead n. induction servers as [|server rest IH]; intros lead n; simpl.
  - by rewrite app_nil_r.
  - pose proof (rpcCall_sent Call server
                  (Server.ReqCommit (kvs.CommitRequest.mk txid lead))
                  (kvs.GetResponse.mk "") n) as Hs.
    destruct (rpcCall Call server _ _ n) as [[n1 r] e]. simpl in Hs.
    rewrite IH, Hs, <- app_assoc. simpl. f_equal. f_equal.
    by destruct rest.
Qed.

Hypothesis rangeOrder_perm : ∀ s, rangeOrder s ≡ₚ elements s.

(** X10. [Commit] of a begun transaction returns [nil] whatever the
    calls answer, and sends exactly one Commit call to every
    participant and to nobody else, whether or not earlier calls
    failed; the first call sent is the only one with [Lead] set. *)
Theorem Commit_reaches_every_participant txn txid (n : Net) :
  id txn = Some txid →
  let n' := (Commit Call rangeOrder txn n).1 in
  let servers := rangeOrder (usedServers txn) in
  (Commit Call rangeOrder txn n).2 = None ∧
  sent n' = sent n ++ commitCalls txid servers ∧
  map fst (commitCalls txid servers) = servers ∧
  NoDup servers ∧
  (∀ c, c ∈ servers ↔ c ∈ usedServers txn) ∧
  (∀ i c request, commitCalls txid servers !! i = Some (c, request) →
     request = Server.ReqCommit (kvs.CommitRequest.mk txid (bool_decide (i = 0)))).
Proof.
  intros Hid n' servers. subst n'. unfold Commit. rewrite Hid. simpl.
  split; [done|]. split; [apply commitLoop_sent|].
  fold servers. split.
  { unfold commitCalls. destruct servers as [|c rest]; [done|]. simpl.
    f_equal. rewrite map_map. simpl. apply map_id. }
  split.
  { unfold servers. rewrite rangeOrder_perm. apply NoDup_elements. }
  split.
  { intros c. unfold servers. rewrite rangeOrder_perm. apply elem_of_elements. }
  intros i c request. unfold commitCalls.
  destruct servers as [|c0 rest]; [done|].
  destruct i as [|i]; simpl; [by intros [= <- <-]|].
  rewrite list_lookup_fmap. destruct (rest !! i); simpl; [|done].
  by intros [= <- <-].
Qed.

Lemma serverFromKey_elem key servers server :
  serverFromKey key servers = Some server → server ∈ servers.
Proof.
  unfold serverFromKey. destruct servers as [|s0 rest]; [done|].
  intros H. apply list_elem_of_lookup. eauto.
Qed.

Lemma Abort_calls txn txid (n : Net) :
  id txn = Some txid →
  ∃ calls, sent (Abort Call rangeOrder txn n).1 = sent n ++ calls ∧
           ∀ c request, (c, request) ∈ calls →
                        c ∈ usedServers txn ∧ Server.txidOf request = txid.
Proof.
  intros Hid. unfold Abort. rewrite Hid.
  destruct (abortLoop_sent Call (rangeOrder (usedServers txn)) txid n)
    as (k & _ & Hs & _).
  eexists. split; [exact Hs|].
  intros c request Hin. unfold abortCalls in Hin.
  apply list_elem_of_fmap in Hin as (c' & [= -> ->] & Hc').
  split; [|done].
  apply elem_of_take in Hc' as (i & Hi & _).
  apply elem_of_elements. rewrite <- rangeOrder_perm.
  apply list_elem_of_lookup. eauto.
Qed.

Lemma session_step_refl txn (n : @Net World) : session_step txn n txn n.
Proof.
  split; [done|]. split; [done|]. split; [done|]. split; [auto|].
  exists []. split; [by rewrite app_nil_r|]. intros c request Hin.
  by apply elem_of_nil in Hin.
Qed.

(** After the call to the chosen server: the common part of [Get] and
    [Put]. *)
Lemma session_step_rpc txn key txn1 server txid request (n n1 n2 : Net) :
  id txn = Some txid →
  getServer txn key = Some (txn1, server) →
  Server.txidOf request = txid →
  sent n1 = sent n ++ [(server, request)] →
  n2 = n1 ∨ n2 = (Abort Call rangeOrder txn1 n1).1 →
  session_step txn n txn1 n2.
Proof.
  intros Hid Hgs Hreq Hs1 Hn2.
  apply getServer_spec in Hgs as (Hsk & Hused & Hid1 & _ & Hall).
  apply serverFromKey_elem in Hsk.
  split; [done|]. split; [done|].
  split; [rewrite Hused; set_solver|].
  split.
  { intros c. rewrite Hused. intros Hc.
    apply elem_of_union in Hc as [Hc|Hc]; [|auto].
    apply elem_of_singleton in Hc. subst c. auto. }
  assert (server ∈ usedServers txn1) as Hin1 by (rewrite Hused; set_solver).
  destruct Hn2 as [->| ->].
  - exists [(server, request)]. split; [done|].
    intros c rq Hin. apply list_elem_of_singleton in Hin as [= -> ->].
    split; [done|]. by rewrite Hid, Hreq.
  - destruct (Abort_calls txn1 txid n1) as (calls & Hs2 & Hcalls);
      [by rewrite Hid1|].
    exists ((server, request) :: calls). split.
    { rewrite Hs2, Hs1, <- app_assoc. done. }
    intros c rq Hin. apply elem_of_cons in Hin as [[= -> ->]|Hin].
    + split; [done|]. by rewrite Hid, Hreq.
    + destruct (Hcalls c rq Hin) as [Hc Ht]. split; [done|].
      by rewrite Hid, Ht.
Qed.

(** X11. Whatever the transport answers, a [Get] or a [Put] keeps the
    server list and the identifier of the transaction, only adds
    participants, and these are servers of the list; every call it
    sends carries the identifier of the transaction and goes to a
    server that is a participant afterwards. So no server is contacted
    without being recorded for the later [Commit] or [Abort]. *)
Theorem calls_go_to_participants txn key value (n : Net) :
  (∀ txn' n' v err,
     Get Call rangeOrder txn key n = Some (txn', n', v, err) →
     session_step txn n txn' n') ∧
  (∀ txn' n' err,
     Put Call rangeOrder txn key value n = Some (txn', n', err) →
     session_step txn n txn' n').
Proof.
  split.
  - intros txn' n' v err. unfold Get.
    destruct (id txn) as [txid|] eqn:Hid;
      [|intros [= <- <- _ _]; apply session_step_refl].
    destruct (writeSet txn !! key);
      [intros [= <- <- _ _]; apply session_step_refl|].
    destruct (getServer txn key) as [[txn1 server]|] eqn:Hgs; [|done].
    unfold Client_Get.
    pose proof (rpcCall_sent Call server
                  (Server.ReqGet (kvs.GetRequest.mk key txid))
                  (kvs.GetResponse.mk "") n) as Hs.
    destruct (rpcCall Call server _ _ n) as [[n1 r] [e|]]; simpl in Hs.
    + destruct (isLockConflict e).
      * intros [= <- <- _ _].
        exact (session_step_rpc txn key txn1 server txid
                 (Server.ReqGet (kvs.GetRequest.mk key txid)) n n1 n1
                 Hid Hgs eq_refl Hs (or_introl eq_refl)).
      * destruct (Abort Call rangeOrder txn1 n1) as [n2 aerr] eqn:Ea.
        intros [= <- <- _ _].
        apply (session_step_rpc txn key txn1 server txid
                 (Server.ReqGet (kvs.GetRequest.mk key txid)) n n1 n2
                 Hid Hgs eq_refl Hs).
        right. by rewrite Ea.
    + intros [= <- <- _ _].
      exact (session_step_rpc txn key txn1 server txid
                 (Server.ReqGet (kvs.GetRequest.mk key txid)) n n1 n1
               Hid Hgs eq_refl Hs (or_introl eq_refl)).
  - intros txn' n' err. unfold Put.
    destruct (id txn) as [txid|] eqn:Hid;
      [|intros [= <- <- _]; apply session_step_refl].
    destruct (getServer txn key) as [[txn1 server]|] eqn:Hgs; [|done].
    unfold Client_Put.
    pose proof (rpcCall_sent Call server
                  (Server.ReqPut (kvs.PutRequest.mk key value txid))
                  (kvs.GetResponse.mk "") n) as Hs.
    destruct (rpcCall Call server _ _ n) as [[n1 r] [e|]]; simpl in Hs.
    + destruct (isLockConflict e).
      * intros [= <- <- _].
        exact (session_step_rpc txn key txn1 server txid
                 (Server.ReqPut (kvs.PutRequest.mk key value txid)) n n1 n1
                 Hid Hgs eq_refl Hs (or_introl eq_refl)).
      * destruct (Abort Call rangeOrder txn1 n1) as [n2 aerr] eqn:Ea.
        intros [= <- <- _].
        apply (session_step_rpc txn key txn1 server txid
                 (Server.ReqPut (kvs.PutRequest.mk key value txid)) n n1 n2
                 Hid Hgs eq_refl Hs).
        right. by rewrite Ea.
    + intros [= <- <- <-].
      exact (session_step_rpc txn key txn1 server txid
                 (Server.ReqPut (kvs.PutRequest.mk key value txid)) n n1 n1
               Hid Hgs eq_refl Hs (or_introl eq_refl)).
Qed.

End Session.

Lemma calls_go_to_participants_witness :
  ∃ txn' n' err,
    Put serveCall elements txn_fresh "k" "b" net_one_writer
    = Some (txn', n', err) ∧
    session_step txn_fresh net_one_writer txn' n'.
Proof.
  assert (∀ s : gset Client, elements s ≡ₚ elements s) as Hperm by done.
  destruct (Put serveCall elements txn_fresh "k" "b" net_one_writer)
    as [[[txn' n'] err]|] eqn:E; [|vm_compute in E; discriminate].
  exists txn', n', err. split; [done|].
  exact (proj2 (calls_go_to_participants serveCall elements Hperm
                  txn_fresh "k" "b" net_one_writer) txn' n' err E).
Defined.

Lemma Commit_reaches_every_participant_witness :
  sent (Commit (brokenCall "connection is shut down") elements
          txn_three_servers (mkNet tt [])).1
  = commitCalls 9 (elements (usedServers txn_three_servers)).
Proof.
  assert (∀ s : gset Client, elements s ≡ₚ elements s) as Hperm by done.
  assert (id txn_three_servers = Some 9%N) as Hid by done.
  destruct (Commit_reaches_every_participant
              (brokenCall "connection is shut down") elements Hperm
              txn_three_servers 9 (mkNet tt []) Hid) as (_ & Hs & _).
  exact Hs.
Defined.

End ClientMore.

(** * A client alone on one server *)

Module SerialFacts.
Import KVClient ClientFacts Serial Server ServerFacts ServerExtra ServerMore.

Lemma Quiet_Owned kv txid : Quiet kv → Owned kv txid.
Proof.
  intros [Ht Hh]. split; [|split].
  - intros k t H. by destruct (Hh k t).
  - intros k t H. by destruct (Hh k t).
  - intros t _. by rewrite Ht, lookup_empty.
Qed.

Lemma Quiet_server_with m : Quiet (server_with m).
Proof.
  split; [done|].
  intros k t [(l & H & _)|(l & H & _)]; simpl in H; by rewrite lookup_empty in H.
Qed.

Lemma Quiet_pending kv txid : Quiet kv → pending kv txid = mp kv.
Proof. intros [Ht _]. unfold pending. by rewrite Ht, lookup_empty. Qed.

Lemma holds_same_for kv1 kv2 k t :
  same_for t (lockOf kv1 k) (lockOf kv2 k) → holds kv1 k t ↔ holds kv2 k t.
Proof.
  intros [Hr Hw]. unfold holds.
  by rewrite !holdsRead_lockOf, !holdsWrite_lockOf, Hr, Hw.
Qed.

(** A request of [txid] keeps [txid] alone on the server. *)
Lemma step_Owned kv r :
  Owned kv (txidOf r) → Owned (step kv r) (txidOf r).
Proof.
  intros (Hl & Hh & Ht). split; [by apply step_logged|]. split.
  - intros k t H. destruct (decide (t = txidOf r)) as [|Hne]; [done|].
    apply Hh with k.
    by rewrite <- (holds_same_for (step kv r) kv k t)
      by (apply step_same_for; congruence).
  - intros t Hne. rewrite step_other_log by congruence. by apply Ht.
Qed.

(** A [Commit] or an [Abort] of the only transaction in progress leaves
    the server quiet. *)
Lemma step_ends_Quiet kv r :
  recordOf r = None → Owned kv (txidOf r) → Quiet (step kv r).
Proof.
  intros Hr Ho. destruct (step_Owned kv r Ho) as (Hl & Hh & Ht).
  assert (transactions (step kv r) !! txidOf r = None) as Hn
    by by apply step_ends_log.
  split.
  - apply map_eq. intros t. rewrite lookup_empty.
    destruct (decide (t = txidOf r)) as [->|Hne]; [done|by apply Ht].
  - intros k t H. pose proof (Hh k t H) as ->.
    destruct (Hl k (txidOf r) H) as (ops & Hops & _). congruence.
Qed.

Lemma Put_conflict_iff kv request :
  (Put kv request).2 ≠ None →
  ∃ t, holds kv (kvs.PutRequest.Key request) t ∧ t ≠ kvs.PutRequest.Txid request.
Proof.
  rewrite Put_unfold.
  set (key := kvs.PutRequest.Key request).
  set (txid := kvs.PutRequest.Txid request).
  set (kv0 := ensureTransaction kv txid).
  assert (lockOf kv0 key = lockOf kv key) as H0.
  { apply lockOf_locks_eq, ensureTransaction_locks. }
  destruct (acquireWriteLock_outcome kv0 key txid) as [Hh|Hn Hr|e Hc He];
    simpl; [done..|].
  intros _. rewrite H0 in Hc. unfold holds. setoid_rewrite holds_lockOf'.
  destruct Hc as [(w & Hw & Hne)|[_ [Hs|(r & Hr & Hne)]]].
  - exists w. auto.
  - destruct (other_element _ txid Hs) as (r & Hin & Hne). exists r. auto.
  - exists r. rewrite Hr. split; [|done]. left. by apply elem_of_singleton.
Qed.

(** With only [txid] in progress, its requests are all served. *)
Lemma Owned_serve_ok kv r : Owned kv (txidOf r) → (serve kv r).2 = None.
Proof.
  intros (_ & Hh & _).
  destruct r as [request|request|request|request]; [| |done..].
  - rewrite serve_Get_err.
    destruct (Get kv request _).2 as [e|] eqn:E; [|done].
    assert ((Get kv request (kvs.GetResponse.mk "")).2 ≠ None) as Hc
      by congruence.
    apply Get_conflict_iff in Hc as (w & Hw & Hne).
    destruct Hne. apply (Hh (kvs.GetRequest.Key request)).
    right. by apply holdsWrite_lockOf.
  - change (serve kv (ReqPut request)) with (Put kv request).
    destruct (Put kv request).2 as [e|] eqn:E; [|done].
    assert ((Put kv request).2 ≠ None) as Hc by congruence.
    apply Put_conflict_iff in Hc as (t & Ht & Hne).
    destruct Hne. by apply (Hh (kvs.PutRequest.Key request)).
Qed.

(** What a served request of [txid] does to the store a commit would
    leave. *)
Lemma step_pending kv r op :
  recordOf r = Some op → (serve kv r).2 = None →
  pending (step kv r) (txidOf r) = applyOp (pending kv (txidOf r)) op.
Proof.
  intros Hr Hok. unfold pending.
  rewrite (serve_ok_log _ _ op) by done. simpl.
  rewrite foldl_app. simpl. f_equal. f_equal.
  rewrite step_mp. by destruct r.
Qed.

Lemma step_ends_mp kv r :
  recordOf r = None →
  mp (step kv r)
  = match r with
    | ReqCommit _ => pending kv (txidOf r)
    | _ => mp kv
    end.
Proof. intros Hr. rewrite step_mp. by destruct r. Qed.

Lemma Get_err_text kv request response e :
  (Get kv request response).2 = Some e →
  strings.Contains e "Cannot acquire" = true.
Proof.
  rewrite Get_unfold.
  destruct (acquireReadLock_outcome
              (ensureTransaction kv (kvs.GetRequest.Txid request))
              (kvs.GetRequest.Key request) (kvs.GetRequest.Txid request))
    as [e' Hc He|Hh|Hn]; simpl; [|done..].
  by intros [= <-].
Qed.

(** *** The client side *)

Lemma serverFromKey_single key c : serverFromKey key [c] = Some c.
Proof. unfold serverFromKey. simpl. by rewrite Z.rem_1_r. Qed.

(** A call to a server of the world is the request served there. *)
Lemma rpcCall_served c kv r response (n : @Net (gmap Client KVService)) :
  world n !! c = Some kv →
  rpcCall serveCall c r response n
  = ({| world := <[c := step kv r]> (world n); sent := sent n ++ [(c, r)] |},
     match r with
     | ReqGet request => (Get kv request response).1.2
     | _ => response
     end,
     (serve kv r).2).
Proof.
  intros Hw. unfold rpcCall, serveCall. rewrite Hw.
  destruct r as [request|request|request|request].
  - rewrite step_Get, serve_Get_err.
    assert (Get kv request response
            = ((Get kv request (kvs.GetResponse.mk "")).1.1,
               (Get kv request response).1.2,
               (Get kv request (kvs.GetResponse.mk "")).2)) as ->; [|done].
    rewrite !Get_unfold. by destruct (acquireReadLock _ _ _) as [kv1 [e|]].
  - change (serve kv (ReqPut request)) with (Put kv request).
    rewrite step_Put. by destruct (Put kv request).
  - change (serve kv (ReqCommit request)) with (Commit kv request).
    rewrite step_Commit. by destruct (Commit kv request).
  - change (serve kv (ReqAbort request)) with (Abort kv request).
    rewrite step_Abort. by destruct (Abort kv request).
Qed.

Section OneServer.
Variable rangeOrder : gset Client → list Client.
Hypothesis rangeOrder_perm : ∀ s, rangeOrder s ≡ₚ elements s.
Variable c : Client.

Lemma rangeOrder_empty : rangeOrder ∅ = [].
Proof.
  apply Permutation_nil_r. by rewrite rangeOrder_perm, elements_empty.
Qed.

Lemma rangeOrder_single : rangeOrder {[c]} = [c].
Proof.
  apply Permutation_singleton_r. by rewrite rangeOrder_perm, elements_singleton.
Qed.

Lemma used_cases (used : gset Client) :
  used ⊆ {[c]} → used = ∅ ∨ used = {[c]}.
Proof.
  intros Hsub. destruct (decide (c ∈ used)) as [Hin|Hn].
  - right. apply set_eq. intros x. split; [apply Hsub|].
    intros Hx. apply elem_of_singleton in Hx. by subst.
  - left. apply set_eq. intros x. split; [|set_solver].
    intros Hx. pose proof (Hsub x Hx) as Hc.
    apply elem_of_singleton in Hc. by subst.
Qed.

Lemma Session_begin kv (w : gmap Client KVService) draw :
  Quiet kv → w !! c = Some kv →
  Session c (Begin zeroTxn [c] draw) w draw kv.
Proof.
  intros Hq Hw. unfold Session. simpl.
  split; [done|]. split; [done|]. split; [set_solver|]. split; [done|].
  split; [by apply Quiet_Owned|]. split; [|done].
  intros k v H. by rewrite lookup_empty in H.
Qed.

(** The state of the session after a served request sent to [c]. *)
Lemma Session_after_rpc txn txn1 (w : gmap Client KVService) txid kv r op key ws :
  Session c txn w txid kv →
  getServer txn key = Some (txn1, c) →
  txidOf r = txid → recordOf r = Some op →
  (∀ k v, ws !! k = Some v → applyOp (pending kv txid) op !! k = Some v) →
  Session c (set_writeSet txn1 ws) (<[c := step kv r]> w) txid (step kv r).
Proof.
  intros (Hid & Hall & Hused & Hw & Ho & Hws & Hq) Hgs Hr Hop Hws'.
  apply getServer_spec in Hgs as (_ & Hused1 & Hid1 & _ & Hall1).
  unfold Session. simpl.
  split; [congruence|]. split; [congruence|].
  split; [rewrite Hused1; set_solver|].
  split; [by rewrite lookup_insert_eq|].
  split; [subst txid; by apply step_Owned|].
  split.
  - subst txid. rewrite (step_pending _ _ op); [done..|].
    by apply Owned_serve_ok.
  - rewrite Hused1. intros He. exfalso.
    assert (c ∈ ({[c]} ∪ usedServers txn : gset Client)) as Hin by set_solver.
    rewrite He in Hin. by apply not_elem_of_empty in Hin.
Qed.

(** A [Get] of a transaction that is alone on its server. *)
Lemma Session_Get txn (n : Net) txid kv key :
  Session c txn (world n) txid kv →
  ∃ txn' n' kv',
    KVClient.Get serveCall rangeOrder txn key n
    = Some (txn', n',
            match writeSet txn !! key with
            | Some v => v
            | None => default "" (mp kv !! key)
            end, None) ∧
    Session c txn' (world n') txid kv' ∧
    mp kv' = mp kv ∧ pending kv' txid = pending kv txid ∧
    writeSet txn' = writeSet txn.
Proof.
  intros HS. pose proof HS as (Hid & Hall & Hused & Hw & Ho & Hws & Hq).
  unfold KVClient.Get. rewrite Hid.
  destruct (writeSet txn !! key) as [v|] eqn:Hk.
  { by exists txn, n, kv. }
  unfold getServer. rewrite Hall, serverFromKey_single.
  set (txn1 := {| allServers := [c];
                  usedServers := {[c]} ∪ usedServers txn;
                  id := id txn; writeSet := writeSet txn |}).
  set (r := ReqGet (kvs.GetRequest.mk key txid)).
  unfold Client_Get. fold r. rewrite (rpcCall_served c kv r) by done.
  assert ((serve kv r).2 = None) as Hok by by apply Owned_serve_ok.
  rewrite Hok.
  assert ((Get kv (kvs.GetRequest.mk key txid) (kvs.GetResponse.mk "")).2 = None)
    as HokG by by rewrite <- serve_Get_err.
  exists txn1, {| world := <[c := step kv r]> (world n);
                  sent := sent n ++ [(c, r)] |}, (step kv r).
  split.
  { simpl. by rewrite (Get_ok_value _ _ _ HokG). }
  split.
  { assert (getServer txn key = Some (txn1, c)) as Hgs.
    { unfold getServer. by rewrite Hall, serverFromKey_single. }
    apply (Session_after_rpc txn txn1 (world n) txid kv r
             (mkOperation "GET" key "") key (writeSet txn) HS Hgs
             eq_refl eq_refl).
    intros k v Hkv. unfold applyOp. simpl. by apply Hws. }
  split; [by rewrite step_mp|]. split; [|done].
  exact (step_pending kv r (mkOperation "GET" key "") eq_refl Hok).
Qed.

Lemma Session_Put txn (n : Net) txid kv key value :
  Session c txn (world n) txid kv →
  ∃ txn' n' kv',
    KVClient.Put serveCall rangeOrder txn key value n = Some (txn', n', None) ∧
    Session c txn' (world n') txid kv' ∧
    mp kv' = mp kv ∧
    pending kv' txid = <[key := value]> (pending kv txid) ∧
    writeSet txn' = <[key := value]> (writeSet txn).
Proof.
  intros HS. pose proof HS as (Hid & Hall & Hused & Hw & Ho & Hws & Hq).
  unfold KVClient.Put. rewrite Hid.
  unfold getServer. rewrite Hall, serverFromKey_single.
  set (txn1 := {| allServers := [c];
                  usedServers := {[c]} ∪ usedServers txn;
                  id := id txn; writeSet := writeSet txn |}).
  set (r := ReqPut (kvs.PutRequest.mk key value txid)).
  unfold Client_Put. fold r. rewrite (rpcCall_served c kv r) by done.
  assert ((serve kv r).2 = None) as Hok by by apply Owned_serve_ok.
  rewrite Hok.
  exists (set_writeSet txn1 (<[key := value]> (writeSet txn1))),
    {| world := <[c := step kv r]> (world n); sent := sent n ++ [(c, r)] |},
    (step kv r).
  split; [done|].
  assert (pending (step kv r) txid = <[key := value]> (pending kv txid)) as Hp.
  { exact (step_pending kv r (mkOperation "PUT" key value) eq_refl Hok). }
  split.
  { assert (getServer txn key = Some (txn1, c)) as Hgs.
    { unfold getServer. by rewrite Hall, serverFromKey_single. }
    apply (Session_after_rpc txn txn1 (world n) txid kv r
             (mkOperation "PUT" key value) key _ HS Hgs eq_refl eq_refl).
    intros k v. unfold applyOp. simpl.
    rewrite !lookup_insert. destruct (decide (key = k)); [done|]. apply Hws. }
  split; [by rewrite step_mp|]. done.
Qed.

Lemma Session_Commit txn (n : Net) txid kv :
  Session c txn (world n) txid kv →
  ∃ n' kv',
    KVClient.Commit serveCall rangeOrder txn n = (n', None) ∧
    world n' = <[c := kv']> (world n) ∧
    Quiet kv' ∧ mp kv' = pending kv txid.
Proof.
  intros (Hid & Hall & Hused & Hw & Ho & Hws & Hq).
  unfold KVClient.Commit. rewrite Hid.
  destruct (used_cases _ Hused) as [He|He]; rewrite He.
  - rewrite rangeOrder_empty. simpl. exists n, kv.
    split; [done|]. split; [by rewrite insert_id|].
    split; [by apply Hq|]. symmetry. apply Quiet_pending. by apply Hq.
  - rewrite rangeOrder_single. simpl.
    set (r := ReqCommit (kvs.CommitRequest.mk txid true)).
    rewrite (rpcCall_served c kv r) by done.
    eexists _, (step kv r). split; [done|]. split; [done|].
    split; [by apply step_ends_Quiet|]. by rewrite step_ends_mp.
Qed.

Lemma Session_Abort txn (n : Net) txid kv :
  Session c txn (world n) txid kv →
  ∃ n' kv',
    KVClient.Abort serveCall rangeOrder txn n = (n', None) ∧
    world n' = <[c := kv']> (world n) ∧
    Quiet kv' ∧ mp kv' = mp kv.
Proof.
  intros (Hid & Hall & Hused & Hw & Ho & Hws & Hq).
  unfold KVClient.Abort. rewrite Hid.
  destruct (used_cases _ Hused) as [He|He]; rewrite He.
  - rewrite rangeOrder_empty. simpl. exists n, kv.
    split; [done|]. split; [by rewrite insert_id|].
    split; [by apply Hq|]. done.
  - rewrite rangeOrder_single. simpl.
    set (r := ReqAbort (kvs.AbortRequest.mk txid)).
    rewrite (rpcCall_served c kv r) by done.
    change (serve kv r).2 with (@None string).
    eexists _, (step kv r). split; [done|]. split; [done|].
    split; [by apply step_ends_Quiet|]. by rewrite step_ends_mp.
Qed.

(** A first read of a key that another transaction has write-locked,
    and the [Abort] the workloads send after it. *)
Lemma blocked_read key txid t (n : Net) kv :
  world n !! c = Some kv →
  writeHolder (lockOf kv key) = Some t → t ≠ txid →
  ∃ txn' n' e0 n'' kv'',
    KVClient.Get serveCall rangeOrder (Begin zeroTxn [c] txid) key n
    = Some (txn', n', "", Some ("lock conflict: " ++ e0)%string) ∧
    KVClient.Abort serveCall rangeOrder txn' n' = (n'', None) ∧
    world n'' !! c = Some kv'' ∧ mp kv'' = mp kv ∧
    writeHolder (lockOf kv'' key) = Some t.
Proof.
  intros Hw Hlock Hne.
  set (rG := ReqGet (kvs.GetRequest.mk key txid)).
  set (rA := ReqAbort (kvs.AbortRequest.mk txid)).
  assert ((Get kv (kvs.GetRequest.mk key txid) (kvs.GetResponse.mk "")).2 ≠ None)
    as Herr by (apply Get_conflict_iff; by exists t).
  destruct (Get kv _ _).2 as [e0|] eqn:E; [clear Herr|done].
  pose proof (Get_err_text _ _ _ _ E) as Htext.
  assert ((serve kv rG).2 = Some e0) as Hs
    by exact (eq_trans (serve_Get_err _ _) E).
  unfold KVClient.Get, Begin, getServer. cbn [id writeSet allServers usedServers].
  rewrite lookup_empty, serverFromKey_single.
  unfold Client_Get. fold rG. rewrite (rpcCall_served c kv rG) by done.
  rewrite Hs. unfold isLockConflict. rewrite Htext. cbn [orb].
  eexists _, _, e0, _, (step (step kv rG) rA).
  split; [done|].
  unfold KVClient.Abort. cbn [id usedServers].
  rewrite union_empty_r_L, rangeOrder_single. cbn [abortLoop].
  fold rA. rewrite (rpcCall_served c (step kv rG) rA)
    by (cbn [world]; by rewrite lookup_insert_eq).
  change (serve (step kv rG) rA).2 with (@None string).
  split; [done|].
  split; [cbn [world]; by rewrite lookup_insert_eq|].
  split; [by rewrite !step_mp|].
  apply (step_same_for (step kv rG) rA t key); [done|].
  by apply (step_same_for kv rG t key).
Qed.

End OneServer.

End SerialFacts.

(** ** The bank workload run by one client alone *)

Module WorkloadFacts.
Import KVClient ClientFacts Workload Serial Server ServerFacts SerialFacts.

(** *** Decimal strings *)

Lemma to_int_nonnil n :
  Z.to_int n ≠ Decimal.Pos Decimal.Nil ∧ Z.to_int n ≠ Decimal.Neg Decimal.Nil.
Proof.
  destruct n as [|p|p]; simpl; split; try discriminate.
  - intros [= H]. by apply DecimalPos.Unsigned.to_uint_nonnil in H.
  - intros [= H]. by apply DecimalPos.Unsigned.to_uint_nonnil in H.
Qed.

Lemma Itoa_parse n :
  DecimalString.NilZero.int_of_string (Itoa n) = Some (Z.to_int n).
Proof.
  unfold Itoa. destruct (to_int_nonnil n).
  by apply DecimalString.NilZero.isi.
Qed.

Lemma Itoa_inj a b : Itoa a = Itoa b → a = b.
Proof.
  intros H. apply DecimalZ.to_int_inj.
  pose proof (Itoa_parse a) as Ha. rewrite H, Itoa_parse in Ha. congruence.
Qed.

Lemma accountKey_inj a b : accountKey a = accountKey b → a = b.
Proof. unfold accountKey. simpl. intros [= H]. by apply Itoa_inj. Qed.

(** The text of a number starts with a digit or with the minus sign. *)
Lemma Itoa_head n :
  ∃ a rest, Itoa n = String a rest ∧ Ascii.eqb a "+" = false.
Proof.
  unfold Itoa. destruct n as [|p|p]; simpl.
  - by eexists _, _.
  - pose proof (DecimalPos.Unsigned.to_uint_nonnil p) as Hn.
    destruct (Pos.to_uint p); [done|..]; simpl; by eexists _, _.
  - by eexists _, _.
Qed.

(** [strconv.Atoi] reads back what [fmt.Sprintf("%d", n)] prints. *)
Lemma Atoi_Itoa n : (- 2 ^ 63 ≤ n < 2 ^ 63)%Z → Atoi (Itoa n) = Some n.
Proof.
  intros Hn. unfold Atoi.
  destruct (Itoa_head n) as (a & rest & Hs & Ha).
  pose proof (Itoa_parse n) as Hp. rewrite Hs in *. rewrite Ha, Hp. simpl.
  rewrite DecimalZ.of_to.
  destruct (Z.leb_spec (- 2 ^ 63) n); [|lia].
  destruct (Z.ltb_spec n (2 ^ 63)); [done|lia].
Qed.

Lemma Atoi_range s v : Atoi s = Some v → (- 2 ^ 63 ≤ v < 2 ^ 63)%Z.
Proof.
  unfold Atoi. intros H.
  repeat match type of H with
         | match ?x with _ => _ end = _ => destruct x eqn:?; try done
         end.
  injection H as <-.
  match goal with Hb : (_ && _) = true |- _ => apply andb_prop in Hb as [H1 H2] end.
  lia.
Qed.

Lemma Itoa_nonempty n : Itoa n ≠ "".
Proof. destruct (Itoa_head n) as (a & rest & Hs & _). by rewrite Hs. Qed.

(** *** Balances *)

Lemma balanceOf_read m account :
  balanceOf m account
  = let v := default "" (m !! accountKey account) in
    if String.eqb v "" then Some 0%Z else Atoi v.
Proof. unfold balanceOf. by destruct (m !! accountKey account). Qed.

Lemma balanceOf_range m account b :
  balanceOf m account = Some b → (- 2 ^ 63 ≤ b < 2 ^ 63)%Z.
Proof.
  unfold balanceOf. destruct (m !! accountKey account) as [s|].
  - destruct (String.eqb s ""); [intros [= <-]; lia|apply Atoi_range].
  - intros [= <-]. lia.
Qed.

Lemma balanceOf_Itoa m account b :
  m !! accountKey account = Some (Itoa b) → (- 2 ^ 63 ≤ b < 2 ^ 63)%Z →
  balanceOf m account = Some b.
Proof.
  intros Hm Hb. unfold balanceOf. rewrite Hm.
  destruct (String.eqb_spec (Itoa b) "") as [He|_].
  - by apply Itoa_nonempty in He.
  - by apply Atoi_Itoa.
Qed.

Lemma sortInts_pair a b :
  sortInts [a; b] = if (a <=? b)%Z then [a; b] else [b; a].
Proof. done. Qed.

Lemma dst_ne_src clientId : Z.rem (clientId + 1) 10 ≠ clientId.
Proof.
  pose proof (Z.quot_rem' (clientId + 1) 10) as Hq. lia.
Qed.

(** *** Sums of balances *)

Lemma sum_insert (l : list Z) i x y :
  l !! i = Some x →
  foldr Z.add 0%Z (<[i := y]> l) = (foldr Z.add 0 l - x + y)%Z.
Proof.
  revert i. induction l as [|a l IH]; intros [|i] H; simpl in *; try done.
  - injection H as ->. lia.
  - rewrite (IH i H). lia.
Qed.

Lemma sum_bound (l : list Z) i x :
  Forall (λ b, 0 ≤ b)%Z l → l !! i = Some x →
  (0 ≤ x ≤ foldr Z.add 0 l)%Z.
Proof.
  intros Hl. revert i. induction Hl as [|a l Ha Hl IH]; intros [|i] H;
    simpl in *; try done.
  - injection H as ->.
    assert (0 ≤ foldr Z.add 0 l)%Z; [|lia].
    clear IH. induction Hl; simpl; lia.
  - specialize (IH i H). lia.
Qed.

(** The running total of [checkTotalBalance] is the sum when nothing
    wraps. *)
Lemma total_sum (l : list Z) :
  Forall (λ b, 0 ≤ b)%Z l →
  ∀ t, (0 ≤ t)%Z → (t + foldr Z.add 0 l < 2 ^ 63)%Z →
       foldl (λ t b, Retry.int64 (t + b)) t l = (t + foldr Z.add 0 l)%Z.
Proof.
  induction 1 as [|a l Ha Hl IH]; intros t Ht Hs; simpl in *; [lia|].
  assert (0 ≤ foldr Z.add 0 l)%Z by (clear IH Hs; induction Hl; simpl; lia).
  rewrite RetryFacts.int64_small by lia. rewrite IH by lia. lia.
Qed.

Lemma Bank_balanceOf m bs i b :
  Bank m bs → bs !! i = Some b → balanceOf m (Z.of_nat i) = Some b.
Proof.
  intros (Hlen & Hpos & Hsum & Hm) Hi.
  pose proof (sum_bound bs i b Hpos Hi).
  apply balanceOf_Itoa; [by apply Hm|lia].
Qed.

Lemma initialised_keeps count :
  ∀ i m key, m !! key = Some "1000" → initialised count i m !! key = Some "1000".
Proof.
  induction count as [|count IH]; intros i m key H; simpl; [done|].
  apply IH. rewrite lookup_insert. by destruct (decide (accountKey i = key)).
Qed.

Lemma initialised_lookup count :
  ∀ i m k, k < count →
           initialised count i m !! accountKey (i + Z.of_nat k) = Some "1000".
Proof.
  induction count as [|count IH]; intros i m k Hk; [lia|]. simpl.
  destruct k as [|k].
  - apply initialised_keeps. by rewrite Z.add_0_r, lookup_insert_eq.
  - replace (i + Z.of_nat (S k))%Z with (i + 1 + Z.of_nat k)%Z by lia.
    apply IH. lia.
Qed.

Lemma Bank_initialised m : Bank (initialised 10 0 m) (replicate 10 1000%Z).
Proof.
  split; [done|]. split; [by repeat constructor|]. split; [done|].
  intros i b Hi. apply lookup_replicate in Hi as [-> Hi].
  by apply (initialised_lookup 10 0 m i).
Qed.

(** A transfer of 100 keeps the bank. *)
Lemma Bank_transferred m bs src dst b_src b_dst :
  Bank m bs → src ≠ dst →
  bs !! src = Some b_src → bs !! dst = Some b_dst → (100 ≤ b_src)%Z →
  Bank (transferred m (Z.of_nat src) (Z.of_nat dst) b_src b_dst)
       (<[dst := (b_dst + 100)%Z]> (<[src := (b_src - 100)%Z]> bs)).
Proof.
  intros HB Hne Hs Hd Hfunds. pose proof HB as (Hlen & Hpos & Hsum & Hm).
  pose proof (sum_bound bs src b_src Hpos Hs).
  pose proof (sum_bound bs dst b_dst Hpos Hd).
  assert (b_src + b_dst ≤ 10000)%Z as Hboth.
  { pose proof (sum_insert bs src b_src 0%Z Hs) as H1.
    assert (<[src := 0%Z]> bs !! dst = Some b_dst) as Hd'
      by by rewrite list_lookup_insert_ne.
    assert (Forall (λ b, 0 ≤ b)%Z (<[src := 0%Z]> bs)) as Hpos'
      by by apply Forall_insert.
    pose proof (sum_bound _ dst b_dst Hpos' Hd'). lia. }
  split; [by rewrite !length_insert|].
  split; [apply Forall_insert; [apply Forall_insert|]; [done|lia..]|].
  split.
  { rewrite (sum_insert _ dst b_dst) by by rewrite list_lookup_insert_ne.
    rewrite (sum_insert _ src b_src) by done. lia. }
  intros i b Hi. unfold transferred.
  rewrite RetryFacts.int64_small by lia.
  destruct (decide (i = dst)) as [->|Hid].
  { rewrite list_lookup_insert_eq in Hi
      by (rewrite length_insert; by eapply lookup_lt_Some).
    injection Hi as <-. by rewrite lookup_insert_eq. }
  rewrite list_lookup_insert_ne in Hi by done.
  rewrite lookup_insert_ne
    by (intros H'; apply accountKey_inj in H'; lia).
  destruct (decide (i = src)) as [->|His].
  { rewrite list_lookup_insert_eq in Hi by by eapply lookup_lt_Some.
    injection Hi as <-. by rewrite lookup_insert_eq. }
  rewrite list_lookup_insert_ne in Hi by done.
  rewrite lookup_insert_ne
    by (intros H'; apply accountKey_inj in H'; lia).
  by apply Hm.
Qed.

Section OneServer.
Variable rangeOrder : gset Client → list Client.
Hypothesis rangeOrder_perm : ∀ s, rangeOrder s ≡ₚ elements s.
Variable draws : nat → Z.
Variable c : Client.

Lemma transferLoop_S fuel retry clientId servers (e : @Env (gmap Client KVService)) :
  transferLoop serveCall rangeOrder draws (S fuel) retry clientId servers e
  = match transferAttempt serveCall rangeOrder draws clientId servers e with
    | None => None
    | Some (Returned err, e) => Some (err, e)
    | Some (Again, e) =>
        match backoff draws Retry.performTransfer.conflictSleep retry e with
        | None => None
        | Some e =>
            transferLoop serveCall rangeOrder draws fuel (retry + 1) clientId
              servers e
        end
    end.
Proof. done. Qed.

(** The reads of a transaction that is alone and has written nothing. *)
Lemma readBalances_alone accounts :
  ∀ balances txn (n : Net) txid kv,
    Session c txn (world n) txid kv → writeSet txn = ∅ →
    Forall (λ a, is_Some (balanceOf (mp kv) a)) accounts →
    ∃ txn' n' kv',
      readBalances serveCall rangeOrder accounts balances txn n
      = Some (txn', n',
              Completed
                (foldl (λ b a, <[a := default 0%Z (balanceOf (mp kv) a)]> b)
                   balances accounts)) ∧
      Session c txn' (world n') txid kv' ∧ writeSet txn' = ∅ ∧
      mp kv' = mp kv ∧ pending kv' txid = pending kv txid.
Proof.
  induction accounts as [|a accounts IH]; intros balances txn n txid kv HS Hws Hall.
  { by exists txn, n, kv. }
  apply Forall_cons in Hall as [[b Hb] Hall].
  destruct (Session_Get rangeOrder rangeOrder_perm c txn n txid kv
              (accountKey a) HS)
    as (txn1 & n1 & kv1 & HG & HS1 & Hmp1 & Hp1 & Hws1).
  rewrite Hws, lookup_empty in HG.
  rewrite Hws in Hws1. rewrite <- Hmp1 in Hall.
  cbn [readBalances foldl]. rewrite HG.
  rewrite Hb. rewrite balanceOf_read in Hb. cbn zeta in Hb.
  destruct (String.eqb (default "" (mp kv !! accountKey a)) "").
  - injection Hb as <-.
    destruct (IH (<[a := 0%Z]> balances) txn1 n1 txid kv1 HS1 Hws1 Hall)
      as (txn2 & n2 & kv2 & HR & HS2 & Hws2 & Hmp2 & Hp2).
    exists txn2, n2, kv2. rewrite HR, Hmp1.
    split; [done|]. split; [done|]. split; [done|]. split; congruence.
  - rewrite Hb.
    destruct (IH (<[a := b]> balances) txn1 n1 txid kv1 HS1 Hws1 Hall)
      as (txn2 & n2 & kv2 & HR & HS2 & Hws2 & Hmp2 & Hp2).
    exists txn2, n2, kv2. rewrite HR, Hmp1.
    split; [done|]. split; [done|]. split; [done|]. split; congruence.
Qed.

(** The writes of a transaction that is alone. *)
Lemma writeBalances_alone src balances accounts :
  ∀ txn (n : Net) txid kv,
    Session c txn (world n) txid kv →
    ∃ txn' n' kv',
      writeBalances serveCall rangeOrder src accounts balances txn n
      = Some (txn', n', Completed tt) ∧
      Session c txn' (world n') txid kv' ∧
      mp kv' = mp kv ∧
      pending kv' txid
      = foldl (λ m a,
                 <[accountKey a :=
                     Itoa (if (a =? src)%Z
                           then Retry.int64 (balanceAt balances a - 100)
                           else Retry.int64 (balanceAt balances a + 100))]> m)
          (pending kv txid) accounts.
Proof.
  induction accounts as [|a accounts IH]; intros txn n txid kv HS.
  { by exists txn, n, kv. }
  cbn [writeBalances foldl].
  destruct (Session_Put rangeOrder rangeOrder_perm c txn n txid kv (accountKey a)
              (Itoa (if (a =? src)%Z
                     then Retry.int64 (balanceAt balances a - 100)
                     else Retry.int64 (balanceAt balances a + 100))) HS)
    as (txn1 & n1 & kv1 & HP & HS1 & Hmp1 & Hp1 & _).
  rewrite HP.
  destruct (IH txn1 n1 txid kv1 HS1) as (txn2 & n2 & kv2 & HW & HS2 & Hmp2 & Hp2).
  exists txn2, n2, kv2. rewrite HW, Hp2, Hp1.
  split; [done|]. split; [done|]. split; congruence.
Qed.

(** One attempt of [performTransfer] by a client alone on its server. *)
Lemma transferAttempt_alone clientId (e : Env) kv bs bd :
  (- 2 ^ 63 ≤ clientId < 2 ^ 63 - 1)%Z →
  world (net e) !! c = Some kv → Quiet kv →
  balanceOf (mp kv) clientId = Some bs →
  balanceOf (mp kv) (Z.rem (clientId + 1) 10) = Some bd →
  ∃ n' kv',
    transferAttempt serveCall rangeOrder draws clientId [c] e
    = Some (Returned (if (bs <? 100)%Z
                      then Some (ErrInsufficient clientId bs) else None),
            {| net := n'; drawn := S (drawn e); slept := slept e |}) ∧
    world n' !! c = Some kv' ∧ Quiet kv' ∧
    mp kv' = if (bs <? 100)%Z then mp kv
             else transferred (mp kv) clientId (Z.rem (clientId + 1) 10) bs bd.
Proof.
  intros Hc Hw Hq Hbs Hbd.
  unfold transferAttempt, beginTxn. cbn [net drawn slept].
  rewrite RetryFacts.int64_small by lia.
  set (dst := Z.rem (clientId + 1) 10) in *.
  assert (dst ≠ clientId) as Hne by apply dst_ne_src.
  set (txid := Z.to_N (draws (drawn e) mod 2 ^ 64)).
  pose proof (Session_begin rangeOrder rangeOrder_perm c kv (world (net e))
                txid Hq Hw) as HS.
  set (accounts := sortInts [clientId; dst]).
  assert (Forall (λ a, is_Some (balanceOf (mp kv) a)) accounts) as Hall.
  { unfold accounts. rewrite sortInts_pair.
    destruct (clientId <=? dst)%Z; repeat constructor; by eexists. }
  destruct (readBalances_alone accounts ∅ _ (net e) txid kv HS eq_refl Hall)
    as (txn1 & n1 & kv1 & HR & HS1 & Hws1 & Hmp1 & Hp1).
  rewrite HR.
  set (balances := foldl _ ∅ accounts) in *.
  assert (balanceAt balances clientId = bs ∧ balanceAt balances dst = bd)
    as [Hs Hd].
  { unfold balances, accounts, balanceAt. rewrite sortInts_pair.
    destruct (clientId <=? dst)%Z; cbn [foldl]; rewrite Hbs, Hbd; simpl.
    - by rewrite lookup_insert_ne, lookup_insert_eq, lookup_insert_eq.
    - by rewrite lookup_insert_eq, lookup_insert_ne, lookup_insert_eq. }
  rewrite Hs. destruct (Z.ltb_spec bs 100) as [Hlow|Hhigh].
  - destruct (Session_Abort rangeOrder rangeOrder_perm c txn1 n1 txid kv1 HS1)
      as (n2 & kv2 & HA & Hw2 & Hq2 & Hmp2).
    rewrite HA. exists n2, kv2.
    split; [done|]. split; [by rewrite Hw2, lookup_insert_eq|].
    split; [done|]. congruence.
  - destruct (writeBalances_alone clientId balances accounts txn1 n1 txid kv1 HS1)
      as (txn2 & n2 & kv2 & HW & HS2 & Hmp2 & Hp2).
    rewrite HW.
    destruct (Session_Commit rangeOrder rangeOrder_perm c txn2 n2 txid kv2 HS2)
      as (n3 & kv3 & HC & Hw3 & Hq3 & Hmp3).
    rewrite HC. exists n3, kv3.
    split; [done|]. split; [by rewrite Hw3, lookup_insert_eq|].
    split; [done|].
    rewrite Hmp3, Hp2, Hp1, (Quiet_pending kv txid Hq).
    pose proof (balanceOf_range _ _ _ Hbs) as Hrs.
    assert (accountKey dst ≠ accountKey clientId) as Hk
      by (intros H; by apply accountKey_inj in H).
    unfold accounts, transferred. rewrite sortInts_pair.
    destruct (clientId <=? dst)%Z; cbn [foldl];
      rewrite Z.eqb_refl, Hs, Hd;
      destruct (Z.eqb_spec dst clientId) as [|_]; try done;
      rewrite (RetryFacts.int64_small (bs - 100)) by lia; [done|].
    by apply insert_insert_ne.
Qed.

(** [performTransfer] by a client alone on its server ends in its
    first attempt. *)
Lemma performTransfer_alone clientId (e : Env) kv bs bd :
  (- 2 ^ 63 ≤ clientId < 2 ^ 63 - 1)%Z →
  world (net e) !! c = Some kv → Quiet kv →
  balanceOf (mp kv) clientId = Some bs →
  balanceOf (mp kv) (Z.rem (clientId + 1) 10) = Some bd →
  ∃ e' kv',
    performTransfer serveCall rangeOrder draws clientId [c] e
    = Some (if (bs <? 100)%Z then Some (ErrInsufficient clientId bs) else None,
            e') ∧
    world (net e') !! c = Some kv' ∧ Quiet kv' ∧
    mp kv' = (if (bs <? 100)%Z then mp kv
              else transferred (mp kv) clientId (Z.rem (clientId + 1) 10) bs bd) ∧
    drawn e' = S (drawn e) ∧ slept e' = slept e.
Proof.
  intros Hc Hw Hq Hbs Hbd.
  destruct (transferAttempt_alone clientId e kv bs bd Hc Hw Hq Hbs Hbd)
    as (n' & kv' & HA & Hw' & Hq' & Hmp').
  unfold performTransfer.
  change (Z.to_nat Retry.performTransfer.maxRetries) with (S 14).
  rewrite transferLoop_S, HA. by eexists _, kv'.
Qed.

(** The reads of [checkTotalBalance] by a client alone. *)
Lemma readAll_alone bals :
  ∀ i total txn (n : Net) txid kv,
    Session c txn (world n) txid kv → writeSet txn = ∅ →
    (∀ k b, bals !! k = Some b →
            balanceOf (mp kv) (i + Z.of_nat k) = Some b) →
    ∃ txn' n' kv',
      readAll serveCall rangeOrder (length bals) i total txn n
      = Some (txn', n',
              Completed (foldl (λ t b, Retry.int64 (t + b)) total bals)) ∧
      Session c txn' (world n') txid kv' ∧ mp kv' = mp kv ∧
      pending kv' txid = pending kv txid.
Proof.
  induction bals as [|b bals IH]; intros i total txn n txid kv HS Hws Hall.
  { by exists txn, n, kv. }
  destruct (Session_Get rangeOrder rangeOrder_perm c txn n txid kv
              (accountKey i) HS)
    as (txn1 & n1 & kv1 & HG & HS1 & Hmp1 & Hp1 & Hws1).
  rewrite Hws, lookup_empty in HG. rewrite Hws in Hws1.
  cbn [length readAll foldl]. rewrite HG.
  pose proof (Hall 0 b eq_refl) as Hb. rewrite Z.add_0_r in Hb.
  rewrite balanceOf_read in Hb. cbn zeta in Hb.
  assert (∀ k b', bals !! k = Some b' →
                  balanceOf (mp kv1) (i + 1 + Z.of_nat k) = Some b') as Hall1.
  { intros k b' Hk. rewrite Hmp1.
    replace (i + 1 + Z.of_nat k)%Z with (i + Z.of_nat (S k))%Z by lia.
    by apply Hall. }
  destruct (String.eqb (default "" (mp kv !! accountKey i)) "").
  - injection Hb as <-.
    destruct (IH (i + 1)%Z (Retry.int64 (total + 0)) txn1 n1 txid kv1
                HS1 Hws1 Hall1) as (txn2 & n2 & kv2 & HR & HS2 & Hmp2 & Hp2).
    exists txn2, n2, kv2. rewrite HR.
    split; [done|]. split; [done|]. split; congruence.
  - rewrite Hb.
    destruct (IH (i + 1)%Z (Retry.int64 (total + b)) txn1 n1 txid kv1
                HS1 Hws1 Hall1) as (txn2 & n2 & kv2 & HR & HS2 & Hmp2 & Hp2).
    exists txn2, n2, kv2. rewrite HR.
    split; [done|]. split; [done|]. split; congruence.
Qed.

Lemma checkLoop_S fuel retry servers (e : @Env (gmap Client KVService)) :
  checkLoop serveCall rangeOrder draws (S fuel) retry servers e
  = match checkAttempt serveCall rangeOrder draws servers e with
    | None => None
    | Some (Returned err, e) => Some (err, e)
    | Some (Again, e) =>
        match backoff draws Retry.checkTotalBalance.conflictSleep retry e with
        | None => None
        | Some e => checkLoop serveCall rangeOrder draws fuel (retry + 1) servers e
        end
    end.
Proof. done. Qed.

(** [checkTotalBalance] by a client alone on its server ends in its
    first attempt. *)
Lemma checkTotalBalance_alone (e : Env) kv bals :
  world (net e) !! c = Some kv → Quiet kv →
  length bals = 10 →
  (∀ k b, bals !! k = Some b → balanceOf (mp kv) (Z.of_nat k) = Some b) →
  ∃ e' kv',
    checkTotalBalance serveCall rangeOrder draws [c] e
    = Some (if (foldl (λ t b, Retry.int64 (t + b)) 0 bals =? 10000)%Z
            then None
            else Some (ErrIntegrity (foldl (λ t b, Retry.int64 (t + b)) 0%Z bals)),
            e') ∧
    world (net e') !! c = Some kv' ∧ Quiet kv' ∧ mp kv' = mp kv ∧
    drawn e' = S (drawn e) ∧ slept e' = slept e.
Proof.
  intros Hw Hq Hlen Hall.
  unfold checkTotalBalance.
  change (Z.to_nat Retry.checkTotalBalance.maxRetries) with (S 9).
  rewrite checkLoop_S. unfold checkAttempt, beginTxn. cbn [net drawn slept].
  set (txid := Z.to_N (draws (drawn e) mod 2 ^ 64)).
  pose proof (Session_begin rangeOrder rangeOrder_perm c kv (world (net e))
                txid Hq Hw) as HS.
  destruct (readAll_alone bals 0%Z 0%Z _ (net e) txid kv HS eq_refl Hall)
    as (txn1 & n1 & kv1 & HR & HS1 & Hmp1 & Hp1).
  rewrite Hlen in HR. rewrite HR.
  destruct (Session_Commit rangeOrder rangeOrder_perm c txn1 n1 txid kv1 HS1)
    as (n2 & kv2 & HC & Hw2 & Hq2 & Hmp2).
  rewrite HC.
  rewrite Hp1, (Quiet_pending kv txid Hq) in Hmp2.
  destruct (_ =? 10000)%Z;
    exists {| net := n2; drawn := S (drawn e); slept := slept e |}, kv2;
    cbn [net drawn slept];
    (split; [done|]); (split; [by rewrite Hw2, lookup_insert_eq|]); done.
Qed.

(** One account set by [initAccounts] running alone: the first attempt
    does it. *)
Lemma initLoop_alone fuel retry i (e : Env) kv :
  world (net e) !! c = Some kv → Quiet kv →
  ∃ e' kv',
    initLoop serveCall rangeOrder draws (S fuel) retry i [c] e = Some e' ∧
    world (net e') !! c = Some kv' ∧ Quiet kv' ∧
    mp kv' = <[accountKey i := "1000"]> (mp kv) ∧
    drawn e' = S (drawn e) ∧ slept e' = slept e.
Proof.
  intros Hw Hq. cbn [initLoop]. unfold initAttempt, beginTxn.
  cbn [net drawn slept].
  set (txid := Z.to_N (draws (drawn e) mod 2 ^ 64)).
  pose proof (Session_begin rangeOrder rangeOrder_perm c kv (world (net e))
                txid Hq Hw) as HS.
  destruct (Session_Put rangeOrder rangeOrder_perm c _ (net e) txid kv
              (accountKey i) "1000" HS)
    as (txn1 & n1 & kv1 & HP & HS1 & Hmp1 & Hp1 & _).
  rewrite HP.
  destruct (Session_Commit rangeOrder rangeOrder_perm c txn1 n1 txid kv1 HS1)
    as (n2 & kv2 & HC & Hw2 & Hq2 & Hmp2).
  rewrite HC.
  exists {| net := n2; drawn := S (drawn e); slept := slept e |}, kv2.
  cbn [net drawn slept].
  split; [done|]. split; [by rewrite Hw2, lookup_insert_eq|].
  split; [done|]. split; [|done].
  by rewrite Hmp2, Hp1, (Quiet_pending kv txid Hq).
Qed.

Lemma initFrom_alone count :
  ∀ i (e : Env) kv,
    world (net e) !! c = Some kv → Quiet kv →
    ∃ e' kv',
      initFrom serveCall rangeOrder draws count i [c] e = Some e' ∧
      world (net e') !! c = Some kv' ∧ Quiet kv' ∧
      mp kv' = initialised count i (mp kv) ∧
      drawn e' = count + drawn e ∧ slept e' = slept e.
Proof.
  induction count as [|count IH]; intros i e kv Hw Hq.
  { by exists e, kv. }
  destruct (initLoop_alone 9 0 i e kv Hw Hq)
    as (e1 & kv1 & HL & Hw1 & Hq1 & Hmp1 & Hd1 & Hs1).
  destruct (IH (i + 1)%Z e1 kv1 Hw1 Hq1)
    as (e2 & kv2 & HF & Hw2 & Hq2 & Hmp2 & Hd2 & Hs2).
  exists e2, kv2. cbn [initFrom initialised]. rewrite HL, HF, Hmp2, Hmp1.
  split; [done|]. split; [done|]. split; [done|]. split; [done|].
  split; [lia|congruence].
Qed.

(** X12. [performTransfer] by a client alone on a server on which no
    transaction is in progress, the source account holding at least
    100: the call returns [nil] after one attempt, without sleeping,
    and leaves the server with no transaction in progress and with a
    store in which 100 has moved from the source to the destination
    account and nothing else has changed. *)
Theorem performTransfer_moves_100 clientId (e : Env) kv bs bd :
  (- 2 ^ 63 ≤ clientId < 2 ^ 63 - 1)%Z →
  world (net e) !! c = Some kv → Quiet kv →
  balanceOf (mp kv) clientId = Some bs →
  balanceOf (mp kv) (Z.rem (clientId + 1) 10) = Some bd →
  (100 ≤ bs)%Z →
  ∃ e' kv',
    performTransfer serveCall rangeOrder draws clientId [c] e = Some (None, e') ∧
    world (net e') !! c = Some kv' ∧ Quiet kv' ∧
    mp kv'
    = <[accountKey (Z.rem (clientId + 1) 10) := Itoa (Retry.int64 (bd + 100))]>
        (<[accountKey clientId := Itoa (bs - 100)]> (mp kv)) ∧
    drawn e' = S (drawn e) ∧ slept e' = slept e.
Proof.
  intros Hc Hw Hq Hbs Hbd Hfunds.
  destruct (performTransfer_alone clientId e kv bs bd Hc Hw Hq Hbs Hbd)
    as (e' & kv' & HT & H').
  destruct (Z.ltb_spec bs 100); [lia|]. by exists e', kv'.
Qed.

(** X13. [performTransfer] by a client alone on a server on which no
    transaction is in progress, the source account holding less than
    100: the call returns the insufficient-funds error for the balance
    read, and leaves the store as it was and no transaction in
    progress. *)
Theorem performTransfer_insufficient_funds clientId (e : Env) kv bs bd :
  (- 2 ^ 63 ≤ clientId < 2 ^ 63 - 1)%Z →
  world (net e) !! c = Some kv → Quiet kv →
  balanceOf (mp kv) clientId = Some bs →
  balanceOf (mp kv) (Z.rem (clientId + 1) 10) = Some bd →
  (bs < 100)%Z →
  ∃ e' kv',
    performTransfer serveCall rangeOrder draws clientId [c] e
    = Some (Some (ErrInsufficient clientId bs), e') ∧
    world (net e') !! c = Some kv' ∧ Quiet kv' ∧ mp kv' = mp kv.
Proof.
  intros Hc Hw Hq Hbs Hbd Hfunds.
  destruct (performTransfer_alone clientId e kv bs bd Hc Hw Hq Hbs Hbd)
    as (e' & kv' & HT & Hw' & Hq' & Hmp' & _).
  destruct (Z.ltb_spec bs 100); [|lia]. by exists e', kv'.
Qed.

(** X14. [checkTotalBalance] by a client alone on a server on which no
    transaction is in progress, the ten accounts holding the balances
    [bals]: the call ends in its first attempt, returns [nil] when the
    total (added up in [int]) is 10000 and the integrity error with
    that total otherwise, and leaves the store as it was and no
    transaction in progress. *)
Theorem checkTotalBalance_reports_total (e : Env) kv bals :
  world (net e) !! c = Some kv → Quiet kv →
  length bals = 10 →
  (∀ k b, bals !! k = Some b → balanceOf (mp kv) (Z.of_nat k) = Some b) →
  ∃ e' kv',
    checkTotalBalance serveCall rangeOrder draws [c] e
    = Some (if (foldl (λ t b, Retry.int64 (t + b)) 0 bals =? 10000)%Z
            then None
            else Some (ErrIntegrity (foldl (λ t b, Retry.int64 (t + b)) 0%Z bals)),
            e') ∧
    world (net e') !! c = Some kv' ∧ Quiet kv' ∧ mp kv' = mp kv ∧
    slept e' = slept e.
Proof.
  intros Hw Hq Hlen Hall.
  destruct (checkTotalBalance_alone e kv bals Hw Hq Hlen Hall)
    as (e' & kv' & HC & Hw' & Hq' & Hmp' & _ & Hs').
  by exists e', kv'.
Qed.

(** X15. [initAccounts] by a client alone on a server on which no
    transaction is in progress: every account is set in one attempt,
    nothing is slept, and the store that is left holds 1000 in each of
    the ten accounts, which is a bank of 10000. *)
Theorem initAccounts_opens_the_bank (e : Env) kv :
  world (net e) !! c = Some kv → Quiet kv →
  ∃ e' kv',
    initAccounts serveCall rangeOrder draws [c] e = Some e' ∧
    world (net e') !! c = Some kv' ∧ Quiet kv' ∧
    mp kv' = initialised 10 0 (mp kv) ∧
    Bank (mp kv') (replicate 10 1000%Z) ∧
    drawn e' = 10 + drawn e ∧ slept e' = slept e.
Proof.
  intros Hw Hq.
  destruct (initFrom_alone 10 0%Z e kv Hw Hq)
    as (e' & kv' & HI & Hw' & Hq' & Hmp' & Hd' & Hs').
  exists e', kv'. unfold initAccounts. rewrite HI, Hmp'.
  split; [done|]. split; [done|]. split; [done|]. split; [done|].
  split; [apply Bank_initialised|done].
Qed.

(** A transfer run alone keeps the bank, a balance check run alone
    passes on it. *)
Lemma performTransfer_bank clientId (e : Env) kv bs :
  (0 ≤ clientId < 10)%Z →
  world (net e) !! c = Some kv → Quiet kv → Bank (mp kv) bs →
  ∃ err e' kv' bs',
    performTransfer serveCall rangeOrder draws clientId [c] e = Some (err, e') ∧
    world (net e') !! c = Some kv' ∧ Quiet kv' ∧ Bank (mp kv') bs'.
Proof.
  intros Hc Hw Hq HB. pose proof HB as (Hlen & _).
  set (dst := Z.rem (clientId + 1) 10).
  assert (0 ≤ dst < 10)%Z as Hdst.
  { unfold dst. apply Z.rem_bound_pos; lia. }
  assert (dst ≠ clientId) as Hne by apply dst_ne_src.
  destruct (lookup_lt_is_Some_2 bs (Z.to_nat clientId)) as [b_src Hs]; [lia|].
  destruct (lookup_lt_is_Some_2 bs (Z.to_nat dst)) as [b_dst Hd]; [lia|].
  pose proof (Bank_balanceOf _ _ _ _ HB Hs) as Hbs.
  pose proof (Bank_balanceOf _ _ _ _ HB Hd) as Hbd.
  rewrite Z2Nat.id in Hbs, Hbd by lia.
  destruct (performTransfer_alone clientId e kv b_src b_dst) as
    (e' & kv' & HT & Hw' & Hq' & Hmp' & _); [lia|done..|].
  fold dst in Hmp'.
  destruct (Z.ltb_spec b_src 100) as [Hlow|Hhigh].
  - exists (Some (ErrInsufficient clientId b_src)), e', kv', bs.
    by rewrite Hmp'.
  - exists None, e', kv',
      (<[Z.to_nat dst := (b_dst + 100)%Z]>
         (<[Z.to_nat clientId := (b_src - 100)%Z]> bs)).
    rewrite Hmp'. split; [done|]. split; [done|]. split; [done|].
    rewrite <- (Z2Nat.id clientId) at 1 by lia.
    rewrite <- (Z2Nat.id dst) at 1 by lia.
    apply Bank_transferred; [done|lia|done..].
Qed.

Lemma checkTotalBalance_bank (e : Env) kv bs :
  world (net e) !! c = Some kv → Quiet kv → Bank (mp kv) bs →
  ∃ e' kv',
    checkTotalBalance serveCall rangeOrder draws [c] e = Some (None, e') ∧
    world (net e') !! c = Some kv' ∧ Quiet kv' ∧ mp kv' = mp kv.
Proof.
  intros Hw Hq HB. pose proof HB as (Hlen & Hpos & Hsum & _).
  destruct (checkTotalBalance_alone e kv bs Hw Hq Hlen) as
    (e' & kv' & HC & Hw' & Hq' & Hmp' & _).
  { intros k b Hk. by apply Bank_balanceOf with bs. }
  rewrite total_sum, Hsum in HC by (done || lia).
  by exists e', kv'.
Qed.

(** *** A client that finds its first account write-locked *)

(** An attempt of [performTransfer] whose first read meets the write
    lock of another transaction goes on to the backoff. *)
Lemma transferAttempt_blocked clientId (e : Env) kv t :
  (- 2 ^ 63 ≤ clientId < 2 ^ 63 - 1)%Z →
  world (net e) !! c = Some kv →
  writeHolder
    (lockOf kv (accountKey (Z.min clientId (Z.rem (clientId + 1) 10)))) = Some t →
  t ≠ Z.to_N (draws (drawn e) mod 2 ^ 64) →
  ∃ n' kv',
    transferAttempt serveCall rangeOrder draws clientId [c] e
    = Some (Again, {| net := n'; drawn := S (drawn e); slept := slept e |}) ∧
    world n' !! c = Some kv' ∧ mp kv' = mp kv ∧
    writeHolder
      (lockOf kv' (accountKey (Z.min clientId (Z.rem (clientId + 1) 10))))
    = Some t.
Proof.
  intros Hc Hw Hlock Hne.
  unfold transferAttempt, beginTxn. cbn [net drawn slept].
  rewrite RetryFacts.int64_small by lia.
  set (dst := Z.rem (clientId + 1) 10) in *.
  set (txid := Z.to_N (draws (drawn e) mod 2 ^ 64)) in *.
  destruct (blocked_read rangeOrder rangeOrder_perm c
              (accountKey (Z.min clientId dst)) txid t (net e) kv Hw Hlock Hne)
    as (txn1 & n1 & e0 & n2 & kv2 & HG & HA & Hw2 & Hmp2 & Hlock2).
  assert (∃ rest, sortInts [clientId; dst] = Z.min clientId dst :: rest)
    as [rest ->].
  { rewrite sortInts_pair. destruct (Z.leb_spec clientId dst).
    - rewrite Z.min_l by lia. by eexists.
    - rewrite Z.min_r by lia. by eexists. }
  cbn [readBalances]. rewrite HG, HA.
  by exists n2, kv2.
Qed.

Lemma transfer_backoff_sleeps retry (e : @Env (gmap Client KVService)) :
  (0 ≤ retry < 14)%Z →
  ∃ d, backoff draws Retry.performTransfer.conflictSleep retry e
       = Some {| net := net e; drawn := S (drawn e); slept := slept e ++ [d] |} ∧
       Retry.sleepFor (Retry.performTransfer.backoffTime retry)
         (draws (drawn e)) = Some d.
Proof.
  intros Hr. unfold backoff, Retry.performTransfer.conflictSleep.
  change (Retry.performTransfer.maxRetries - 1)%Z with 14%Z.
  destruct (Z.ltb_spec retry 14); [|lia].
  destruct (RetryFacts.sleepFor_exact
              (Retry.performTransfer.backoffTime retry) (draws (drawn e)))
    as [-> _]; [apply RetryFacts.transfer_backoffTime_bounds; lia|].
  by eexists.
Qed.

(** The loop of [performTransfer] when every attempt is blocked. *)
Lemma transferLoop_blocked clientId t fuel :
  ∀ retry (e : Env) kv,
    (- 2 ^ 63 ≤ clientId < 2 ^ 63 - 1)%Z →
    (∀ k, Z.to_N (draws k mod 2 ^ 64) ≠ t) →
    retry = (15 - Z.of_nat fuel)%Z → fuel ≤ 15 →
    world (net e) !! c = Some kv →
    writeHolder
      (lockOf kv (accountKey (Z.min clientId (Z.rem (clientId + 1) 10))))
    = Some t →
    ∃ e' kv' ds,
      transferLoop serveCall rangeOrder draws fuel retry clientId [c] e
      = Some (Some ErrTransferRetries, e') ∧
      world (net e') !! c = Some kv' ∧ mp kv' = mp kv ∧
      writeHolder
        (lockOf kv' (accountKey (Z.min clientId (Z.rem (clientId + 1) 10))))
      = Some t ∧
      drawn e' = drawn e + fuel + (fuel - 1) ∧
      slept e' = slept e ++ ds ∧
      Forall2 (λ r d, ∃ draw,
                 Retry.sleepFor (Retry.performTransfer.backoffTime r) draw
                 = Some d)
        (seqZ retry (Z.of_nat fuel - 1)) ds.
Proof.
  induction fuel as [|fuel IH]; intros retry e kv Hc Hdraws Hretry Hfuel Hw Hlock.
  { exists e, kv, []. cbn [transferLoop]. rewrite app_nil_r.
    repeat (split; [done || lia|]). by rewrite seqZ_nil by lia. }
  destruct (transferAttempt_blocked clientId e kv t Hc Hw Hlock)
    as (n1 & kv1 & HA & Hw1 & Hmp1 & Hlock1); [by intros ->; eapply Hdraws|].
  rewrite transferLoop_S, HA.
  set (e1 := {| net := n1; drawn := S (drawn e); slept := slept e |}).
  destruct fuel as [|fuel].
  - (* the last attempt: no sleep *)
    subst retry. exists e1, kv1, []. cbn [transferLoop backoff].
    assert (backoff draws Retry.performTransfer.conflictSleep
              (15 - Z.of_nat 1) e1 = Some e1) as -> by done.
    cbn [e1 net drawn slept]. rewrite app_nil_r.
    repeat (split; [done || lia|]). by rewrite seqZ_nil by lia.
  - destruct (transfer_backoff_sleeps retry e1) as (d & -> & Hd); [lia|].
    destruct (IH (retry + 1)%Z
                {| net := net e1; drawn := S (drawn e1); slept := slept e1 ++ [d] |}
                kv1 Hc Hdraws) as (e' & kv' & ds & HL & Hw' & Hmp' & Hlock' & Hdr & Hsl & Hds);
      [lia|lia|done|done|].
    exists e', kv', (d :: ds). rewrite HL.
    cbn [e1 net drawn slept] in *.
    split; [done|]. split; [done|]. split; [congruence|]. split; [done|].
    split; [lia|]. split; [by rewrite Hsl, <- app_assoc|].
    rewrite seqZ_cons by lia. constructor; [by eexists|].
    replace (Z.pred (Z.of_nat (S (S fuel)) - 1)) with (Z.of_nat (S fuel) - 1)%Z
      by lia.
    by replace (Z.succ retry) with (retry + 1)%Z by lia.
Qed.

(** X18. [performTransfer] against a persistent conflict. Let the lower
    of the two accounts of the client be write-locked on the server by
    a transaction whose id the client never draws. Then every attempt
    ends in a lock conflict at its first read; [performTransfer] makes
    15 attempts, sleeps after each but the last (14 delays, the one
    after attempt [r] being a delay of [backoffTime r]), and returns
    the error of the exhausted retries; the store and the lock of the
    other transaction are as before. *)
Theorem performTransfer_gives_up clientId (e : Env) kv t :
  (- 2 ^ 63 ≤ clientId < 2 ^ 63 - 1)%Z →
  (∀ k, Z.to_N (draws k mod 2 ^ 64) ≠ t) →
  world (net e) !! c = Some kv →
  writeHolder
    (lockOf kv (accountKey (Z.min clientId (Z.rem (clientId + 1) 10)))) = Some t →
  ∃ e' kv' ds,
    performTransfer serveCall rangeOrder draws clientId [c] e
    = Some (Some ErrTransferRetries, e') ∧
    world (net e') !! c = Some kv' ∧ mp kv' = mp kv ∧
    writeHolder
      (lockOf kv' (accountKey (Z.min clientId (Z.rem (clientId + 1) 10))))
    = Some t ∧
    drawn e' = drawn e + 29 ∧
    slept e' = slept e ++ ds ∧
    Forall2 (λ r d, ∃ draw,
               Retry.sleepFor (Retry.performTransfer.backoffTime r) draw = Some d)
      (seqZ 0 14) ds.
Proof.
  intros Hc Hdraws Hw Hlock.
  destruct (transferLoop_blocked clientId t 15 0%Z e kv Hc Hdraws) as
    (e' & kv' & ds & HL & Hw' & Hmp' & Hlock' & Hdr & Hsl & Hds); [done..|].
  exists e', kv', ds. unfold performTransfer.
  change (Z.to_nat Retry.performTransfer.maxRetries) with 15.
  rewrite HL. repeat (split; [done || lia|]). done.
Qed.

Lemma checkAttempt_blocked (e : Env) kv t :
  world (net e) !! c = Some kv →
  writeHolder (lockOf kv (accountKey 0)) = Some t →
  t ≠ Z.to_N (draws (drawn e) mod 2 ^ 64) →
  ∃ n' kv',
    checkAttempt serveCall rangeOrder draws [c] e
    = Some (Again, {| net := n'; drawn := S (drawn e); slept := slept e |}) ∧
    world n' !! c = Some kv' ∧ mp kv' = mp kv ∧
    writeHolder (lockOf kv' (accountKey 0)) = Some t.
Proof.
  intros Hw Hlock Hne.
  unfold checkAttempt, beginTxn. cbn [net drawn slept].
  set (txid := Z.to_N (draws (drawn e) mod 2 ^ 64)) in *.
  destruct (blocked_read rangeOrder rangeOrder_perm c
              (accountKey 0) txid t (net e) kv Hw Hlock Hne)
    as (txn1 & n1 & e0 & n2 & kv2 & HG & HA & Hw2 & Hmp2 & Hlock2).
  cbn [readAll]. rewrite HG, HA.
  by exists n2, kv2.
Qed.

Lemma check_backoff_sleeps retry (e : @Env (gmap Client KVService)) :
  (0 ≤ retry ≤ 14)%Z →
  ∃ d, backoff draws Retry.checkTotalBalance.conflictSleep retry e
       = Some {| net := net e; drawn := S (drawn e); slept := slept e ++ [d] |} ∧
       Retry.sleepFor (Retry.checkTotalBalance.backoffTime retry)
         (draws (drawn e)) = Some d.
Proof.
  intros Hr. unfold backoff, Retry.checkTotalBalance.conflictSleep.
  destruct (RetryFacts.sleepFor_exact
              (Retry.checkTotalBalance.backoffTime retry) (draws (drawn e)))
    as [-> _]; [by apply RetryFacts.balance_backoffTime_bounds|].
  by eexists.
Qed.

(** The loop of [checkTotalBalance] when every attempt is blocked. *)
Lemma checkLoop_blocked t fuel :
  ∀ retry (e : Env) kv,
    (∀ k, Z.to_N (draws k mod 2 ^ 64) ≠ t) →
    retry = (10 - Z.of_nat fuel)%Z → fuel ≤ 10 →
    world (net e) !! c = Some kv →
    writeHolder (lockOf kv (accountKey 0)) = Some t →
    ∃ e' kv' ds,
      checkLoop serveCall rangeOrder draws fuel retry [c] e
      = Some (Some ErrBalanceRetries, e') ∧
      world (net e') !! c = Some kv' ∧ mp kv' = mp kv ∧
      writeHolder (lockOf kv' (accountKey 0)) = Some t ∧
      drawn e' = drawn e + fuel + fuel ∧
      slept e' = slept e ++ ds ∧
      Forall2 (λ r d, ∃ draw,
                 Retry.sleepFor (Retry.checkTotalBalance.backoffTime r) draw
                 = Some d)
        (seqZ retry (Z.of_nat fuel)) ds.
Proof.
  induction fuel as [|fuel IH]; intros retry e kv Hdraws Hretry Hfuel Hw Hlock.
  { exists e, kv, []. cbn [checkLoop]. rewrite app_nil_r.
    repeat (split; [done || lia|]). by rewrite seqZ_nil by lia. }
  destruct (checkAttempt_blocked e kv t Hw Hlock)
    as (n1 & kv1 & HA & Hw1 & Hmp1 & Hlock1); [by intros ->; eapply Hdraws|].
  rewrite checkLoop_S, HA.
  set (e1 := {| net := n1; drawn := S (drawn e); slept := slept e |}).
  destruct (check_backoff_sleeps retry e1) as (d & -> & Hd); [lia|].
  destruct (IH (retry + 1)%Z
              {| net := net e1; drawn := S (drawn e1); slept := slept e1 ++ [d] |}
              kv1 Hdraws)
    as (e' & kv' & ds & HL & Hw' & Hmp' & Hlock' & Hdr & Hsl & Hds);
    [lia|lia|done|done|].
  exists e', kv', (d :: ds). rewrite HL.
  cbn [e1 net drawn slept] in *.
  split; [done|]. split; [done|]. split; [congruence|]. split; [done|].
  split; [lia|]. split; [by rewrite Hsl, <- app_assoc|].
  rewrite seqZ_cons by lia. constructor; [by eexists|].
  replace (Z.pred (Z.of_nat (S fuel))) with (Z.of_nat fuel) by lia.
  by replace (Z.succ retry) with (retry + 1)%Z by lia.
Qed.

(** X19. [checkTotalBalance] against a persistent conflict. Let
    account 0 be write-locked on the server by a transaction whose id
    the client never draws. Then [checkTotalBalance] makes 10 attempts,
    each ending in a lock conflict at its first read, sleeps after
    every one of them, the last included (10 delays, the one after
    attempt [r] being a delay of [backoffTime r]), and returns the
    error of the exhausted retries; the store and the lock of the
    other transaction are as before. *)
Theorem checkTotalBalance_gives_up (e : Env) kv t :
  (∀ k, Z.to_N (draws k mod 2 ^ 64) ≠ t) →
  world (net e) !! c = Some kv →
  writeHolder (lockOf kv (accountKey 0)) = Some t →
  ∃ e' kv' ds,
    checkTotalBalance serveCall rangeOrder draws [c] e
    = Some (Some ErrBalanceRetries, e') ∧
    world (net e') !! c = Some kv' ∧ mp kv' = mp kv ∧
    writeHolder (lockOf kv' (accountKey 0)) = Some t ∧
    drawn e' = drawn e + 20 ∧
    slept e' = slept e ++ ds ∧
    Forall2 (λ r d, ∃ draw,
               Retry.sleepFor (Retry.checkTotalBalance.backoffTime r) draw = Some d)
      (seqZ 0 10) ds.
Proof.
  intros Hdraws Hw Hlock.
  destruct (checkLoop_blocked t 10 0%Z e kv Hdraws) as
    (e' & kv' & ds & HL & Hw' & Hmp' & Hlock' & Hdr & Hsl & Hds); [done..|].
  exists e', kv', ds. unfold checkTotalBalance.
  change (Z.to_nat Retry.checkTotalBalance.maxRetries) with 10.
  rewrite HL. repeat (split; [done || lia|]). done.
Qed.


(** X17. On a bank, [checkTotalBalance] run alone passes: it returns
    [nil] in its first attempt and leaves the store as it was. *)
Theorem checkTotalBalance_passes_on_a_bank (e : Env) kv bs :
  world (net e) !! c = Some kv → Quiet kv → Bank (mp kv) bs →
  ∃ e' kv',
    checkTotalBalance serveCall rangeOrder draws [c] e = Some (None, e') ∧
    world (net e') !! c = Some kv' ∧ Quiet kv' ∧ mp kv' = mp kv.
Proof. apply checkTotalBalance_bank. Qed.

(** *** [runTransferClient] alone *)

Lemma Bank_flag m bs value :
  Bank m bs → Bank (<["init_complete" := value]> m) bs.
Proof.
  intros (Hlen & Hpos & Hsum & Hm). repeat split; try done.
  intros i b Hi. rewrite lookup_insert_ne; [by apply Hm|].
  unfold accountKey. simpl. discriminate.
Qed.

Lemma signalInit_alone fuel (e : Env) kv :
  world (net e) !! c = Some kv → Quiet kv →
  ∃ e' kv',
    signalInit serveCall rangeOrder draws (S fuel) [c] e = Some e' ∧
    world (net e') !! c = Some kv' ∧ Quiet kv' ∧
    mp kv' = <["init_complete" := "true"]> (mp kv).
Proof.
  intros Hw Hq. cbn [signalInit]. unfold beginTxn. cbn [net drawn slept].
  set (txid := Z.to_N (draws (drawn e) mod 2 ^ 64)).
  pose proof (Session_begin rangeOrder rangeOrder_perm c kv (world (net e))
                txid Hq Hw) as HS.
  destruct (Session_Put rangeOrder rangeOrder_perm c _ (net e) txid kv
              "init_complete" "true" HS)
    as (txn1 & n1 & kv1 & -> & HS1 & Hmp1 & Hp1 & _).
  destruct (Session_Commit rangeOrder rangeOrder_perm c txn1 n1 txid kv1 HS1)
    as (n2 & kv2 & -> & Hw2 & Hq2 & Hmp2).
  eexists _, kv2. split; [done|]. cbn [net].
  split; [by rewrite Hw2, lookup_insert_eq|]. split; [done|].
  by rewrite Hmp2, Hp1, (Quiet_pending kv txid Hq).
Qed.

Lemma waitInit_alone fuel (e : Env) kv :
  world (net e) !! c = Some kv → Quiet kv →
  mp kv !! "init_complete" = Some "true" →
  ∃ e' kv',
    waitInit serveCall rangeOrder draws (S fuel) [c] e = Some e' ∧
    world (net e') !! c = Some kv' ∧ Quiet kv' ∧ mp kv' = mp kv.
Proof.
  intros Hw Hq Hflag. cbn [waitInit]. unfold beginTxn. cbn [net drawn slept].
  set (txid := Z.to_N (draws (drawn e) mod 2 ^ 64)).
  pose proof (Session_begin rangeOrder rangeOrder_perm c kv (world (net e))
                txid Hq Hw) as HS.
  destruct (Session_Get rangeOrder rangeOrder_perm c _ (net e) txid kv
              "init_complete" HS)
    as (txn1 & n1 & kv1 & HG & HS1 & Hmp1 & Hp1 & _).
  cbn [Begin writeSet] in HG. rewrite lookup_empty, Hflag in HG.
  cbn [default] in HG. rewrite HG.
  destruct (Session_Commit rangeOrder rangeOrder_perm c txn1 n1 txid kv1 HS1)
    as (n2 & kv2 & -> & Hw2 & Hq2 & Hmp2).
  eexists _, kv2. split; [done|]. cbn [net].
  split; [by rewrite Hw2, lookup_insert_eq|]. split; [done|].
  by rewrite Hmp2, Hp1, (Quiet_pending kv txid Hq).
Qed.

(** The rounds of [runTransferClient] on a bank: every balance check
    passes. *)
Lemma transferRounds_alone clientId iterations :
  ∀ transferCount opsCompleted (e : Env) kv bs,
    (0 ≤ clientId < 10)%Z →
    world (net e) !! c = Some kv → Quiet kv → Bank (mp kv) bs →
    (0 ≤ opsCompleted)%Z →
    (opsCompleted + 2 * Z.of_nat iterations < 2 ^ 64)%Z →
    ∃ ops' e' kv' bs',
      transferRounds serveCall rangeOrder draws iterations clientId [c]
        transferCount opsCompleted e = Some (ops', e') ∧
      world (net e') !! c = Some kv' ∧ Quiet kv' ∧ Bank (mp kv') bs' ∧
      (opsCompleted + Z.of_nat iterations ≤ ops'
       ≤ opsCompleted + 2 * Z.of_nat iterations)%Z.
Proof.
  induction iterations as [|iterations IH];
    intros transferCount ops e kv bs Hc Hw Hq HB Hlo Hhi.
  { exists ops, e, kv, bs. cbn [transferRounds]. repeat (split; [done|]); lia. }
  cbn [transferRounds].
  assert (∃ ops1 e1 kv1 bs1,
            (if (Z.rem transferCount 5 =? 0)%Z
             then match performTransfer serveCall rangeOrder draws clientId [c] e with
                  | Some (Some _, e) => Some (ops, e)
                  | Some (None, e) => Some (uint64_add ops 1, e)
                  | None => None
                  end
             else Some (ops, e)) = Some (ops1, e1) ∧
            world (net e1) !! c = Some kv1 ∧ Quiet kv1 ∧ Bank (mp kv1) bs1 ∧
            (ops ≤ ops1 ≤ ops + 1)%Z)
    as (ops1 & e1 & kv1 & bs1 & -> & Hw1 & Hq1 & HB1 & Hops1).
  { destruct (Z.rem transferCount 5 =? 0)%Z.
    - destruct (performTransfer_bank clientId e kv bs Hc Hw Hq HB)
        as (err & e1 & kv1 & bs1 & -> & Hw1 & Hq1 & HB1).
      destruct err.
      + exists ops, e1, kv1, bs1. repeat (split; [done|]); lia.
      + exists (uint64_add ops 1), e1, kv1, bs1.
        unfold uint64_add. rewrite Z.mod_small by lia.
        repeat (split; [done|]); lia.
    - exists ops, e, kv, bs. repeat (split; [done|]); lia. }
  destruct (checkTotalBalance_bank e1 kv1 bs1 Hw1 Hq1 HB1)
    as (e2 & kv2 & -> & Hw2 & Hq2 & Hmp2).
  rewrite <- Hmp2 in HB1.
  destruct (IH (Retry.int64 (transferCount + 1)) (uint64_add ops1 1)
              (sleep100 e2) kv2 bs1 Hc Hw2 Hq2 HB1)
    as (ops3 & e3 & kv3 & bs3 & -> & Hw3 & Hq3 & HB3 & Hops3);
    unfold uint64_add in *; rewrite ?Z.mod_small by lia; try lia.
  exists ops3, e3, kv3, bs3. rewrite Z.mod_small in Hops3 by lia.
  repeat (split; [done|]); lia.
Qed.

(** X25. [runTransferClient] alone on a server on which no transaction
    is in progress, run by client 0, or by another of the ten clients
    once the store is a bank with the flag ["init_complete"] set: the
    client leaves the waiting loop in its first round, every balance
    check of every round passes, so the count reported after
    [iterations] rounds is at least [iterations] (and at most twice
    that, one transfer per round at the very most), and the store is a
    bank at the end, with no transaction in progress. *)
Theorem runTransferClient_alone fuel iterations clientId (e : Env) kv :
  (0 ≤ clientId < 10)%Z →
  (2 * Z.of_nat iterations < 2 ^ 64)%Z →
  world (net e) !! c = Some kv → Quiet kv →
  (clientId = 0%Z ∨
   (∃ bs, Bank (mp kv) bs) ∧ mp kv !! "init_complete" = Some "true") →
  ∃ ops e' kv' bs',
    runTransferClient serveCall rangeOrder draws (S fuel) iterations clientId
      [c] e = Some (ops, e') ∧
    world (net e') !! c = Some kv' ∧ Quiet kv' ∧ Bank (mp kv') bs' ∧
    (Z.of_nat iterations ≤ ops ≤ 2 * Z.of_nat iterations)%Z.
Proof.
  intros Hc Hit Hw Hq Hstart. unfold runTransferClient.
  assert (∃ e1 kv1 bs1,
            (if (clientId =? 0)%Z
             then match initAccounts serveCall rangeOrder draws [c] e with
                  | Some e => signalInit serveCall rangeOrder draws 10 [c] e
                  | None => None
                  end
             else Some e) = Some e1 ∧
            world (net e1) !! c = Some kv1 ∧ Quiet kv1 ∧ Bank (mp kv1) bs1 ∧
            mp kv1 !! "init_complete" = Some "true")
    as (e1 & kv1 & bs1 & -> & Hw1 & Hq1 & HB1 & Hflag1).
  { destruct (Z.eqb_spec clientId 0) as [->|Hne].
    - destruct (initFrom_alone 10 0%Z e kv Hw Hq)
        as (ea & kva & HI & Hwa & Hqa & Hmpa & _).
      unfold initAccounts. rewrite HI.
      destruct (signalInit_alone 9 ea kva Hwa Hqa)
        as (eb & kvb & -> & Hwb & Hqb & Hmpb).
      exists eb, kvb, (replicate 10 1000%Z). rewrite Hmpb, Hmpa.
      split; [done|]. split; [done|]. split; [done|].
      split; [apply Bank_flag, Bank_initialised|by rewrite lookup_insert_eq].
    - destruct Hstart as [|[[bs HB] Hflag]]; [done|]. by exists e, kv, bs. }
  destruct (waitInit_alone fuel e1 kv1 Hw1 Hq1 Hflag1)
    as (e2 & kv2 & -> & Hw2 & Hq2 & Hmp2).
  rewrite <- Hmp2 in HB1.
  destruct (transferRounds_alone clientId iterations 0%Z 0%Z e2 kv2 bs1
              Hc Hw2 Hq2 HB1) as (ops & e3 & kv3 & bs3 & -> & H3);
    [lia|lia|].
  by exists ops, e3, kv3, bs3.
Qed.

End OneServer.

Lemma elements_perm (s : gset Client) : elements s ≡ₚ elements s.
Proof. done. Qed.

Lemma draws7_never_1 k : Z.to_N (draws7 k mod 2 ^ 64) ≠ 1%N.
Proof. done. Qed.

Lemma performTransfer_moves_100_witness :
  ∃ e' kv',
    performTransfer serveCall elements draws7 3 [0] (env_of bank_server)
    = Some (None, e') ∧
    world (net e') !! 0 = Some kv' ∧ Quiet kv' ∧
    mp kv'
    = <[accountKey (Z.rem (3 + 1) 10) := Itoa (Retry.int64 (1000 + 100))]>
        (<[accountKey 3 := Itoa (1000 - 100)]> (mp bank_server)) ∧
    drawn e' = S (drawn (env_of bank_server)) ∧
    slept e' = slept (env_of bank_server).
Proof.
  apply (performTransfer_moves_100 elements elements_perm draws7 0 3
           (env_of bank_server) bank_server 1000 1000);
    [lia|done|apply Quiet_server_with|done|done|lia].
Defined.

Lemma performTransfer_insufficient_funds_witness :
  ∃ e' kv',
    performTransfer serveCall elements draws7 3 [0] (env_of NewKVService)
    = Some (Some (ErrInsufficient 3 0), e') ∧
    world (net e') !! 0 = Some kv' ∧ Quiet kv' ∧ mp kv' = mp NewKVService.
Proof.
  apply (performTransfer_insufficient_funds elements elements_perm draws7 0 3
           (env_of NewKVService) NewKVService 0 0);
    [lia|done|apply (Quiet_server_with ∅)|done|done|lia].
Defined.

Lemma checkTotalBalance_reports_total_witness :
  ∃ e' kv',
    checkTotalBalance serveCall elements draws7 [0] (env_of NewKVService)
    = Some (Some (ErrIntegrity 0), e') ∧
    world (net e') !! 0 = Some kv' ∧ Quiet kv' ∧ mp kv' = mp NewKVService ∧
    slept e' = slept (env_of NewKVService).
Proof.
  apply (checkTotalBalance_reports_total elements elements_perm draws7 0
           (env_of NewKVService) NewKVService (replicate 10 0%Z));
    [done|apply (Quiet_server_with ∅)|done|].
  intros k b Hk. by apply lookup_replicate in Hk as [-> _].
Defined.

Lemma initAccounts_opens_the_bank_witness :
  ∃ e' kv',
    initAccounts serveCall elements draws7 [0] (env_of NewKVService) = Some e' ∧
    world (net e') !! 0 = Some kv' ∧ Quiet kv' ∧
    mp kv' = initialised 10 0 (mp NewKVService) ∧
    Bank (mp kv') (replicate 10 1000%Z) ∧
    drawn e' = 10 + drawn (env_of NewKVService) ∧
    slept e' = slept (env_of NewKVService).
Proof.
  apply (initAccounts_opens_the_bank elements elements_perm draws7 0
           (env_of NewKVService) NewKVService);
    [done|apply (Quiet_server_with ∅)].
Defined.


Lemma checkTotalBalance_passes_on_a_bank_witness :
  ∃ e' kv',
    checkTotalBalance serveCall elements draws7 [0] (env_of bank_server)
    = Some (None, e') ∧
    world (net e') !! 0 = Some kv' ∧ Quiet kv' ∧ mp kv' = mp bank_server.
Proof.
  apply (checkTotalBalance_passes_on_a_bank elements elements_perm draws7 0
           (env_of bank_server) bank_server (replicate 10 1000%Z));
    [done|apply Quiet_server_with|apply Bank_initialised].
Defined.

Lemma performTransfer_gives_up_witness :
  ∃ e' kv' ds,
    performTransfer serveCall elements draws7 0 [0] (env_of locked_server)
    = Some (Some ErrTransferRetries, e') ∧
    world (net e') !! 0 = Some kv' ∧ mp kv' = mp locked_server ∧
    writeHolder (lockOf kv' (accountKey (Z.min 0 (Z.rem (0 + 1) 10)))) = Some 1%N ∧
    drawn e' = drawn (env_of locked_server) + 29 ∧
    slept e' = slept (env_of locked_server) ++ ds ∧
    Forall2 (λ r d, ∃ draw,
               Retry.sleepFor (Retry.performTransfer.backoffTime r) draw = Some d)
      (seqZ 0 14) ds.
Proof.
  apply (performTransfer_gives_up elements elements_perm draws7 0 0
           (env_of locked_server) locked_server 1);
    [lia|apply draws7_never_1|done|done].
Defined.

Lemma checkTotalBalance_gives_up_witness :
  ∃ e' kv' ds,
    checkTotalBalance serveCall elements draws7 [0] (env_of locked_server)
    = Some (Some ErrBalanceRetries, e') ∧
    world (net e') !! 0 = Some kv' ∧ mp kv' = mp locked_server ∧
    writeHolder (lockOf kv' (accountKey 0)) = Some 1%N ∧
    drawn e' = drawn (env_of locked_server) + 20 ∧
    slept e' = slept (env_of locked_server) ++ ds ∧
    Forall2 (λ r d, ∃ draw,
               Retry.sleepFor (Retry.checkTotalBalance.backoffTime r) draw = Some d)
      (seqZ 0 10) ds.
Proof.
  apply (checkTotalBalance_gives_up elements elements_perm draws7 0
           (env_of locked_server) locked_server 1);
    [apply draws7_never_1|done|done].
Defined.

Lemma runTransferClient_alone_witness :
  ∃ ops e' kv' bs',
    runTransferClient serveCall elements draws7 1 12 0 [0] (env_of NewKVService)
    = Some (ops, e') ∧
    world (net e') !! 0 = Some kv' ∧ Quiet kv' ∧ Bank (mp kv') bs' ∧
    (Z.of_nat 12 ≤ ops ≤ 2 * Z.of_nat 12)%Z.
Proof.
  apply (runTransferClient_alone elements elements_perm draws7 0 0 12 0
           (env_of NewKVService) NewKVService);
    [lia|lia|done|apply (Quiet_server_with ∅)|by left].
Defined.

End WorkloadFacts.

(** ** The benchmark client *)

Module BenchmarkFacts.
Import KVClient ClientFacts ClientMore Workload Benchmark Serial.
Import Server ServerFacts SerialFacts WorkloadFacts.

Lemma serverFromKey_Some key servers :
  servers ≠ [] → is_Some (serverFromKey key servers).
Proof.
  intros Hne. unfold serverFromKey.
  destruct servers as [|s0 rest] eqn:E; [done|]. rewrite <- E in *.
  assert (0 < Z.of_nat (length servers))%Z as Hlen by (subst; simpl; lia).
  pose proof (Sum32_range key) as Hs.
  rewrite Z.rem_mod_nonneg by lia.
  pose proof (Z.mod_pos_bound (Sum32 key) _ Hlen) as Hm.
  apply lookup_lt_is_Some_2. lia.
Qed.

Section AnyTransport.
Context {World : Type}.
Variable Call :
  Client → Server.Request → kvs.GetResponse.t → World →
  World * kvs.GetResponse.t * error.
Variable rangeOrder : gset Client → list Client.
Variable draws : nat → Z.
Variable next : nat → WorkloadOp.

(** With a server to talk to, [Get] and [Put] return. *)
Lemma Get_returns txn key (n : Net) :
  allServers txn ≠ [] →
  ∃ txn' n' v err,
    KVClient.Get Call rangeOrder txn key n = Some (txn', n', v, err) ∧
    allServers txn' = allServers txn.
Proof.
  intros Hne. unfold KVClient.Get.
  destruct (id txn) as [txid|]; [|by eexists _, _, _, _].
  destruct (writeSet txn !! key); [by eexists _, _, _, _|].
  unfold getServer.
  destruct (serverFromKey_Some key _ Hne) as [server ->].
  destruct (Client_Get _ _ _ _ _) as [[n1 resp] [e0|]]; [|by eexists _, _, _, _].
  destruct (isLockConflict e0); [by eexists _, _, _, _|].
  destruct (KVClient.Abort _ _ _ _). by eexists _, _, _, _.
Qed.

Lemma Put_returns txn key value (n : Net) :
  allServers txn ≠ [] →
  ∃ txn' n' err,
    KVClient.Put Call rangeOrder txn key value n = Some (txn', n', err) ∧
    allServers txn' = allServers txn.
Proof.
  intros Hne. unfold KVClient.Put.
  destruct (id txn) as [txid|]; [|by eexists _, _, _].
  unfold getServer.
  destruct (serverFromKey_Some key _ Hne) as [server ->].
  destruct (Client_Put _ _ _ _ _ _) as [n1 [e0|]]; [|by eexists _, _, _].
  destruct (isLockConflict e0); [by eexists _, _, _|].
  destruct (KVClient.Abort _ _ _ _). by eexists _, _, _.
Qed.

(** [executeTxn] counts the operations that succeeded. *)
Lemma executeLoop_count todo :
  ∀ opsCompleted txn pos (n : Net),
    allServers txn ≠ [] →
    (0 ≤ opsCompleted)%Z → (opsCompleted + Z.of_nat todo < 2 ^ 64)%Z →
    ∃ txn' pos' n' ops' err,
      executeLoop Call rangeOrder next todo opsCompleted txn pos n
      = Some (txn', pos', n', ops', err) ∧
      (opsCompleted ≤ ops' ≤ opsCompleted + Z.of_nat todo)%Z ∧
      (err = None ↔ ops' = opsCompleted + Z.of_nat todo)%Z.
Proof.
  induction todo as [|todo IH]; intros ops txn pos n Hne Hlo Hhi.
  { eexists _, _, _, _, _. split; [done|]. split; [lia|]. split; [lia|done]. }
  cbn [executeLoop].
  assert (∃ txn1 n1 err,
            (if IsRead (next pos)
             then match KVClient.Get Call rangeOrder txn
                          (Itoa (OpKey (next pos))) n with
                  | Some (txn, n, _, err) => Some (txn, n, err)
                  | None => None
                  end
             else KVClient.Put Call rangeOrder txn (Itoa (OpKey (next pos)))
                    (Repeat "x" 128) n)
            = Some (txn1, n1, err) ∧ allServers txn1 = allServers txn)
    as (txn1 & n1 & err & -> & Hall).
  { destruct (IsRead (next pos)).
    - destruct (Get_returns txn (Itoa (OpKey (next pos))) n Hne)
        as (txn1 & n1 & v & err & -> & Hall). by eexists _, _, _.
    - destruct (Put_returns txn (Itoa (OpKey (next pos))) (Repeat "x" 128) n Hne)
        as (txn1 & n1 & err & -> & Hall). by eexists _, _, _. }
  destruct err as [e0|].
  { eexists _, _, _, _, _. split; [done|]. split; [lia|]. split; [done|lia]. }
  assert (uint64_add ops 1 = ops + 1)%Z as Hadd.
  { unfold uint64_add. rewrite Z.mod_small; lia. }
  rewrite Hadd.
  destruct (IH (ops + 1)%Z txn1 (S pos) n1) as
    (txn' & pos' & n' & ops' & err & -> & Hb & Hiff); [congruence|lia|lia|].
  eexists _, _, _, _, _. split; [done|]. split; [lia|].
  rewrite Hiff. lia.
Qed.

Lemma retryLoop_count retry :
  ∀ servers opsCompleted pos (e : Env),
    servers ≠ [] → (0 ≤ opsCompleted ≤ 3)%Z →
    ∃ ops' pos' e',
      retryLoop Call rangeOrder draws next retry servers opsCompleted pos e
      = Some (ops', pos', e') ∧ (0 ≤ ops' ≤ 3)%Z.
Proof.
  induction retry as [|retry IH]; intros servers ops pos e Hne Hops.
  { by eexists _, _, _. }
  cbn [retryLoop]. unfold beginTxn, executeTxn. cbn [net drawn slept].
  destruct (executeLoop_count 3 0%Z
              (Begin zeroTxn servers (Z.to_N (draws (drawn e) mod 2 ^ 64)))
              pos (net e))
    as (txn' & pos' & n' & ops' & err & -> & Hb & _); [done|lia|done|].
  destruct err as [e0|].
  - apply IH; [done|lia].
  - destruct (KVClient.Commit _ _ _ _). eexists _, _, _. split; [done|lia].
Qed.

Lemma runLoop_count iterations :
  ∀ servers opsCompleted pos (e : Env),
    servers ≠ [] → (0 ≤ opsCompleted ≤ 3)%Z →
    ∃ ops' pos' e',
      runLoop Call rangeOrder draws next iterations servers opsCompleted pos e
      = Some (ops', pos', e') ∧ (0 ≤ ops' ≤ 3)%Z.
Proof.
  induction iterations as [|iterations IH]; intros servers ops pos e Hne Hops.
  { by eexists _, _, _. }
  cbn [runLoop].
  destruct (retryLoop_count 3 servers ops pos e Hne Hops)
    as (ops1 & pos1 & e1 & -> & Hops1).
  by apply IH.
Qed.

(** X20. Whatever the servers answer and however long it runs,
    [runClient] with a server list that is not empty returns, and the
    operation count it reports is at most 3: [opsCompleted] is
    overwritten by every call of [executeTxn], never added to. *)
Theorem runClient_reports_at_most_3 iterations servers (e : Env) :
  servers ≠ [] →
  ∃ ops pos e',
    runClient Call rangeOrder draws next iterations servers e
    = Some (ops, pos, e') ∧
    (0 ≤ ops ≤ 3)%Z.
Proof. intros Hne. apply runLoop_count; [done|lia]. Qed.

End AnyTransport.

Lemma runClient_reports_at_most_3_witness :
  ∃ ops pos e',
    runClient serveCall elements draws7 (λ k, mkWorkloadOp (Z.of_nat k) false)
      1000 [0] (env_of NewKVService)
    = Some (ops, pos, e') ∧
    (0 ≤ ops ≤ 3)%Z.
Proof.
  by apply (runClient_reports_at_most_3 serveCall elements draws7
              (λ k, mkWorkloadOp (Z.of_nat k) false) 1000 [0]
              (env_of NewKVService)).
Defined.

Section OneServer.
Variable rangeOrder : gset Client → list Client.
Hypothesis rangeOrder_perm : ∀ s, rangeOrder s ≡ₚ elements s.
Variable draws : nat → Z.
Variable next : nat → WorkloadOp.
Variable c : Client.

(** The operations of [executeTxn] in a transaction that is alone. *)
Lemma executeLoop_alone todo :
  ∀ opsCompleted txn pos (n : Net) txid kv,
    Session c txn (world n) txid kv →
    ∃ txn' n' ops' kv',
      executeLoop serveCall rangeOrder next todo opsCompleted txn pos n
      = Some (txn', pos + todo, n', ops', None) ∧
      Session c txn' (world n') txid kv' ∧ mp kv' = mp kv ∧
      pending kv' txid = written (pending kv txid) (map next (seq pos todo)).
Proof.
  induction todo as [|todo IH]; intros ops txn pos n txid kv HS.
  { exists txn, n, ops, kv. cbn [executeLoop]. by rewrite Nat.add_0_r. }
  cbn [executeLoop seq map]. unfold written. cbn [foldl].
  destruct (IsRead (next pos)).
  - destruct (Session_Get rangeOrder rangeOrder_perm c txn n txid kv
                (Itoa (OpKey (next pos))) HS)
      as (txn1 & n1 & kv1 & -> & HS1 & Hmp1 & Hp1 & _).
    destruct (IH (uint64_add ops 1) txn1 (S pos) n1 txid kv1 HS1)
      as (txn2 & n2 & ops2 & kv2 & -> & HS2 & Hmp2 & Hp2).
    exists txn2, n2, ops2, kv2.
    split; [by rewrite Nat.add_succ_r|]. split; [done|].
    split; [congruence|]. by rewrite Hp2, Hp1.
  - destruct (Session_Put rangeOrder rangeOrder_perm c txn n txid kv
                (Itoa (OpKey (next pos))) (Repeat "x" 128) HS)
      as (txn1 & n1 & kv1 & -> & HS1 & Hmp1 & Hp1 & _).
    destruct (IH (uint64_add ops 1) txn1 (S pos) n1 txid kv1 HS1)
      as (txn2 & n2 & ops2 & kv2 & -> & HS2 & Hmp2 & Hp2).
    exists txn2, n2, ops2, kv2.
    split; [by rewrite Nat.add_succ_r|]. split; [done|].
    split; [congruence|]. by rewrite Hp2, Hp1.
Qed.

(** A transaction of [runClient] that runs alone commits at its first
    attempt. *)
Lemma retryLoop_alone retry opsCompleted pos (e : Env) kv :
  world (net e) !! c = Some kv → Quiet kv →
  ∃ e' kv',
    retryLoop serveCall rangeOrder draws next (S retry) [c] opsCompleted pos e
    = Some (3%Z, pos + 3, e') ∧
    world (net e') !! c = Some kv' ∧ Quiet kv' ∧
    mp kv' = written (mp kv) (map next (seq pos 3)) ∧
    drawn e' = S (drawn e) ∧ slept e' = slept e.
Proof.
  intros Hw Hq. cbn [retryLoop]. unfold beginTxn, executeTxn.
  cbn [net drawn slept].
  set (txid := Z.to_N (draws (drawn e) mod 2 ^ 64)).
  pose proof (Session_begin rangeOrder rangeOrder_perm c kv (world (net e))
                txid Hq Hw) as HS.
  destruct (executeLoop_alone 3 0%Z _ pos (net e) txid kv HS)
    as (txn1 & n1 & ops1 & kv1 & HE & HS1 & Hmp1 & Hp1).
  destruct (executeLoop_count serveCall rangeOrder next 3 0%Z
              (Begin zeroTxn [c] txid) pos (net e))
    as (txn' & pos' & n' & ops' & err & HE' & _ & Hiff); [done..|].
  rewrite HE in HE'. injection HE' as <- <- <- <- <-.
  assert (ops1 = 3%Z) as -> by by apply Hiff.
  rewrite HE.
  destruct (Session_Commit rangeOrder rangeOrder_perm c txn1 n1 txid kv1 HS1)
    as (n2 & kv2 & -> & Hw2 & Hq2 & Hmp2).
  exists {| net := n2; drawn := S (drawn e); slept := slept e |}, kv2.
  cbn [net drawn slept].
  split; [done|]. split; [by rewrite Hw2, lookup_insert_eq|].
  split; [done|]. split; [|done].
  by rewrite Hmp2, Hp1, (Quiet_pending kv txid Hq).
Qed.

Lemma runLoop_alone iterations :
  ∀ opsCompleted pos (e : Env) kv,
    world (net e) !! c = Some kv → Quiet kv →
    ∃ e' kv',
      runLoop serveCall rangeOrder draws next iterations [c] opsCompleted pos e
      = Some (match iterations with O => opsCompleted | S _ => 3%Z end,
              pos + 3 * iterations, e') ∧
      world (net e') !! c = Some kv' ∧ Quiet kv' ∧
      mp kv' = written (mp kv) (map next (seq pos (3 * iterations))) ∧
      drawn e' = iterations + drawn e ∧ slept e' = slept e.
Proof.
  induction iterations as [|iterations IH]; intros ops pos e kv Hw Hq.
  { exists e, kv. cbn [runLoop]. by rewrite Nat.mul_0_r, Nat.add_0_r. }
  cbn [runLoop].
  destruct (retryLoop_alone 2 ops pos e kv Hw Hq)
    as (e1 & kv1 & -> & Hw1 & Hq1 & Hmp1 & Hd1 & Hs1).
  destruct (IH 3%Z (pos + 3) e1 kv1 Hw1 Hq1)
    as (e2 & kv2 & -> & Hw2 & Hq2 & Hmp2 & Hd2 & Hs2).
  exists e2, kv2.
  split.
  { replace (pos + 3 * S iterations) with (pos + 3 + 3 * iterations) by lia.
    by destruct iterations. }
  split; [done|]. split; [done|]. split; [|split; [lia|congruence]].
  rewrite Hmp2, Hmp1.
  replace (3 * S iterations) with (3 + 3 * iterations) by lia.
  rewrite seq_app, map_app. unfold written. by rewrite foldl_app.
Qed.

(** X21. [runClient] alone on a server on which no transaction is in
    progress: every transaction commits at its first attempt, so after
    [iterations] transactions the client has taken three operations
    from the workload per transaction and drawn one transaction id per
    transaction, the store holds the writes among those operations,
    applied in order, and no transaction is in progress. *)
Theorem runClient_alone iterations (e : Env) kv :
  world (net e) !! c = Some kv → Quiet kv →
  ∃ e' kv',
    runClient serveCall rangeOrder draws next iterations [c] e
    = Some (match iterations with O => 0%Z | S _ => 3%Z end,
            3 * iterations, e') ∧
    world (net e') !! c = Some kv' ∧ Quiet kv' ∧
    mp kv' = written (mp kv) (map next (seq 0 (3 * iterations))) ∧
    drawn e' = iterations + drawn e ∧ slept e' = slept e.
Proof. intros Hw Hq. by apply (runLoop_alone iterations 0%Z 0 e kv). Qed.

End OneServer.

Lemma runClient_alone_witness :
  ∃ e' kv',
    runClient serveCall elements draws7 (λ k, mkWorkloadOp (Z.of_nat k) false)
      2 [0] (env_of NewKVService)
    = Some (3%Z, 3 * 2, e') ∧
    world (net e') !! 0 = Some kv' ∧ Quiet kv' ∧
    mp kv'
    = written (mp NewKVService)
        (map (λ k, mkWorkloadOp (Z.of_nat k) false) (seq 0 (3 * 2))) ∧
    drawn e' = 2 + drawn (env_of NewKVService) ∧
    slept e' = slept (env_of NewKVService).
Proof.
  apply (runClient_alone elements elements_perm draws7
           (λ k, mkWorkloadOp (Z.of_nat k) false) 0 2
           (env_of NewKVService) NewKVService);
    [done|apply (Quiet_server_with ∅)].
Defined.

End BenchmarkFacts.

(** ** The older server *)

Module LegacyFacts.
Import LegacyServer.

Lemma getOrCreateTransaction_spec kv clientID txID :
  ids_ok kv →
  let kv1 := (getOrCreateTransaction kv clientID txID).1 in
  let tx := (getOrCreateTransaction kv clientID txID).2 in
  TxID tx = txID ∧
  transactions kv1 !! txID = Some tx ∧
  (∀ t, t ≠ txID → transactions kv1 !! t = transactions kv !! t) ∧
  (∀ tx0, transactions kv !! txID = Some tx0 → tx = tx0) ∧
  (transactions kv !! txID = None → WriteSet tx = ∅) ∧
  locks kv1 = locks kv ∧ mp kv1 = mp kv ∧ ids_ok kv1.
Proof.
  intros Hids. unfold getOrCreateTransaction.
  destruct (transactions kv !! txID) as [tx|] eqn:E; simpl.
  - split; [by apply Hids|]. repeat split; try done. by intros tx0 [= <-].
  - split; [done|]. split; [by rewrite lookup_insert_eq|].
    split; [by intros t Hne; rewrite lookup_insert_ne|].
    split; [done|]. split; [done|]. split; [done|]. split; [done|].
    intros t tx. simpl. rewrite lookup_insert.
    destruct (decide (txID = t)) as [<-|]; [by intros [= <-]|apply Hids].
Qed.

(** What the two lock functions do to the entry of a key. *)
Lemma tryAcquireReadLock_spec kv key tx :
  let kv1 := (tryAcquireReadLock kv key tx).1 in
  transactions kv1 = transactions kv ∧ mp kv1 = mp kv ∧ stats kv1 = stats kv ∧
  if (tryAcquireReadLock kv key tx).2 then
    writer_conflict (entry kv key) tx = false ∧
    locks kv1
    = <[key := {| Readers := {[TxID tx]} ∪ Readers (entry kv key);
                  Writer := Writer (entry kv key) |}]> (locks kv)
  else writer_conflict (entry kv key) tx = true ∧ kv1 = kv.
Proof.
  unfold tryAcquireReadLock, entry.
  destruct (locks kv !! key) as [keyLock|] eqn:E; simpl.
  - by destruct (writer_conflict keyLock tx).
  - done.
Qed.

Lemma tryAcquireWriteLock_spec kv key tx :
  let kv1 := (tryAcquireWriteLock kv key tx).1 in
  transactions kv1 = transactions kv ∧ mp kv1 = mp kv ∧ stats kv1 = stats kv ∧
  if (tryAcquireWriteLock kv key tx).2 then
    writer_conflict (entry kv key) tx = false ∧
    Readers (entry kv key) ⊆ {[TxID tx]} ∧
    locks kv1
    = <[key := {| Readers := Readers (entry kv key);
                  Writer := Some (TxID tx) |}]> (locks kv)
  else
    (writer_conflict (entry kv key) tx = true ∨
     ∃ r, r ∈ Readers (entry kv key) ∧ r ≠ TxID tx) ∧ kv1 = kv.
Proof.
  unfold tryAcquireWriteLock, entry.
  destruct (locks kv !! key) as [keyLock|] eqn:E; simpl.
  - destruct (writer_conflict keyLock tx) eqn:Ew; simpl;
      [repeat split; auto|].
    destruct (bool_decide _) eqn:Er; simpl.
    + apply bool_decide_eq_true in Er. repeat split; auto.
    + apply bool_decide_eq_false in Er.
      repeat split; try done.
      intros r Hr. apply elem_of_singleton.
      destruct (decide (r = TxID tx)); [done|]. destruct Er. by exists r.
  - repeat split; done.
Qed.

Lemma writer_conflict_false keyLock tx :
  writer_conflict keyLock tx = false ↔
  ∀ w, Writer keyLock = Some w → w = TxID tx.
Proof.
  unfold writer_conflict. destruct (Writer keyLock) as [w|]; [|done].
  destruct (N.eqb_spec w (TxID tx)) as [->|Hne]; simpl.
  - split; [by intros _ w [= <-]|done].
  - split; [done|]. intros H. destruct Hne. by apply H.
Qed.

Lemma writer_conflict_true keyLock tx :
  writer_conflict keyLock tx = true ↔
  ∃ w, Writer keyLock = Some w ∧ w ≠ TxID tx.
Proof.
  unfold writer_conflict. destruct (Writer keyLock) as [w|].
  - destruct (N.eqb_spec w (TxID tx)) as [->|Hne]; simpl.
    + split; [done|]. by intros (w & [= <-] & Hne).
    + split; [|done]. intros _. by exists w.
  - split; [done|]. by intros (w & [=] & _).
Qed.

Lemma ids_ok_insert kv t tx :
  ids_ok kv → TxID tx = t →
  ids_ok (set_transactions kv (<[t := tx]> (transactions kv))).
Proof.
  intros Hids Ht t' tx'. simpl. rewrite lookup_insert.
  destruct (decide (t = t')) as [<-|]; [by intros [= <-]|apply Hids].
Qed.

(** [Get], by cases of its result. *)
Lemma Get_cases kv request response :
  ids_ok kv →
  let t := GetTxid request in
  let key := GetKey request in
  let kv' := (Get kv request response).1 in
  let response' := (Get kv request response).2 in
  mp kv' = mp kv ∧ ids_ok kv' ∧
  (∀ t', t' ≠ t → transactions kv' !! t' = transactions kv !! t') ∧
  is_Some (transactions kv' !! t) ∧
  writeSetOf kv' t = writeSetOf kv t ∧
  if GetSuccess response' then
    (∀ w, Writer (entry kv key) = Some w → w = t) ∧
    locks kv'
    = <[key := {| Readers := {[t]} ∪ Readers (entry kv key);
                  Writer := Writer (entry kv key) |}]> (locks kv) ∧
    Value response'
    = match writeSetOf kv t !! key with
      | Some value => value
      | None => default (Value response) (mp kv !! key)
      end
  else
    (∃ w, Writer (entry kv key) = Some w ∧ w ≠ t) ∧
    locks kv' = locks kv ∧ Value response' = Value response.
Proof.
  intros Hids t key. unfold Get. fold t key.
  assert (ids_ok (add_gets kv)) as Hids0 by done.
  pose proof (getOrCreateTransaction_spec (add_gets kv) (GetClientID request)
                t Hids0)
    as (Hid & Hlook & Hother & Hold & Hnew & Hlocks & Hmp & Hids1).
  destruct (getOrCreateTransaction _ _ _) as [kv1 tx]. simpl in *.
  assert (writeSetOf kv t = WriteSet tx) as Hws.
  { unfold writeSetOf. destruct (transactions kv !! t) as [tx0|] eqn:E; simpl.
    - by rewrite (Hold tx0 eq_refl).
    - by rewrite Hnew. }
  pose proof (tryAcquireReadLock_spec kv1 key tx) as (Ht & Hm & _ & Hres).
  assert (entry kv1 key = entry kv key) as He by (unfold entry; by rewrite Hlocks).
  destruct (tryAcquireReadLock kv1 key tx) as [kv2 ok]. simpl in *.
  rewrite He, Hid in Hres.
  destruct ok; simpl.
  - destruct Hres as [Hc Hl].
    split; [congruence|]. split.
    { apply (ids_ok_insert kv2); [|done].
      intros t' tx'. rewrite Ht. apply Hids1. }
    split; [intros t' Hne; rewrite lookup_insert_ne by done;
            rewrite Ht; by apply Hother|].
    split; [by rewrite lookup_insert_eq|].
    split; [unfold writeSetOf at 1; simpl; by rewrite lookup_insert_eq|].
    split; [rewrite <- Hid; by apply writer_conflict_false|].
    split; [by rewrite Hl, Hlocks|].
    rewrite Hws, Hm, Hmp. by destruct (mp kv !! key).
  - destruct Hres as [Hc ->].
    split; [done|]. split; [done|]. split; [done|].
    split; [by rewrite Hlook|].
    split; [unfold writeSetOf at 1; by rewrite Hlook|].
    split; [rewrite <- Hid; by apply writer_conflict_true|done].
Qed.

(** [Put], by cases of its result. *)
Lemma Put_cases kv request :
  ids_ok kv →
  let t := PutTxid request in
  let key := PutKey request in
  let kv' := (Put kv request).1 in
  mp kv' = mp kv ∧ ids_ok kv' ∧
  (∀ t', t' ≠ t → transactions kv' !! t' = transactions kv !! t') ∧
  is_Some (transactions kv' !! t) ∧
  if PutSuccess (Put kv request).2 then
    (∀ w, Writer (entry kv key) = Some w → w = t) ∧
    Readers (entry kv key) ⊆ {[t]} ∧
    locks kv'
    = <[key := {| Readers := Readers (entry kv key); Writer := Some t |}]>
        (locks kv) ∧
    writeSetOf kv' t = <[key := PutValue request]> (writeSetOf kv t)
  else
    ((∃ w, Writer (entry kv key) = Some w ∧ w ≠ t) ∨
     (∃ r, r ∈ Readers (entry kv key) ∧ r ≠ t)) ∧
    locks kv' = locks kv ∧ writeSetOf kv' t = writeSetOf kv t.
Proof.
  intros Hids t key. unfold Put. fold t key.
  assert (ids_ok (add_puts kv)) as Hids0 by done.
  pose proof (getOrCreateTransaction_spec (add_puts kv) (PutClientID request)
                t Hids0)
    as (Hid & Hlook & Hother & Hold & Hnew & Hlocks & Hmp & Hids1).
  destruct (getOrCreateTransaction _ _ _) as [kv1 tx]. simpl in *.
  assert (writeSetOf kv t = WriteSet tx) as Hws.
  { unfold writeSetOf. destruct (transactions kv !! t) as [tx0|] eqn:E; simpl.
    - by rewrite (Hold tx0 eq_refl).
    - by rewrite Hnew. }
  pose proof (tryAcquireWriteLock_spec kv1 key tx) as (Ht & Hm & _ & Hres).
  assert (entry kv1 key = entry kv key) as He by (unfold entry; by rewrite Hlocks).
  destruct (tryAcquireWriteLock kv1 key tx) as [kv2 ok]. simpl in *.
  rewrite He, Hid in Hres.
  destruct ok; simpl.
  - destruct Hres as (Hc & Hr & Hl).
    split; [congruence|]. split.
    { apply (ids_ok_insert kv2); [|done].
      intros t' tx'. rewrite Ht. apply Hids1. }
    split; [intros t' Hne; rewrite lookup_insert_ne by done;
            rewrite Ht; by apply Hother|].
    split; [by rewrite lookup_insert_eq|].
    split; [rewrite <- Hid; by apply writer_conflict_false|].
    split; [done|]. split; [by rewrite Hl, Hlocks|].
    unfold writeSetOf at 1. simpl. by rewrite lookup_insert_eq, Hws.
  - destruct Hres as [Hc ->].
    split; [done|]. split; [done|]. split; [done|].
    split; [by rewrite Hlook|].
    split; [|split; [done|unfold writeSetOf at 1; by rewrite Hlook]].
    destruct Hc as [Hc|Hc]; [left|by right].
    rewrite <- Hid. by apply writer_conflict_true.
Qed.

(** The writer of a key stays its writer. *)
Lemma step_keeps_writer kv r key w :
  ids_ok kv →
  Writer (entry kv key) = Some w → Writer (entry (step kv r) key) = Some w.
Proof.
  intros Hids Hw. unfold entry in *. destruct r as [request|request]; simpl.
  - destruct (Get_cases kv request {| Value := ""; GetSuccess := false |} Hids)
      as (_ & _ & _ & _ & _ & Hres).
    destruct (GetSuccess _); [destruct Hres as (_ & -> & _)
                             |destruct Hres as (_ & -> & _); done].
    rewrite lookup_insert. by destruct (decide (GetKey request = key)) as [->|].
  - destruct (Put_cases kv request Hids) as (_ & _ & _ & _ & Hres).
    destruct (PutSuccess _); [destruct Hres as (Hc & _ & -> & _)
                             |destruct Hres as (_ & -> & _); done].
    rewrite lookup_insert.
    destruct (decide (PutKey request = key)) as [Heq|]; [|done].
    simpl. f_equal. symmetry. apply Hc. rewrite Heq. exact Hw.
Qed.

Lemma step_keeps_reader kv r key t :
  ids_ok kv →
  t ∈ Readers (entry kv key) → t ∈ Readers (entry (step kv r) key).
Proof.
  intros Hids Hr. unfold entry in *. destruct r as [request|request]; simpl.
  - destruct (Get_cases kv request {| Value := ""; GetSuccess := false |} Hids)
      as (_ & _ & _ & _ & _ & Hres).
    destruct (GetSuccess _); [destruct Hres as (_ & -> & _)
                             |destruct Hres as (_ & -> & _); done].
    rewrite lookup_insert.
    destruct (decide (GetKey request = key)) as [->|]; [|done].
    simpl. set_solver.
  - destruct (Put_cases kv request Hids) as (_ & _ & _ & _ & Hres).
    destruct (PutSuccess _); [destruct Hres as (_ & _ & -> & _)
                             |destruct Hres as (_ & -> & _); done].
    rewrite lookup_insert. by destruct (decide (PutKey request = key)) as [->|].
Qed.

Lemma step_ids_ok kv r : ids_ok kv → ids_ok (step kv r).
Proof.
  intros Hids. destruct r as [request|request]; simpl.
  - by destruct (Get_cases kv request {| Value := ""; GetSuccess := false |} Hids)
      as (_ & ? & _).
  - by destruct (Put_cases kv request Hids) as (_ & ? & _).
Qed.

Lemma legacy_step_mp kv r : ids_ok kv → mp (step kv r) = mp kv.
Proof.
  intros Hids. destruct r as [request|request]; simpl.
  - by destruct (Get_cases kv request {| Value := ""; GetSuccess := false |} Hids)
      as (? & _).
  - by destruct (Put_cases kv request Hids) as (? & _).
Qed.

Lemma step_exclusion kv r : ids_ok kv → exclusion kv → exclusion (step kv r).
Proof.
  intros Hids Hex key keyLock w.
  assert (∀ k w', Writer (entry kv k) = Some w' →
                  Readers (entry kv k) ⊆ {[w']}) as Hex'.
  { intros k w'. unfold entry.
    destruct (locks kv !! k) as [kl|] eqn:E; simpl; [|done].
    intros Hw. by apply (Hex k kl). }
  destruct r as [request|request]; simpl.
  - destruct (Get_cases kv request {| Value := ""; GetSuccess := false |} Hids)
      as (_ & _ & _ & _ & _ & Hres).
    destruct (GetSuccess _); [destruct Hres as (Hc & -> & _)
                             |destruct Hres as (_ & -> & _); by apply Hex].
    rewrite lookup_insert.
    destruct (decide (GetKey request = key)) as [Heq|]; [|by apply Hex].
    intros [= <-]. simpl. intros Hw.
    pose proof (Hex' _ w Hw) as Hsub. pose proof (Hc w Hw) as Heqw.
    intros r Hr. apply elem_of_union in Hr as [Hr|Hr]; [|by apply Hsub].
    apply elem_of_singleton in Hr. apply elem_of_singleton. congruence.
  - destruct (Put_cases kv request Hids) as (_ & _ & _ & _ & Hres).
    destruct (PutSuccess _); [destruct Hres as (_ & Hr & -> & _)
                             |destruct Hres as (_ & -> & _); by apply Hex].
    rewrite lookup_insert.
    destruct (decide (PutKey request = key)) as [Heq|]; [|by apply Hex].
    intros [= <-]. simpl. by intros [= <-].
Qed.

Lemma run_snoc kv rs r : run kv (rs ++ [r]) = step (run kv rs) r.
Proof. unfold run. by rewrite foldl_app. Qed.

Lemma run_ids_ok kv rs : ids_ok kv → ids_ok (run kv rs).
Proof.
  intros Hids. induction rs as [|r rs IH] using rev_ind; [done|].
  rewrite run_snoc. by apply step_ids_ok.
Qed.

Lemma NewKVService_ids_ok : ids_ok NewKVService.
Proof. intros t tx H. simpl in H. by rewrite lookup_empty in H. Qed.

(** X22. In every state the older server reaches, a key that has a
    writer has no reader other than that writer; and the store is
    empty: no request of the older server writes it. *)
Theorem legacy_exclusion_and_empty_store rs :
  exclusion (run NewKVService rs) ∧ mp (run NewKVService rs) = ∅.
Proof.
  induction rs as [|r rs [IHe IHm]] using rev_ind.
  { split; [|done]. intros key keyLock w H. simpl in H.
    by rewrite lookup_empty in H. }
  rewrite run_snoc.
  pose proof (run_ids_ok NewKVService rs NewKVService_ids_ok) as Hids.
  split; [by apply step_exclusion|]. by rewrite legacy_step_mp.
Qed.

Lemma run_keeps_writer kv rs key w :
  ids_ok kv →
  Writer (entry kv key) = Some w → Writer (entry (run kv rs) key) = Some w.
Proof.
  intros Hids Hw. induction rs as [|r rs IH] using rev_ind; [done|].
  rewrite run_snoc. apply step_keeps_writer; [by apply run_ids_ok|done].
Qed.

Lemma run_keeps_reader kv rs key t :
  ids_ok kv →
  t ∈ Readers (entry kv key) → t ∈ Readers (entry (run kv rs) key).
Proof.
  intros Hids Hr. induction rs as [|r rs IH] using rev_ind; [done|].
  rewrite run_snoc. apply step_keeps_reader; [by apply run_ids_ok|done].
Qed.

(** A request that is not a [Put] of [key] by [t] leaves what [t] has
    buffered for [key]. *)
Lemma step_keeps_write kv r key t :
  ids_ok kv → ¬ writes key t r →
  writeSetOf (step kv r) t !! key = writeSetOf kv t !! key.
Proof.
  intros Hids Hr. destruct r as [request|request]; simpl in *.
  - destruct (Get_cases kv request {| Value := ""; GetSuccess := false |} Hids)
      as (_ & _ & Hother & _ & Hsame & _).
    destruct (decide (GetTxid request = t)) as [<-|Hne]; [by rewrite Hsame|].
    unfold writeSetOf. by rewrite Hother.
  - destruct (Put_cases kv request Hids) as (_ & _ & Hother & _ & Hres).
    destruct (decide (PutTxid request = t)) as [<-|Hne];
      [|unfold writeSetOf; by rewrite Hother].
    destruct (PutSuccess _).
    + destruct Hres as (_ & _ & _ & ->).
      rewrite lookup_insert_ne; [done|]. intros Hk. by apply Hr.
    + by destruct Hres as (_ & _ & ->).
Qed.

(** X23. The locks of the older server are never released. Whatever
    requests follow, a reader of a key stays one of its readers; and
    once a transaction [w] is the writer of a key, it stays its writer,
    and every [Get] and every [Put] of that key by another transaction
    is refused ([Success] false; a refused [Get] leaves the value of
    the response as it was). *)
Theorem legacy_locks_are_forever rs rs' key w :
  Writer (entry (run NewKVService rs) key) = Some w →
  let kv := run NewKVService rs in
  let kv' := run kv rs' in
  (∀ k t, t ∈ Readers (entry kv k) → t ∈ Readers (entry kv' k)) ∧
  Writer (entry kv' key) = Some w ∧
  (∀ request response,
     GetKey request = key → GetTxid request ≠ w →
     GetSuccess (Get kv' request response).2 = false ∧
     Value (Get kv' request response).2 = Value response) ∧
  (∀ request,
     PutKey request = key → PutTxid request ≠ w →
     PutSuccess (Put kv' request).2 = false).
Proof.
  intros Hw kv kv'.
  pose proof (run_ids_ok NewKVService rs NewKVService_ids_ok) as Hids.
  pose proof (run_ids_ok _ rs' Hids) as Hids'. fold kv kv' in Hids, Hids'.
  pose proof (run_keeps_writer _ rs' key w Hids Hw) as Hw'. fold kv' in Hw'.
  split; [intros k t; by apply run_keeps_reader|].
  split; [done|]. split.
  - intros request response <- Hne.
    destruct (Get_cases kv' request response Hids')
      as (_ & _ & _ & _ & _ & Hres).
    destruct (GetSuccess _); [|by destruct Hres as (_ & _ & ->)].
    destruct Hres as (Hc & _). destruct Hne. symmetry. by apply Hc.
  - intros request <- Hne.
    destruct (Put_cases kv' request Hids') as (_ & _ & _ & _ & Hres).
    destruct (PutSuccess _); [|done].
    destruct Hres as (Hc & _). destruct Hne. symmetry. by apply Hc.
Qed.

Lemma legacy_locks_are_forever_witness :
  let kv := run NewKVService rs_put_k in
  let kv' := run kv [ReqGet (mkGetRequest "k" 10 1)] in
  (∀ k t, t ∈ Readers (entry kv k) → t ∈ Readers (entry kv' k)) ∧
  Writer (entry kv' "k") = Some 1%N ∧
  (∀ request response,
     GetKey request = "k" → GetTxid request ≠ 1%N →
     GetSuccess (Get kv' request response).2 = false ∧
     Value (Get kv' request response).2 = Value response) ∧
  (∀ request,
     PutKey request = "k" → PutTxid request ≠ 1%N →
     PutSuccess (Put kv' request).2 = false).
Proof.
  exact (legacy_locks_are_forever rs_put_k [ReqGet (mkGetRequest "k" 10 1)]
           "k" 1 eq_refl).
Defined.

(** X24. Read-your-own-writes on the older server. After a [Put] of a
    key by transaction [t] has succeeded, and whatever requests follow
    that are not a [Put] of that key by [t], a [Get] of the key by [t]
    succeeds and returns the value put. *)
Theorem legacy_read_your_writes rs request rs' clientID response :
  PutSuccess (Put (run NewKVService rs) request).2 = true →
  Forall (λ r, ¬ writes (PutKey request) (PutTxid request) r) rs' →
  let kv' := run (Put (run NewKVService rs) request).1 rs' in
  let result :=
    Get kv' (mkGetRequest (PutKey request) clientID (PutTxid request)) response in
  GetSuccess result.2 = true ∧ Value result.2 = PutValue request.
Proof.
  intros Hok Hrs kv' result.
  set (kv := run NewKVService rs) in *.
  set (key := PutKey request) in *. set (t := PutTxid request) in *.
  pose proof (run_ids_ok NewKVService rs NewKVService_ids_ok) as Hids.
  fold kv in Hids.
  destruct (Put_cases kv request Hids) as (_ & Hids1 & _ & _ & Hres).
  rewrite Hok in Hres. destruct Hres as (_ & _ & Hl & Hws).
  fold key t in Hl, Hws.
  set (kv1 := (Put kv request).1) in *.
  assert (Writer (entry kv1 key) = Some t) as Hw1.
  { unfold entry. by rewrite Hl, lookup_insert_eq. }
  assert (writeSetOf kv1 t !! key = Some (PutValue request)) as Hv1.
  { by rewrite Hws, lookup_insert_eq. }
  assert (ids_ok kv' ∧ Writer (entry kv' key) = Some t ∧
          writeSetOf kv' t !! key = Some (PutValue request)) as (Hids' & Hw' & Hv').
  { unfold kv'. clear result kv'.
    induction rs' as [|r rs' IH] using rev_ind; [done|].
    apply Forall_app in Hrs as [Hrs Hr]. rewrite Forall_singleton in Hr.
    rewrite run_snoc. destruct (IH Hrs) as (IHi & IHw & IHv).
    split; [by apply step_ids_ok|].
    split; [by apply step_keeps_writer|].
    by rewrite step_keeps_write. }
  destruct (Get_cases kv' (mkGetRequest key clientID t) response Hids')
    as (_ & _ & _ & _ & _ & Hres).
  fold result in Hres. simpl in Hres.
  destruct (GetSuccess result.2).
  - destruct Hres as (_ & _ & ->). by rewrite Hv'.
  - destruct Hres as ((w & Hw & Hne) & _). congruence.
Qed.

Lemma legacy_read_your_writes_witness :
  let kv' := run (Put (run NewKVService []) (mkPutRequest "k" "a" 10 1)).1
               [ReqGet (mkGetRequest "j" 20 2);
                ReqPut (mkPutRequest "k" "b" 20 2)] in
  let result := Get kv' (mkGetRequest "k" 10 1) (mkGetResponse "" false) in
  GetSuccess result.2 = true ∧ Value result.2 = "a".
Proof.
  apply (legacy_read_your_writes [] (mkPutRequest "k" "a" 10 1)
           [ReqGet (mkGetRequest "j" 20 2); ReqPut (mkPutRequest "k" "b" 20 2)]
           10 (mkGetResponse "" false)); [done|].
  repeat constructor; simpl; [tauto|]. intros [_ H]. discriminate H.
Defined.

End LegacyFacts.

(** ** The older client *)

Module LegacyClientFacts.
Import LegacyClient.

Section Session.
Context {World : Type}.
Variable Call : nat → Rpc → World → World * Reply * error.
Variable next : nat → Benchmark.WorkloadOp.

Lemma Abort_active client (w : World) :
  currentTxid client ≠ 0%N →
  ∃ w', Abort Call client w = Some (reset client, w').
Proof.
  intros Hne. unfold Abort.
  destruct (N.eqb_spec (currentTxid client) 0); [done|]. by eexists.
Qed.

Lemma commitLoop_idle handles client (w : World) :
  currentTxid client ≠ 0%N →
  ∃ w' ok, commitLoop Call handles client w = Some (reset client, w', ok).
Proof.
  intros Hne. revert w. induction handles as [|h handles IH]; intros w.
  { by eexists _, _. }
  cbn [commitLoop].
  destruct (Call h _ w) as [[w1 response] err].
  destruct (Abort_active client w1 Hne) as [w2 Ha].
  destruct err as [e|]; [rewrite Ha; by eexists _, _|].
  destruct (Success response); simpl; [apply IH|].
  rewrite Ha. by eexists _, _.
Qed.

(** X26. [Begin] of the older client is fatal when a transaction is
    active; otherwise it leaves a transaction id that is not 0 (the
    number drawn, 1 when 0 is drawn), an empty write set and no
    participant. *)
Theorem legacy_Begin_nonzero client draw :
  match Begin client draw with
  | Some client' =>
      currentTxid client = 0%N ∧
      currentTxid client' ≠ 0%N ∧
      (draw ≠ 0%N → currentTxid client' = draw) ∧
      writeSet client' = ∅ ∧ participants client' = []
  | None => currentTxid client ≠ 0%N
  end.
Proof.
  unfold Begin. destruct (N.eqb_spec (currentTxid client) 0) as [H0|Hne];
    simpl; [|done].
  split; [done|]. destruct (N.eqb_spec draw 0) as [->|Hd]; by repeat split.
Qed.

(** X27. The life of a transaction of the older client. With a
    transaction active, [Abort] and [Commit] return and leave the
    client idle (no transaction id, empty write set, no participant),
    whatever the server answers; a [Get] or a [Put] that returns false
    leaves it idle as well, the [Get] with the empty string; a [Get]
    that returns true leaves the transaction id and the write set as
    they were, and a [Put] that returns true adds its pair to the
    write set. *)
Theorem legacy_transaction_ends_idle client (w : World) :
  currentTxid client ≠ 0%N →
  (∃ client' w', Abort Call client w = Some (client', w') ∧ idle client') ∧
  (∃ client' w' ok,
     Commit Call client w = Some (client', w', ok) ∧ idle client') ∧
  (∀ key client' w' v ok,
     Get Call client key w = Some (client', w', v, ok) →
     if ok then currentTxid client' = currentTxid client ∧
                writeSet client' = writeSet client
     else idle client' ∧ v = "") ∧
  (∀ key value client' w' ok,
     Put Call client key value w = Some (client', w', ok) →
     if ok then currentTxid client' = currentTxid client ∧
                writeSet client' = <[key := value]> (writeSet client)
     else idle client').
Proof.
  intros Hne. split; [|split; [|split]].
  - destruct (Abort_active client w Hne) as [w' Ha]. by eexists _, _.
  - unfold Commit. destruct (N.eqb_spec (currentTxid client) 0); [done|].
    destruct (commitLoop_idle (participants client) client w Hne)
      as (w' & ok & Hc).
    by eexists _, _, _.
  - intros key client' w' v ok. unfold Get.
    destruct (N.eqb_spec (currentTxid client) 0); [done|].
    destruct (writeSet client !! key) as [value|];
      [by intros [= <- <- <- <-]|].
    destruct (Call _ _ w) as [[w1 response] err].
    destruct err as [e|]; [done|].
    destruct (Success response); simpl.
    + intros [= <- <- <- <-]. unfold addParticipant.
      by destruct (bool_decide _).
    + destruct (Abort_active client w1 Hne) as [w2 ->].
      by intros [= <- <- <- <-].
  - intros key value client' w' ok. unfold Put.
    destruct (N.eqb_spec (currentTxid client) 0); [done|].
    destruct (Call _ _ w) as [[w1 response] err].
    destruct err as [e|]; [done|].
    destruct (Success response); simpl.
    + intros [= <- <- <-]. unfold addParticipant.
      by destruct (bool_decide _).
    + destruct (Abort_active
                  (set_writeSet client (<[key := value]> (writeSet client)))
                  w1 Hne) as [w2 ->].
      by intros [= <- <- <-].
Qed.

(** X28. [runClient] of the older client never begins a transaction:
    with one round or more it is fatal at its first operation, whatever
    the workload and the server; with no round it reports 0. *)
Theorem legacy_runClient_is_fatal iterations handle id (w : World) :
  runClient Call next iterations handle id w
  = match iterations with
    | O => Some (0%Z, w)
    | S _ => None
    end.
Proof.
  destruct iterations as [|iterations]; [done|].
  unfold runClient. cbn [batches].
  change 1024 with (S 1023). cbn [batch].
  by destruct (Benchmark.IsRead (next 0)).
Qed.

End Session.

Lemma legacy_transaction_ends_idle_witness :
  ∃ client' w' ok,
    Commit refuseCall (mkClient 0 5 9 ∅ [0]) tt = Some (client', w', ok) ∧
    idle client'.
Proof.
  exact (proj1 (proj2 (legacy_transaction_ends_idle refuseCall
                         (mkClient 0 5 9 ∅ [0]) tt ltac:(done)))).
Defined.

End LegacyClientFacts.
